(** * OpenAPI traffic auditor: a shallow embedding of
      packages/api/src/api-test-helpers/audit/openapi-auditor.ts

    The development follows the class [OpenApiAuditor]: the path matcher
    ([normalizePathForSchema]), the coverage accounting and report rendering
    ([generateReport], [generateEmptyReport]), the recorder hooks installed by
    [registerPlugin], and the artifact lifecycle ([getTraffic], [writeTraffic],
    [teardown], [clearGeneratedDirectory], [generateAuditReport]).

    Conventions of the model
    - JavaScript strings are [string], a text outside ASCII being the
      sequence of its UTF-8 bytes; case mapping is modelled on the ASCII
      letters, which is what HTTP methods consist of.  A regular
      expression reads code units: the matcher says nothing where
      matching on bytes could differ ([PathMatcher.unit_exact]).
    - Numbers are binary64 values: [Number], the division and the
      multiplication of the percentages, [Math.round] and the printing of
      a number round as IEEE 754 prescribes ([SpecFloat]).
    - Reading [obj[key]] from a plain object also finds the members that
      the object inherits from [Object.prototype].
    - Plain objects used as dictionaries (the schema's [paths], a path item, a
      [responses] object) are association lists in [Object.keys] order.
    - [Map] and [Set] are association lists / lists in insertion order without
      repeated keys, which is the iteration order JavaScript guarantees.
    - [await] is sequencing: the class is used from one thread of control. *)

From Stdlib Require Import ZArith String Ascii List Bool Lia DecimalString.
From Stdlib Require SpecFloat.
From stdpp Require Import base option gmap strings list.

Import ListNotations.
Local Open Scope string_scope.
Local Open Scope list_scope.

(** ** String primitives of the host language *)

Module Js.

(** [s.split(c)] for a one-character separator: never the empty list. *)
Fixpoint split (c : ascii) (s : string) : list string :=
  match s with
  | EmptyString => [EmptyString]
  | String a s' =>
      if Ascii.eqb a c then EmptyString :: split c s'
      else match split c s' with
           | seg :: segs => String a seg :: segs
           | [] => [String a EmptyString]
           end
  end.

(** [arr.join(sep)] on an array of strings. *)
Fixpoint join (sep : string) (l : list string) : string :=
  match l with
  | [] => EmptyString
  | [x] => x
  | x :: rest => x ++ sep ++ join sep rest
  end.

(** [arr[0]] of a split, i.e. the text before the first separator. *)
Definition first (l : list string) : string :=
  match l with
  | x :: _ => x
  | [] => EmptyString
  end.

(** [arr.slice(0, -1)]. *)
Definition slice_init (l : list string) : list string := removelast l.

Definition upper_char (a : ascii) : ascii :=
  let n := nat_of_ascii a in
  if (97 <=? n)%nat && (n <=? 122)%nat then ascii_of_nat (n - 32) else a.

Definition lower_char (a : ascii) : ascii :=
  let n := nat_of_ascii a in
  if (65 <=? n)%nat && (n <=? 90)%nat then ascii_of_nat (n + 32) else a.

Fixpoint map_chars (f : ascii -> ascii) (s : string) : string :=
  match s with
  | EmptyString => EmptyString
  | String a s' => String (f a) (map_chars f s')
  end.

Definition toUpperCase : string -> string := map_chars upper_char.
Definition toLowerCase : string -> string := map_chars lower_char.

(** Decimal rendering of an integer, as a template literal prints it. *)
Definition Z_to_string (z : Z) : string :=
  NilZero.string_of_int (Z.to_int z).

Definition nat_to_string (n : nat) : string := Z_to_string (Z.of_nat n).

(** *** Numbers

    A number is a binary64 value.  The integral ones are kept as the
    integer they denote ([-0] as [0], from which nothing here tells it
    apart), the others as sign, mantissa and binary exponent. *)
Inductive number :=
| Int (z : Z)
| NaN
| Infinity
| NegInfinity
| Fraction (negative : bool) (m : positive) (e : Z).

Definition prec : Z := 53.
Definition emax : Z := 1024.

(** The double nearest to [num / den], ties to even. *)
Definition round_ratio (negative : bool) (num den : positive) : SpecFloat.spec_float :=
  let '(q, e, l) := SpecFloat.SFdiv_core_binary prec emax (Zpos num) 0 (Zpos den) 0 in
  SpecFloat.binary_round_aux prec emax negative q e l.

(** The double nearest to an integer. *)
Definition double_of_Z (z : Z) : SpecFloat.spec_float := SpecFloat.binary_normalize prec emax z 0 false.

Definition signed (negative : bool) (z : Z) : Z := if negative then (- z)%Z else z.

Definition of_double (x : SpecFloat.spec_float) : number :=
  match x with
  | SpecFloat.S754_zero _ => Int 0
  | SpecFloat.S754_infinity false => Infinity
  | SpecFloat.S754_infinity true => NegInfinity
  | SpecFloat.S754_nan => NaN
  | SpecFloat.S754_finite s m e =>
      if (0 <=? e)%Z then Int (signed s (Zpos m * 2 ^ e))
      else if (Zpos m mod 2 ^ (- e) =? 0)%Z
           then Int (signed s (Zpos m / 2 ^ (- e)))
           else Fraction s m e
  end.

(** *** [Number::toString], radix 10 *)

Definition same_double (x y : SpecFloat.spec_float) : bool :=
  match x, y with
  | SpecFloat.S754_finite sx mx ex, SpecFloat.S754_finite sy my ey =>
      Bool.eqb sx sy && Pos.eqb mx my && Z.eqb ex ey
  | SpecFloat.S754_zero _, SpecFloat.S754_zero _ => true
  | SpecFloat.S754_infinity sx, SpecFloat.S754_infinity sy => Bool.eqb sx sy
  | _, _ => false
  end.

(** The double nearest to [s * 10^p], for [s > 0]. *)
Definition round_scaled (s p : Z) : SpecFloat.spec_float :=
  if (0 <=? p)%Z then round_ratio false (Z.to_pos (s * 10 ^ p)) 1
  else round_ratio false (Z.to_pos s) (Z.to_pos (10 ^ (- p))).

(** [floor (num / den / 10^p)]. *)
Definition scaled_floor (num den p : Z) : Z :=
  if (0 <=? p)%Z then (num / (den * 10 ^ p))%Z
  else (num * 10 ^ (- p) / den)%Z.

(** For [num / den < 1]: the number of zeros between the decimal point
    and the first significant digit. *)
Fixpoint leading_zeros (fuel : nat) (num den : Z) : Z :=
  match fuel with
  | O => 0
  | S fuel' =>
      if (den <=? num * 10)%Z then 0%Z
      else (1 + leading_zeros fuel' (num * 10) den)%Z
  end.

(** The [n] with [10^(n-1) <= num / den < 10^n]. *)
Definition decimal_exponent (num den : Z) : Z :=
  if (den <=? num)%Z
  then Z.of_nat (String.length (Z_to_string (num / den)))
  else (- leading_zeros 400 num den)%Z.

(** Comparison of [num / den] with the middle of [lo * 10^p] and
    [(lo + 1) * 10^p]. *)
Definition against_middle (num den lo p : Z) : comparison :=
  if (0 <=? p)%Z
  then (2 * num ?= (2 * lo + 1) * 10 ^ p * den)%Z
  else (2 * num * 10 ^ (- p) ?= (2 * lo + 1) * den)%Z.

(** The digits [s] and the exponent [n] of step 5: the least number [k]
    of digits for which some [s] of [k] digits has [s * 10^(n-k)]
    rounding to the value; of two such [s] the nearer one, and the even
    one when they are as near. *)
Fixpoint shortest (fuel : nat) (k n0 num den : Z) (x : SpecFloat.spec_float) : Z * Z :=
  let p := (n0 - k)%Z in
  let lo := scaled_floor num den p in
  let hi := (lo + 1)%Z in
  let up := if (hi =? 10 ^ k)%Z then (10 ^ (k - 1), n0 + 1)%Z else (hi, n0) in
  match fuel with
  | O => (lo, n0)
  | S fuel' =>
      match same_double (round_scaled lo p) x, same_double (round_scaled hi p) x with
      | true, true =>
          match against_middle num den lo p with
          | Lt => (lo, n0)
          | Gt => up
          | Eq => if Z.even lo then (lo, n0) else up
          end
      | true, false => (lo, n0)
      | false, true => up
      | false, false => shortest fuel' (k + 1) n0 num den x
      end
  end.

Fixpoint zeros (n : nat) : string :=
  match n with
  | O => EmptyString
  | S n' => String "0" (zeros n')
  end.

(** Steps 6 to 10: the digits, placed by the exponent. *)
Definition place_digits (digits : string) (n : Z) : string :=
  let k := Z.of_nat (String.length digits) in
  if ((k <=? n) && (n <=? 21))%Z
  then (digits ++ zeros (Z.to_nat (n - k)))%string
  else if ((0 <? n) && (n <=? 21))%Z
  then (String.substring 0 (Z.to_nat n) digits ++ "."
        ++ String.substring (Z.to_nat n) (Z.to_nat (k - n)) digits)%string
  else if ((-6 <? n) && (n <=? 0))%Z
  then ("0." ++ zeros (Z.to_nat (- n)) ++ digits)%string
  else
    let e := (n - 1)%Z in
    let exponent :=
      ("e" ++ (if (0 <=? e)%Z then "+" else "-") ++ Z_to_string (Z.abs e))%string in
    match digits with
    | String d EmptyString => String d exponent
    | String d rest => String d ("." ++ rest ++ exponent)%string
    | EmptyString => exponent
    end.

(** The rendering of the positive double [num / den]. *)
Definition positive_to_string (num den : positive) : string :=
  let x := round_ratio false num den in
  let n0 := decimal_exponent (Zpos num) (Zpos den) in
  let '(s, n) := shortest 17 1 n0 (Zpos num) (Zpos den) x in
  place_digits (Z_to_string s) n.

Definition number_to_string (x : number) : string :=
  match x with
  | Int z =>
      if (Z.abs z <=? 2 ^ 53)%Z then Z_to_string z
      else ((if (z <? 0)%Z then "-" else "")
            ++ positive_to_string (Z.to_pos (Z.abs z)) 1)%string
  | NaN => "NaN"
  | Infinity => "Infinity"
  | NegInfinity => "-Infinity"
  | Fraction negative m e =>
      ((if negative then "-" else "")
       ++ positive_to_string m (Z.to_pos (2 ^ (- e))))%string
  end.

(** *** [Number(text)] *)

Definition byte (n : nat) : ascii := ascii_of_nat n.

Definition utf8 (bytes : list nat) : string :=
  fold_right (fun n s => String (byte n) s) EmptyString bytes.

(** White space and line terminators, in UTF-8: U+0009 to U+000D, U+0020,
    U+00A0, U+1680, U+2000 to U+200A, U+2028, U+2029, U+202F, U+205F,
    U+3000 and U+FEFF. *)
Definition white_space : list string :=
  map utf8
    [[9]; [10]; [11]; [12]; [13]; [32]; [194; 160]; [225; 154; 128];
     [226; 128; 128]; [226; 128; 129]; [226; 128; 130]; [226; 128; 131];
     [226; 128; 132]; [226; 128; 133]; [226; 128; 134]; [226; 128; 135];
     [226; 128; 136]; [226; 128; 137]; [226; 128; 138]; [226; 128; 168];
     [226; 128; 169]; [226; 128; 175]; [226; 129; 159]; [227; 128; 128];
     [239; 187; 191]]%nat.

Fixpoint strip_prefix (prefix s : string) : option string :=
  match prefix with
  | EmptyString => Some s
  | String a prefix' =>
      match s with
      | String b s' => if Ascii.eqb a b then strip_prefix prefix' s' else None
      | EmptyString => None
      end
  end.

Fixpoint strip_any (prefixes : list string) (s : string) : option string :=
  match prefixes with
  | [] => None
  | prefix :: rest =>
      match strip_prefix prefix s with
      | Some s' => Some s'
      | None => strip_any rest s
      end
  end.

Fixpoint skip_white_space (fuel : nat) (s : string) : string :=
  match fuel with
  | O => s
  | S fuel' =>
      match strip_any white_space s with
      | Some s' => skip_white_space fuel' s'
      | None => s
      end
  end.

Definition trim_start (s : string) : string := skip_white_space (String.length s) s.

(** The value of a digit in a radix up to 16, [None] for any other
    character. *)
Definition digit_value (radix : Z) (a : ascii) : option Z :=
  let n := Z.of_nat (nat_of_ascii a) in
  let v :=
    if ((48 <=? n) && (n <=? 57))%Z then Some (n - 48)%Z
    else if ((97 <=? n) && (n <=? 102))%Z then Some (n - 87)%Z
    else if ((65 <=? n) && (n <=? 70))%Z then Some (n - 55)%Z
    else None in
  match v with
  | Some d => if (d <? radix)%Z then Some d else None
  | None => None
  end.

(** The longest run of digits at the start of [s]: how many there are,
    their value, and what follows. *)
Fixpoint read_digits (radix : Z) (count : nat) (acc : Z) (s : string)
  : nat * Z * string :=
  match s with
  | String a s' =>
      match digit_value radix a with
      | Some d => read_digits radix (S count) (radix * acc + d) s'
      | None => (count, acc, s)
      end
  | EmptyString => (count, acc, s)
  end.

(** [0x], [0o] and [0b] literals. *)
Definition read_radix_literal (s : string) : option (SpecFloat.spec_float * string) :=
  match s with
  | String "0" (String c s') =>
      let radix :=
        if Ascii.eqb c "x" || Ascii.eqb c "X" then Some 16%Z
        else if Ascii.eqb c "o" || Ascii.eqb c "O" then Some 8%Z
        else if Ascii.eqb c "b" || Ascii.eqb c "B" then Some 2%Z
        else None in
      match radix with
      | Some r =>
          match read_digits r 0 0 s' with
          | (O, _, _) => None
          | (S _, value, rest) => Some (double_of_Z value, rest)
          end
      | None => None
      end
  | _ => None
  end.

(** An exponent part, when there is one: its value and what follows. *)
Definition read_exponent (s : string) : Z * string :=
  match s with
  | String c s' =>
      if Ascii.eqb c "e" || Ascii.eqb c "E"
      then
        let '(negative, s'') :=
          match s' with
          | String "+" t => (false, t)
          | String "-" t => (true, t)
          | _ => (false, s')
          end in
        match read_digits 10 0 0 s'' with
        | (O, _, _) => (0%Z, s)
        | (S _, value, rest) => (signed negative value, rest)
        end
      else (0%Z, s)
  | EmptyString => (0%Z, s)
  end.

(** The double nearest to [mantissa * 10^exponent]. *)
Definition decimal_value (negative : bool) (mantissa exponent : Z) : SpecFloat.spec_float :=
  if (mantissa =? 0)%Z then SpecFloat.S754_zero negative
  else if (0 <=? exponent)%Z
  then round_ratio negative (Z.to_pos (mantissa * 10 ^ exponent)) 1
  else round_ratio negative (Z.to_pos mantissa) (Z.to_pos (10 ^ (- exponent))).

(** A decimal literal with its optional sign, or [Infinity]. *)
Definition read_decimal_literal (s : string) : option (SpecFloat.spec_float * string) :=
  let '(negative, s1) :=
    match s with
    | String "+" t => (false, t)
    | String "-" t => (true, t)
    | _ => (false, s)
    end in
  match strip_prefix "Infinity" s1 with
  | Some rest => Some (SpecFloat.S754_infinity negative, rest)
  | None =>
      let '(int_count, int_value, s2) := read_digits 10 0 0 s1 in
      let '(frac_count, value, s3) :=
        match s2 with
        | String "." t => read_digits 10 0 int_value t
        | _ => (O, int_value, s2)
        end in
      match int_count, frac_count with
      | O, O => None
      | _, _ =>
          let '(exponent, rest) := read_exponent s3 in
          Some (decimal_value negative value (exponent - Z.of_nat frac_count), rest)
      end
  end.

(** [Number(text)]: the text less the white space around it is empty
    (zero), a numeric literal, or something else ([NaN]). *)
Definition Number (text : string) : number :=
  let s := trim_start text in
  match s with
  | EmptyString => Int 0
  | _ =>
      let literal :=
        match read_radix_literal s with
        | Some r => Some r
        | None => read_decimal_literal s
        end in
      match literal with
      | Some (value, rest) =>
          match trim_start rest with
          | EmptyString => of_double value
          | _ => NaN
          end
      | None => NaN
      end
  end.

(** *** [Math.round] and the percentages *)

(** [Math.round(x)]: the nearest integer, the larger one at a tie. *)
Definition Math_round (x : SpecFloat.spec_float) : number :=
  match x with
  | SpecFloat.S754_finite s m e =>
      if (0 <=? e)%Z then Int (signed s (Zpos m * 2 ^ e))
      else Int ((2 * signed s (Zpos m) + 2 ^ (- e)) / (2 * 2 ^ (- e)))
  | _ => of_double x
  end.

(** [Math.round((a / b) * 100)] for two counts.  With a zero denominator
    [0 / 0] is [NaN] and [a / 0] is [Infinity] for [a > 0], and both
    survive the multiplication and [Math.round].  Otherwise the division
    and the multiplication each round to the nearest double. *)
Definition round_percent (a b : nat) : number :=
  match b with
  | O => match a with O => NaN | S _ => Infinity end
  | S _ =>
      Math_round
        (SpecFloat.SFmul prec emax
           (SpecFloat.SFdiv prec emax
              (double_of_Z (Z.of_nat a)) (double_of_Z (Z.of_nat b)))
           (double_of_Z 100))
  end.

(** Insertion into a list kept in the order of the default [sort()]
    comparator, which compares the elements' string renderings. *)
Fixpoint sort_insert (x : Z) (l : list Z) : list Z :=
  match l with
  | [] => [x]
  | y :: l' =>
      if String.leb (Z_to_string x) (Z_to_string y) then x :: l
      else y :: sort_insert x l'
  end.

(** [Array.from(set).sort()] with no comparator. *)
Definition sort (l : list Z) : list Z := fold_right sort_insert [] l.

End Js.

(** ** The schema document

    [schema.paths] maps a path template to a path item; a path item maps its
    keys (HTTP methods, and possibly [parameters]) to operations; what the
    auditor reads of an operation is the key list of its [responses]
    object, empty when the operation has none ([?.responses || {}]). *)

Definition Responses := list string.
Definition PathItem := list (string * Responses).
Definition Paths := list (string * PathItem).

Record Schema := mkSchema { paths : option Paths }.

(** [Object.keys(o)]. *)
Definition keys {V : Type} (o : list (string * V)) : list string := map fst o.

(** [o[k]]: the value stored under an own key. *)
Fixpoint obj_get {V : Type} (o : list (string * V)) (k : string) : option V :=
  match o with
  | [] => None
  | (k', v) :: o' => if String.eqb k' k then Some v else obj_get o' k
  end.

(** [schema.paths || {}]. *)
Definition paths_or_empty (schema : Schema) : Paths :=
  match paths schema with
  | Some p => p
  | None => []
  end.

(** ** Path matcher *)

Module PathMatcher.

(** The text [[^/]+] that stands for a placeholder in the pattern. *)
Definition segment_class : string := "[^/]+".

(** Position of the first closing brace of [s]. *)
Fixpoint until_close (s : string) : option nat :=
  match s with
  | EmptyString => None
  | String a s' =>
      if Ascii.eqb a "}" then Some 0%nat else option_map S (until_close s')
  end.

(** Length of the text that a match of [[^}]+\}] covers at the start of
    [s], closing brace included: at least one other character has to
    come before the brace. *)
Definition close_len (s : string) : option nat :=
  match until_close s with
  | Some (S n) => Some (S (S n))
  | _ => None
  end.

(** One left-to-right pass of the global replacement; [skip] counts the
    characters of the current match that are still to be dropped. *)
Fixpoint replace_go (skip : nat) (s : string) : string :=
  match s with
  | EmptyString => EmptyString
  | String a s' =>
      match skip with
      | S k => replace_go k s'
      | O =>
          if Ascii.eqb a "{"
          then match close_len s' with
               | Some n => segment_class ++ replace_go n s'
               | None => String a (replace_go 0 s')
               end
          else String a (replace_go 0 s')
      end
  end.

(** [schemaPath.replace(/\{[^}]+\}/g, '[^/]+')]. *)
Definition replace_placeholders (schemaPath : string) : string :=
  replace_go 0 schemaPath.

(** The pattern language that the replaced templates are read in: literal
    characters, the dot, and the class [[^/]+]. *)
Inductive RegexItem :=
| RLit (c : ascii)
| RAny
| RSeg.

(** Characters with a syntactic role in a regular expression. *)
Definition is_syntax_char (c : ascii) : bool :=
  existsb (Ascii.eqb c)
    ["^"; "$"; "\"; "."; "*"; "+"; "?"; "("; ")"; "["; "]"; "{"; "}"; "|"]%char.

Definition is_segment_class (c1 c2 c3 c4 c5 : ascii) : bool :=
  Ascii.eqb c1 "[" && Ascii.eqb c2 "^" && Ascii.eqb c3 "/"
  && Ascii.eqb c4 "]" && Ascii.eqb c5 "+".

Definition parse_char (c : ascii) (rest : option (list RegexItem))
  : option (list RegexItem) :=
  if Ascii.eqb c "." then option_map (cons RAny) rest
  else if is_syntax_char c then None
  else option_map (cons (RLit c)) rest.

(** [new RegExp(source)] restricted to the patterns made of literal
    characters, dots and [[^/]+] classes.  [None] stands for every other
    source text: a template with further syntax characters (a group, a
    quantifier, an escape, an unreplaced brace) is not interpreted. *)
Fixpoint RegExp_parse (source : string) : option (list RegexItem) :=
  match source with
  | EmptyString => Some []
  | String c1 s1 =>
      match s1 with
      | String c2 (String c3 (String c4 (String c5 rest))) =>
          if is_segment_class c1 c2 c3 c4 c5
          then option_map (cons RSeg) (RegExp_parse rest)
          else parse_char c1 (RegExp_parse s1)
      | _ => parse_char c1 (RegExp_parse s1)
      end
  end.

(** Line terminators, which the dot does not match. *)
Definition is_line_terminator (a : ascii) : bool :=
  Ascii.eqb a "010" || Ascii.eqb a "013".

(** [regex.test(s)] for the pattern [^items$]: the whole of [s] has to be
    consumed.  [[^/]+] tries its longest extent first and gives back. *)
Fixpoint RegExp_test (items : list RegexItem) (s : string) : bool :=
  match items with
  | [] => match s with EmptyString => true | _ => false end
  | RLit c :: items' =>
      match s with
      | String a s' => Ascii.eqb a c && RegExp_test items' s'
      | EmptyString => false
      end
  | RAny :: items' =>
      match s with
      | String a s' => negb (is_line_terminator a) && RegExp_test items' s'
      | EmptyString => false
      end
  | RSeg :: items' =>
      (fix plus (s : string) : bool :=
         match s with
         | EmptyString => false
         | String a s' =>
             negb (Ascii.eqb a "/") && (plus s' || RegExp_test items' s')
         end) s
  end.

(** A text of ASCII characters only. *)
Fixpoint is_ascii_text (s : string) : bool :=
  match s with
  | EmptyString => true
  | String a s' => (nat_of_ascii a <? 128)%nat && is_ascii_text s'
  end.

(** Patterns that match a text given by its UTF-8 bytes exactly when they
    match it given by its UTF-16 code units, which is what the regular
    expression reads: literals consume whole characters either way and a
    class followed by a literal or by the end stops between characters.
    A dot consumes one code unit, not one byte, and a class directly after
    a class may stop inside a character. *)
Fixpoint unit_exact (items : list RegexItem) : bool :=
  match items with
  | [] => true
  | RAny :: _ => false
  | RSeg :: rest =>
      match rest with
      | RSeg :: _ => false
      | _ => unit_exact rest
      end
  | RLit _ :: rest => unit_exact rest
  end.

(** Outcome of the matcher.  [Unsupported] is not a value of the source
    function: it marks a run about which the model says nothing.  That
    is a run that reached a template outside the pattern language above,
    or one that tests a text with a character outside ASCII against a
    pattern with a dot or with two adjacent classes, where matching on
    bytes is not matching on code units. *)
Inductive Outcome :=
| Matched (template : string)
| NoMatch
| Unsupported.

(** The loop over [Object.keys(schemaPaths)]. *)
Fixpoint first_match (cleanUrl : string) (templates : list string) : Outcome :=
  match templates with
  | [] => NoMatch
  | schemaPath :: rest =>
      match RegExp_parse (replace_placeholders schemaPath) with
      | None => Unsupported
      | Some regex =>
          if is_ascii_text cleanUrl || unit_exact regex
          then if RegExp_test regex cleanUrl then Matched schemaPath
               else first_match cleanUrl rest
          else Unsupported
      end
  end.

(** The members that every object inherits from [Object.prototype].
    [schemaPaths] is a plain object (parsed from the schema file, or
    [{}]), so [schemaPaths[name]] finds these as well as the own keys. *)
Definition inherited_members : list string :=
  ["constructor"; "__defineGetter__"; "__defineSetter__"; "hasOwnProperty";
   "__lookupGetter__"; "__lookupSetter__"; "isPrototypeOf";
   "propertyIsEnumerable"; "toString"; "valueOf"; "__proto__";
   "toLocaleString"].

Definition inherited (name : string) : bool :=
  existsb (String.eqb name) inherited_members.

(** [normalizePathForSchema(url, schemaPaths)].  The test
    [if (schemaPaths[cleanUrl])] succeeds on an own key, whose value is a
    path item, an object, and on the name of an inherited member, whose
    value is a function (the prototype object for [__proto__]): all of
    them truthy. *)
Definition normalizePathForSchema (url : string) (schemaPaths : Paths) : Outcome :=
  let cleanUrl := Js.first (Js.split "?" url) in
  match obj_get schemaPaths cleanUrl with
  | Some _ => Matched cleanUrl
  | None =>
      if inherited cleanUrl then Matched cleanUrl
      else first_match cleanUrl (keys schemaPaths)
  end.

(** *** The matcher as the specification words it

    Both paths are cut at the slashes; a template matches when the numbers
    of segments agree, every placeholder segment faces a non-empty
    segment and every other segment faces an equal one.  Which segments
    count as placeholders is the parameter [is_ph]. *)

(** A segment that is one placeholder: [{name}] with a non-empty name
    free of closing braces. *)
Definition whole_placeholder (seg : string) : bool :=
  match seg with
  | String a rest =>
      Ascii.eqb a "{"
      && match close_len rest with
         | Some n => Nat.eqb n (String.length rest)
         | None => false
         end
  | EmptyString => false
  end.

Fixpoint segments_match (is_ph : string -> bool)
    (template concrete : list string) : bool :=
  match template, concrete with
  | [], [] => true
  | t :: ts, c :: cs =>
      (if is_ph t then negb (String.eqb c EmptyString) else String.eqb t c)
      && segments_match is_ph ts cs
  | _, _ => false
  end.

Definition template_matches (is_ph : string -> bool)
    (template cleanUrl : string) : bool :=
  segments_match is_ph (Js.split "/" template) (Js.split "/" cleanUrl).

Definition spec_match (is_ph : string -> bool) (url : string)
    (schemaPaths : Paths) : option string :=
  let cleanUrl := Js.first (Js.split "?" url) in
  if existsb (String.eqb cleanUrl) (keys schemaPaths) then Some cleanUrl
  else List.find (fun t => template_matches is_ph t cleanUrl) (keys schemaPaths).

(** Templates on which the two descriptions are compared: every segment
    is a whole placeholder, or is free of syntax characters. *)
Fixpoint plain (s : string) : bool :=
  match s with
  | EmptyString => true
  | String a s' => negb (is_syntax_char a) && plain s'
  end.

Definition segment_ok (seg : string) : bool :=
  whole_placeholder seg || plain seg.

Definition template_ok (template : string) : bool :=
  forallb segment_ok (Js.split "/" template).

Definition paths_ok (schemaPaths : Paths) : bool :=
  forallb template_ok (keys schemaPaths).

(** The matcher's answer expected from the specification's description. *)
Definition to_outcome (o : option string) : Outcome :=
  match o with
  | Some template => Matched template
  | None => NoMatch
  end.

(** *** The pattern of a template, segment by segment *)

Fixpoint no_slash (s : string) : bool :=
  match s with
  | EmptyString => true
  | String a s' => negb (Ascii.eqb a "/") && no_slash s'
  end.

Fixpoint lit_items (s : string) : list RegexItem :=
  match s with
  | EmptyString => []
  | String c s' => RLit c :: lit_items s'
  end.

Definition segment_items (seg : string) : list RegexItem :=
  if whole_placeholder seg then [RSeg] else lit_items seg.

(** What follows a segment: nothing after the last one, a slash and the
    remaining segments otherwise. *)
Definition after_segment (tail : list string) (items : list RegexItem)
  : list RegexItem :=
  match tail with
  | [] => []
  | _ :: _ => RLit "/" :: items
  end.

Fixpoint template_items (segs : list string) : list RegexItem :=
  match segs with
  | [] => []
  | seg :: tail => segment_items seg ++ after_segment tail (template_items tail)
  end.

Definition after_text (tail : list string) : string :=
  match tail with
  | [] => EmptyString
  | _ :: _ => String "/" (Js.join "/" tail)
  end.

Definition segment_good (seg : string) : Prop :=
  segment_ok seg = true /\ no_slash seg = true.

End PathMatcher.

(** ** Traffic records *)

(** A payload of type [unknown]: a parsed JSON document, a raw body kept as
    a string, or [undefined]. *)
#[local] Unset Elimination Schemes.
Inductive JsValue :=
| VUndefined
| VNull
| VBool (b : bool)
| VNumber (z : Z)
| VString (s : string)
| VArray (items : list JsValue)
| VObject (fields : list (string * JsValue)).
#[local] Set Elimination Schemes.

Record TrafficRecord := mkTrafficRecord {
  method : string;
  url : string;
  status : Z;
  request : JsValue;
  response : JsValue
}.

(** ** Coverage accounting and report rendering *)

Module Report.

Import PathMatcher.

Definition nl : string := String "010"%char EmptyString.

(** *** [Set] and [Map] in insertion order *)

Definition set_has_string (x : string) (s : list string) : bool :=
  existsb (String.eqb x) s.

Definition set_add_string (x : string) (s : list string) : list string :=
  if set_has_string x s then s else s ++ [x].

Definition set_has (x : Z) (s : list Z) : bool := existsb (Z.eqb x) s.

Definition set_add (x : Z) (s : list Z) : list Z :=
  if set_has x s then s else s ++ [x].

(** [set.has(n)] for a number that may be [NaN]: the sets hold status
    codes only, so a non-finite number is never a member. *)
Definition set_has_number (n : Js.number) (s : list Z) : bool :=
  match n with
  | Js.Int z => set_has z s
  | _ => false
  end.

Definition map_has {V : Type} (k : string) (m : list (string * V)) : bool :=
  existsb (String.eqb k) (keys m).

(** [if (!m.has(k)) m.set(k, d)]. *)
Definition map_ensure {V : Type} (k : string) (d : V) (m : list (string * V))
  : list (string * V) :=
  if map_has k m then m else m ++ [(k, d)].

(** Mutation of the value stored under [k], in place. *)
Fixpoint map_modify {V : Type} (k : string) (f : V -> V) (m : list (string * V))
  : list (string * V) :=
  match m with
  | [] => []
  | (k', v) :: m' =>
      if String.eqb k' k then (k', f v) :: m' else (k', v) :: map_modify k f m'
  end.

(** *** The traffic loop *)

Record Analysis := mkAnalysis {
  testedPaths : list string;
  testedMethodsWithStatus : list (string * list (string * list Z));
  undocumentedEndpoints : list (string * list Z)
}.

Definition empty_analysis : Analysis := mkAnalysis [] [] [].

(** The branch for a documented endpoint. *)
Definition record_documented (normalizedPath : string) (record : TrafficRecord)
    (a : Analysis) : Analysis :=
  let method := Js.toLowerCase (method record) in
  mkAnalysis
    (set_add_string normalizedPath (testedPaths a))
    (map_modify normalizedPath
       (fun methodMap =>
          map_modify method (set_add (status record))
            (map_ensure method [] methodMap))
       (map_ensure normalizedPath [] (testedMethodsWithStatus a)))
    (undocumentedEndpoints a).

(** The key under which an undocumented record is filed. *)
Definition undocumented_key (record : TrafficRecord) : string :=
  Js.toUpperCase (method record) ++ " " ++ url record.

(** The branch for an undocumented endpoint. *)
Definition record_undocumented (record : TrafficRecord) (a : Analysis) : Analysis :=
  let pathKey := undocumented_key record in
  mkAnalysis
    (testedPaths a)
    (testedMethodsWithStatus a)
    (map_modify pathKey (set_add (status record))
       (map_ensure pathKey [] (undocumentedEndpoints a))).

(** One iteration of [for (const record of traffic)].  The test
    [if (normalizedPath)] also sends the empty string to the second
    branch.  [None]: the matcher met an unsupported template. *)
Definition analyze_record (schemaPaths : Paths) (a : Analysis)
    (record : TrafficRecord) : option Analysis :=
  match normalizePathForSchema (url record) schemaPaths with
  | Unsupported => None
  | Matched normalizedPath =>
      if String.eqb normalizedPath EmptyString
      then Some (record_undocumented record a)
      else Some (record_documented normalizedPath record a)
  | NoMatch => Some (record_undocumented record a)
  end.

Fixpoint analyze (schemaPaths : Paths) (a : Analysis)
    (traffic : list TrafficRecord) : option Analysis :=
  match traffic with
  | [] => Some a
  | record :: rest =>
      match analyze_record schemaPaths a record with
      | Some a' => analyze schemaPaths a' rest
      | None => None
      end
  end.

(** *** Totals *)

(** [Object.keys(pathObj).filter((key) => key !== 'parameters')]. *)
Definition methods_of (pathObj : PathItem) : list string :=
  List.filter (fun key => negb (String.eqb key "parameters")) (keys pathObj).

(** [Object.keys(pathObj[method]?.responses || {})]. *)
Definition status_keys (pathObj : PathItem) (method : string) : list string :=
  match obj_get pathObj method with
  | Some responses => responses
  | None => []
  end.

(** [testedMethodsWithStatus.get(pathKey)?.get(method) || new Set()]. *)
Definition tested_statuses (a : Analysis) (pathKey method : string) : list Z :=
  match obj_get (testedMethodsWithStatus a) pathKey with
  | Some methodMap =>
      match obj_get methodMap method with
      | Some statuses => statuses
      | None => []
      end
  | None => []
  end.

Definition totalPaths (schemaPaths : Paths) : nat := length (keys schemaPaths).

Definition count_total_item (pathObj : PathItem) : nat :=
  fold_left (fun n method => (n + length (status_keys pathObj method))%nat)
    (methods_of pathObj) 0%nat.

Definition totalMethodStatusCombos (schemaPaths : Paths) : nat :=
  fold_left (fun n entry => (n + count_total_item (snd entry))%nat) schemaPaths 0%nat.

Definition count_tested_item (a : Analysis) (pathKey : string)
    (pathObj : PathItem) : nat :=
  fold_left
    (fun n method =>
       (n + length (List.filter
                      (fun status =>
                         set_has_number (Js.Number status)
                           (tested_statuses a pathKey method))
                      (status_keys pathObj method)))%nat)
    (methods_of pathObj) 0%nat.

Definition testedMethodStatusCombos (a : Analysis) (schemaPaths : Paths) : nat :=
  fold_left
    (fun n entry => (n + count_tested_item a (fst entry) (snd entry))%nat)
    schemaPaths 0%nat.

(** *** Missing coverage *)

(** [Object.keys(paths).filter((path) => !testedPaths.has(path))]. *)
Definition untestedPaths (a : Analysis) (schemaPaths : Paths) : list string :=
  List.filter (fun path => negb (set_has_string path (testedPaths a))) (keys schemaPaths).

(** [Object.keys(responses).map(Number)]. *)
Definition expected_statuses (pathObj : PathItem) (method : string)
  : list Js.number :=
  map Js.Number (status_keys pathObj method).

Definition missing_statuses (a : Analysis) (pathKey : string)
    (pathObj : PathItem) (method : string) : list Js.number :=
  List.filter (fun st => negb (set_has_number st (tested_statuses a pathKey method)))
    (expected_statuses pathObj method).

(** The inner loop with its [break]: some method has an expected status
    that was not seen. *)
Definition hasUntestedCombos (a : Analysis) (pathKey : string)
    (pathObj : PathItem) : bool :=
  existsb
    (fun method =>
       existsb
         (fun st => negb (set_has_number st (tested_statuses a pathKey method)))
         (expected_statuses pathObj method))
    (methods_of pathObj).

Definition partiallyTestedPaths (a : Analysis) (schemaPaths : Paths) : list string :=
  keys
    (List.filter
       (fun entry =>
          set_has_string (fst entry) (testedPaths a)
          && hasUntestedCombos a (fst entry) (snd entry))
       schemaPaths).

(** [paths[path]] where an object is expected. *)
Definition path_item (schemaPaths : Paths) (path : string) : PathItem :=
  match obj_get schemaPaths path with
  | Some pathObj => pathObj
  | None => []
  end.

(** *** The traffic loop over the answers of the matcher

    The loop of [generateReport] with the call
    [this.normalizePathForSchema(record.url, paths)] as a parameter: its
    result is a path, or [None] for [null]. *)

(** A result that the test [if (normalizedPath)] rejects: [null], or
    the empty path. *)
Definition falsy (normalizedPath : option string) : bool :=
  match normalizedPath with
  | Some p => String.eqb p EmptyString
  | None => true
  end.

(** One iteration, [normalizedPath] being what the matcher returned. *)
Definition file_record (normalizedPath : option string)
    (record : TrafficRecord) (a : Analysis) : Analysis :=
  match normalizedPath with
  | Some p =>
      if String.eqb p EmptyString then record_undocumented record a
      else record_documented p record a
  | None => record_undocumented record a
  end.

(** [for (const record of traffic)], [normalize] giving the result of
    the matcher for each URL. *)
Fixpoint analyze_with (normalize : string -> option string) (a : Analysis)
    (traffic : list TrafficRecord) : Analysis :=
  match traffic with
  | [] => a
  | record :: rest =>
      analyze_with normalize (file_record (normalize (url record)) record a) rest
  end.

(** What the matcher returns, where the model says it. *)
Definition returned (o : Outcome) : option string :=
  match o with
  | Matched p => Some p
  | _ => None
  end.

Definition matcher_of (schemaPaths : Paths) (url : string) : option string :=
  returned (normalizePathForSchema url schemaPaths).

(** *** Notions used to state properties of the traffic loop *)

(** The branch of the traffic loop that a record takes. *)
Definition is_undocumented (schemaPaths : Paths) (record : TrafficRecord) : bool :=
  match normalizePathForSchema (url record) schemaPaths with
  | NoMatch => true
  | Matched normalizedPath => String.eqb normalizedPath EmptyString
  | Unsupported => false
  end.

(** The status codes filed under a key of [undocumentedEndpoints]. *)
Definition statuses_of (a : Analysis) (key : string) : list Z :=
  match obj_get (undocumentedEndpoints a) key with
  | Some statuses => statuses
  | None => []
  end.

(** The key as the specification words it: the method in upper case and
    the URL cut at its query component. *)
Definition spec_undocumented_key (record : TrafficRecord) : string :=
  Js.toUpperCase (method record) ++ " " ++ Js.first (Js.split "?" (url record)).

End Report.

(** *** Rendering *)

Module Render.

Import PathMatcher Report.
Local Open Scope string_scope.

Definition concat_map {A : Type} (f : A -> string) (l : list A) : string :=
  fold_right (fun x acc => f x ++ acc) EmptyString l.

(** [numbers.join(', ')]. *)
Definition join_numbers (l : list Js.number) : string :=
  Js.join ", " (map Js.number_to_string l).

(** [Array.from(statusCodes).sort().join(', ')]. *)
Definition sorted_statuses (statuses : list Z) : string :=
  Js.join ", " (map Js.Z_to_string (Js.sort statuses)).

Definition percent (tested total : nat) : string :=
  Js.number_to_string (Js.round_percent tested total) ++ "%".

Definition title : string := "# OpenAPI Traffic Audit Report" ++ nl ++ nl.

Definition generated_line (now : string) : string :=
  "**Generated:** " ++ now ++ nl ++ nl.

Definition paths_tested_line (a : Analysis) (schemaPaths : Paths) : string :=
  "- **Paths Tested:** " ++ Js.nat_to_string (length (testedPaths a)) ++ "/"
  ++ Js.nat_to_string (totalPaths schemaPaths)
  ++ " (" ++ percent (length (testedPaths a)) (totalPaths schemaPaths) ++ ")" ++ nl.

Definition combos_tested_line (a : Analysis) (schemaPaths : Paths) : string :=
  "- **Method/Status Combinations Tested:** "
  ++ Js.nat_to_string (testedMethodStatusCombos a schemaPaths) ++ "/"
  ++ Js.nat_to_string (totalMethodStatusCombos schemaPaths)
  ++ " (" ++ percent (testedMethodStatusCombos a schemaPaths)
                     (totalMethodStatusCombos schemaPaths) ++ ")" ++ nl.

Definition summary_section (a : Analysis) (schemaPaths : Paths)
    (requests : nat) : string :=
  "## Coverage Summary" ++ nl ++ nl
  ++ paths_tested_line a schemaPaths
  ++ combos_tested_line a schemaPaths
  ++ "- **Total Requests:** " ++ Js.nat_to_string requests ++ nl
  ++ (if (0 <? length (undocumentedEndpoints a))%nat
      then "- **Undocumented Endpoints Found:** "
           ++ Js.nat_to_string (length (undocumentedEndpoints a)) ++ nl
      else EmptyString)
  ++ nl.

Definition undocumented_heading : string :=
  "## 🚨 Undocumented Endpoints" ++ nl ++ nl.

Definition undocumented_entry (entry : string * list Z) : string :=
  "### `" ++ fst entry ++ "`" ++ nl
  ++ "- Status codes: " ++ sorted_statuses (snd entry) ++ nl ++ nl.

Definition undocumented_section (a : Analysis) : string :=
  if (0 <? length (undocumentedEndpoints a))%nat
  then undocumented_heading
       ++ "*These endpoints were found in traffic but are not documented in the OpenAPI schema:*"
       ++ nl ++ nl
       ++ concat_map undocumented_entry (undocumentedEndpoints a)
  else EmptyString.

Definition tested_heading : string := "## ✅ Tested Endpoints" ++ nl ++ nl.

Definition tested_method_line (entry : string * list Z) : string :=
  "- **" ++ Js.toUpperCase (fst entry) ++ "**: " ++ sorted_statuses (snd entry) ++ nl.

Definition tested_entry (entry : string * list (string * list Z)) : string :=
  "### `" ++ fst entry ++ "`" ++ nl
  ++ concat_map tested_method_line (snd entry) ++ nl.

Definition tested_section (a : Analysis) : string :=
  tested_heading ++ concat_map tested_entry (testedMethodsWithStatus a).

Definition missing_heading : string := "## ❌ Missing Coverage" ++ nl ++ nl.

Definition untested_heading : string :=
  "### Completely Untested Endpoints" ++ nl ++ nl.

Definition untested_method_line (pathObj : PathItem) (method : string) : string :=
  "- **" ++ Js.toUpperCase method ++ "**: "
  ++ Js.join ", " (status_keys pathObj method) ++ nl.

Definition untested_entry (schemaPaths : Paths) (path : string) : string :=
  "#### `" ++ path ++ "`" ++ nl
  ++ concat_map (untested_method_line (path_item schemaPaths path))
       (methods_of (path_item schemaPaths path))
  ++ nl.

Definition untested_subsection (a : Analysis) (schemaPaths : Paths) : string :=
  if (0 <? length (untestedPaths a schemaPaths))%nat
  then untested_heading
       ++ concat_map (untested_entry schemaPaths) (untestedPaths a schemaPaths)
  else EmptyString.

Definition partial_heading : string :=
  "### Missing Status Code Coverage" ++ nl ++ nl.

Definition partial_method_line (a : Analysis) (path : string)
    (pathObj : PathItem) (method : string) : string :=
  let missingStatuses := missing_statuses a path pathObj method in
  if (0 <? length missingStatuses)%nat
  then "- **" ++ Js.toUpperCase method ++ "**: Missing "
       ++ join_numbers missingStatuses ++ nl
  else EmptyString.

Definition partial_entry (a : Analysis) (schemaPaths : Paths) (path : string)
  : string :=
  "#### `" ++ path ++ "`" ++ nl
  ++ concat_map (partial_method_line a path (path_item schemaPaths path))
       (methods_of (path_item schemaPaths path))
  ++ nl.

Definition partial_subsection (a : Analysis) (schemaPaths : Paths) : string :=
  if (0 <? length (partiallyTestedPaths a schemaPaths))%nat
  then partial_heading
       ++ concat_map (partial_entry a schemaPaths) (partiallyTestedPaths a schemaPaths)
  else EmptyString.

Definition missing_section (a : Analysis) (schemaPaths : Paths) : string :=
  if (0 <? length (untestedPaths a schemaPaths))%nat
     || (0 <? length (partiallyTestedPaths a schemaPaths))%nat
  then missing_heading
       ++ untested_subsection a schemaPaths
       ++ partial_subsection a schemaPaths
  else EmptyString.

(** The document assembled from an analysis, in the order in which the
    source appends to [report]. *)
Definition render (now : string) (schemaPaths : Paths) (a : Analysis)
    (requests : nat) : string :=
  title
  ++ generated_line now
  ++ summary_section a schemaPaths requests
  ++ undocumented_section a
  ++ tested_section a
  ++ missing_section a schemaPaths.

(** [generateReport(schema, traffic)]; [now] is the value of
    [new Date().toISOString()].  [None] only when the matcher met a case
    that the model does not interpret. *)
Definition generateReport (now : string) (schema : Schema)
    (traffic : list TrafficRecord) : option string :=
  let schemaPaths := paths_or_empty schema in
  match analyze schemaPaths empty_analysis traffic with
  | Some a => Some (render now schemaPaths a (length traffic))
  | None => None
  end.

(** [generateReport(schema, traffic)] with the results of the matcher
    given by [normalize]. *)
Definition generateReport_with (normalize : string -> option string)
    (now : string) (schema : Schema) (traffic : list TrafficRecord) : string :=
  render now (paths_or_empty schema)
    (analyze_with normalize empty_analysis traffic) (length traffic).

(** [generateEmptyReport()]. *)
Definition generateEmptyReport (now : string) : string :=
  "# OpenAPI Traffic Audit Report" ++ nl ++ nl
  ++ "**Generated:** " ++ now ++ nl ++ nl
  ++ "⚠️ No traffic data found. Make sure integration tests are running with traffic recording enabled."
  ++ nl.

End Render.

(** ** The auditor object, its recorder hooks and its artifacts *)

Module Auditor.

Import Report.
Local Open Scope string_scope.

(** A thrown value: the message of the error. *)
Definition Error := string.

(** How a call ends.  [Unmodelled] marks a run that left the fragment of
    the host language represented here (an unsupported path template, a
    reference that points nowhere); a [catch] does not intercept it. *)
Inductive Completion (A : Type) :=
| Normal (a : A)
| Throw (e : Error)
| Unmodelled.
Arguments Normal {A} a.
Arguments Throw {A} e.
Arguments Unmodelled {A}.

Inductive LogLine :=
| Log (msg : string)
| LogError (msg : string) (e : Error).

(** The object built in the [onRequest] hook and completed in [onSend]:
    [status] and [response] are absent until the response is final. *)
Record Partial := mkPartial {
  p_method : string;
  p_url : string;
  p_request : JsValue;
  p_status : option Z;
  p_response : option JsValue
}.

(** The result of [JSON.parse] on the schema file, as far as
    [generateReport] distinguishes: [null], on which reading [.paths]
    raises, or a document. *)
Inductive SchemaDocument :=
| DocNull
| DocSchema (schema : Schema).

Section Port.

(** State of the storage behind the file port. *)
Context {W : Type}.

(** [FileOperations]: each operation acts on the storage and either
    returns or throws (a rejected promise throws at its [await]). *)
Record FileOperations := mkFileOperations {
  readFile : string -> W -> Completion string * W;
  writeFile : string -> string -> W -> Completion unit * W;
  mkdir : string -> bool -> W -> Completion unit * W;
  glob : string -> W -> Completion (list string) * W;
  removeFile : option (string -> W -> Completion unit * W)
}.

Record AuditorOptions := mkAuditorOptions {
  schemaPath : string;
  trafficDir : string;
  reportPath : string;
  fileOps : FileOperations
}.

(** The process: the storage, the console, the arrays and objects of
    the heap, the field [this.traffic] (a reference to an array) and the
    property [__traffic] of each request object. *)
Record State := mkState {
  files : W;
  console : list LogLine;
  arrays : gmap nat (list nat);
  objects : gmap nat Partial;
  traffic : nat;
  request_traffic : gmap nat nat
}.

Definition set_files (w : W) (s : State) : State :=
  mkState w (console s) (arrays s) (objects s) (traffic s) (request_traffic s).
Definition set_console (c : list LogLine) (s : State) : State :=
  mkState (files s) c (arrays s) (objects s) (traffic s) (request_traffic s).
Definition set_arrays (a : gmap nat (list nat)) (s : State) : State :=
  mkState (files s) (console s) a (objects s) (traffic s) (request_traffic s).
Definition set_objects (o : gmap nat Partial) (s : State) : State :=
  mkState (files s) (console s) (arrays s) o (traffic s) (request_traffic s).
Definition set_traffic (r : nat) (s : State) : State :=
  mkState (files s) (console s) (arrays s) (objects s) r (request_traffic s).
Definition set_request_traffic (m : gmap nat nat) (s : State) : State :=
  mkState (files s) (console s) (arrays s) (objects s) (traffic s) m.

(** *** Computations *)

Definition M (A : Type) : Type := State -> Completion A * State.

Definition ret {A : Type} (a : A) : M A := fun s => (Normal a, s).

Definition bind {A B : Type} (m : M A) (f : A -> M B) : M B :=
  fun s =>
    match m s with
    | (Normal a, s') => f a s'
    | (Throw e, s') => (Throw e, s')
    | (Unmodelled, s') => (Unmodelled, s')
    end.

(** Reading the fields of [this]. *)
Definition get_state : M State := fun s => (Normal s, s).

Definition throw {A : Type} (e : Error) : M A := fun s => (Throw e, s).

Definition unmodelled {A : Type} : M A := fun s => (Unmodelled, s).

(** [try { body } catch (error) { handler }]. *)
Definition try_catch {A : Type} (body : M A) (handler : Error -> M A) : M A :=
  fun s =>
    match body s with
    | (Throw e, s') => handler e s'
    | other => other
    end.

Notation "x <- m ;; k" := (bind m (fun x => k))
  (at level 100, m at level 99, k at level 200, right associativity).
Notation "m ;;; k" := (bind m (fun _ => k))
  (at level 100, k at level 200, right associativity).

(** A call through the file port. *)
Definition port {A : Type} (op : W -> Completion A * W) : M A :=
  fun s => let (r, w) := op (files s) in (r, set_files w s).

Definition console_log (msg : string) : M unit :=
  fun s => (Normal tt, set_console (console s ++ [Log msg])%list s).

Definition console_error (msg : string) (e : Error) : M unit :=
  fun s => (Normal tt, set_console (console s ++ [LogError msg e])%list s).

(** [for (const x of l) { body }]. *)
Fixpoint for_each {A : Type} (l : list A) (body : A -> M unit) : M unit :=
  match l with
  | [] => ret tt
  | x :: l' => body x ;;; for_each l' body
  end.

(** *** The heap *)

(** [[]]: a new array. *)
Definition new_array (elements : list nat) : M nat :=
  fun s =>
    let r := fresh (dom (arrays s)) in
    (Normal r, set_arrays (<[r := elements]> (arrays s)) s).

(** An object literal. *)
Definition new_object (o : Partial) : M nat :=
  fun s =>
    let r := fresh (dom (objects s)) in
    (Normal r, set_objects (<[r := o]> (objects s)) s).

Definition read_array (r : nat) : M (list nat) :=
  fun s =>
    match arrays s !! r with
    | Some l => (Normal l, s)
    | None => (Unmodelled, s)
    end.

(** A method that changes the array [r] in place, [f] giving its new
    contents from the old ones. *)
Definition array_mutate (r : nat) (f : list nat -> list nat) : M unit :=
  l <- read_array r ;;
  fun s => (Normal tt, set_arrays (<[r := f l]> (arrays s)) s).

(** [array.push(x)]. *)
Definition array_push (r x : nat) : M unit :=
  array_mutate r (fun l => (l ++ [x])%list).

(** [array.pop()], its result dropped. *)
Definition array_pop (r : nat) : M unit :=
  array_mutate r (fun l => removelast l).

(** [this.traffic.push(x)]. *)
Definition traffic_push (x : nat) : M unit :=
  fun s => array_push (traffic s) x s.

Definition read_object (r : nat) : M Partial :=
  fun s =>
    match objects s !! r with
    | Some o => (Normal o, s)
    | None => (Unmodelled, s)
    end.

Definition write_object (r : nat) (o : Partial) : M unit :=
  fun s => (Normal tt, set_objects (<[r := o]> (objects s)) s).

(** The records an array of references denotes. *)
Fixpoint read_objects (refs : list nat) : M (list Partial) :=
  match refs with
  | [] => ret []
  | r :: refs' =>
      o <- read_object r ;;
      os <- read_objects refs' ;;
      ret (o :: os)
  end.

(** The contents of [this.traffic], element by element. *)
Definition this_traffic : M (list Partial) :=
  s0 <- get_state ;;
  refs <- read_array (traffic s0) ;;
  read_objects refs.

(** *** Built-ins taken as given *)

Variable JSON_parse : string -> option JsValue.
Variable JSON_stringify : list Partial -> string.
Variable JSON_parse_traffic : string -> option (list TrafficRecord).
Variable JSON_parse_schema : string -> option SchemaDocument.
(** [new Date().toISOString()]. *)
Variable now : string.

Variable options : AuditorOptions.

(** *** The recorder *)

(** [parseResponsePayload(payload)]. *)
Definition parseResponsePayload (payload : JsValue) : JsValue :=
  match payload with
  | VString text =>
      match JSON_parse text with
      | Some v => v
      | None => payload
      end
  | _ => payload
  end.

(** The [onRequest] hook. *)
Definition onRequest (rq : nat) (method url : string) : M unit :=
  o <- new_object (mkPartial method url VUndefined None None) ;;
  fun s => (Normal tt, set_request_traffic (<[rq := o]> (request_traffic s)) s).

(** The [preHandler] hook. *)
Definition preHandler (rq : nat) (body : JsValue) : M unit :=
  fun s =>
    match request_traffic s !! rq with
    | Some r =>
        (o <- read_object r ;;
         write_object r
           (mkPartial (p_method o) (p_url o) body (p_status o) (p_response o))) s
    | None => (Normal tt, s)
    end.

(** The [onSend] hook. *)
Definition onSend (rq : nat) (statusCode : Z) (payload : JsValue) : M unit :=
  fun s =>
    match request_traffic s !! rq with
    | None => (Normal tt, s)
    | Some partial =>
        (o <- read_object partial ;;
         write_object partial
           (mkPartial (p_method o) (p_url o) (p_request o)
              (Some statusCode) (p_response o)) ;;;
         o' <- read_object partial ;;
         write_object partial
           (mkPartial (p_method o') (p_url o') (p_request o')
              (p_status o') (Some (parseResponsePayload payload))) ;;;
         traffic_push partial) s
    end.

(** [this.traffic = []]. *)
Definition reset_traffic : M unit :=
  r <- new_array [] ;;
  fun s => (Normal tt, set_traffic r s).

(** [registerPlugin(fastify)]: the log starts afresh; the three hooks
    above are the ones it installs.  The decoration of the server instance
    with the same array is not represented: the auditor never reads it. *)
Definition registerPlugin : M unit := reset_traffic.

(** A firing of one of the installed hooks by the server. *)
Inductive HookEvent :=
| OnRequest (rq : nat) (method url : string)
| PreHandler (rq : nat) (body : JsValue)
| OnSend (rq : nat) (statusCode : Z) (payload : JsValue).

Definition fire (ev : HookEvent) : M unit :=
  match ev with
  | OnRequest rq method url => onRequest rq method url
  | PreHandler rq body => preHandler rq body
  | OnSend rq statusCode payload => onSend rq statusCode payload
  end.

(** *** The recorder without the heap

    The same three hooks with the drafts numbered in the order in which
    [onRequest] builds them: [rec_drafts] holds the drafts, [rec_current]
    the number of the draft that each request object carries in
    [__traffic], and [rec_pushed] the numbers pushed to the log. *)
Record Recorded := mkRecorded {
  rec_drafts : list Partial;
  rec_current : gmap nat nat;
  rec_pushed : list nat
}.

(** [partial.request = body]. *)
Definition with_body (body : JsValue) (o : Partial) : Partial :=
  mkPartial (p_method o) (p_url o) body (p_status o) (p_response o).

(** [partial.status = statusCode; partial.response = response]. *)
Definition with_reply (statusCode : Z) (response : JsValue) (o : Partial)
  : Partial :=
  mkPartial (p_method o) (p_url o) (p_request o) (Some statusCode) (Some response).

Definition record_event (s : Recorded) (ev : HookEvent) : Recorded :=
  match ev with
  | OnRequest rq method url =>
      mkRecorded
        (rec_drafts s ++ [mkPartial method url VUndefined None None])%list
        (<[rq := length (rec_drafts s)]> (rec_current s))
        (rec_pushed s)
  | PreHandler rq body =>
      match rec_current s !! rq with
      | Some i =>
          mkRecorded (alter (with_body body) i (rec_drafts s))
            (rec_current s) (rec_pushed s)
      | None => s
      end
  | OnSend rq statusCode payload =>
      match rec_current s !! rq with
      | Some i =>
          mkRecorded
            (alter (with_reply statusCode (parseResponsePayload payload)) i
               (rec_drafts s))
            (rec_current s) (rec_pushed s ++ [i])%list
      | None => s
      end
  end.

Definition record_all (events : list HookEvent) : Recorded :=
  fold_left record_event events (mkRecorded [] ∅ []).

(** *** The public interface *)

(** [getTraffic()]: [[...this.traffic]]. *)
Definition getTraffic : M nat :=
  s0 <- get_state ;;
  refs <- read_array (traffic s0) ;;
  new_array refs.

(** [filePath.split('/').slice(0, -1).join('/')]. *)
Definition getDir (filePath : string) : string :=
  Js.join "/" (Js.slice_init (Js.split "/" filePath)).

(** [writeTraffic(testSuiteName)]. *)
Definition writeTraffic (testSuiteName : string) : M unit :=
  try_catch
    (records <- this_traffic ;;
     if (length records =? 0)%nat
     then console_log ("No traffic to write for " ++ testSuiteName)
     else
       port (mkdir (fileOps options) (trafficDir options) true) ;;;
       let trafficPath := trafficDir options ++ "/" ++ testSuiteName ++ ".json" in
       port (writeFile (fileOps options) trafficPath (JSON_stringify records)) ;;;
       console_log ("📊 Traffic written: " ++ trafficPath ++ " ("
                    ++ Js.nat_to_string (length records) ++ " requests)") ;;;
       reset_traffic)
    (fun error =>
       console_error ("Failed to write traffic for " ++ testSuiteName ++ ":") error).

(** [safeGlob(pattern)]. *)
Definition safeGlob (pattern : string) : M (list string) :=
  try_catch (port (glob (fileOps options) pattern)) (fun _ => ret []).

(** [clearGeneratedDirectory()]. *)
Definition clearGeneratedDirectory : M unit :=
  try_catch
    (let generatedDir := getDir (schemaPath options) in
     schemaFiles <- safeGlob (generatedDir ++ "/*.json") ;;
     trafficFiles <- safeGlob (trafficDir options ++ "/*.json") ;;
     reportFiles <- safeGlob (generatedDir ++ "/*.md") ;;
     let allFiles := (schemaFiles ++ trafficFiles ++ reportFiles)%list in
     if (0 <? length allFiles)%nat
     then
       console_log ("🧹 Clearing " ++ Js.nat_to_string (length allFiles)
                    ++ " files from generated directories") ;;;
       match removeFile (fileOps options) with
       | Some remove => for_each allFiles (fun file => port (remove file))
       | None => ret tt
       end
     else ret tt)
    (fun _ => ret tt).

(** [JSON.parse], throwing on text that does not parse. *)
Definition parse_or_throw {A : Type} (parse : string -> option A)
    (text : string) : M A :=
  match parse text with
  | Some v => ret v
  | None => throw "SyntaxError"
  end.

(** The loop that loads every traffic file. *)
Fixpoint load_traffic (trafficFiles : list string)
    (allTraffic : list TrafficRecord) : M (list TrafficRecord) :=
  match trafficFiles with
  | [] => ret allTraffic
  | file :: rest =>
      content <- port (readFile (fileOps options) file) ;;
      records <- parse_or_throw JSON_parse_traffic content ;;
      load_traffic rest (allTraffic ++ records)%list
  end.

(** [generateReport(schema, traffic)] on the parsed schema file. *)
Definition generateReport (doc : SchemaDocument)
    (allTraffic : list TrafficRecord) : M string :=
  match doc with
  | DocNull => throw "TypeError"
  | DocSchema schema =>
      match Render.generateReport now schema allTraffic with
      | Some report => ret report
      | None => unmodelled
      end
  end.

(** [generateAuditReport()]. *)
Definition generateAuditReport : M string :=
  schemaContent <- port (readFile (fileOps options) (schemaPath options)) ;;
  schema <- parse_or_throw JSON_parse_schema schemaContent ;;
  trafficFiles <- port (glob (fileOps options) (trafficDir options ++ "/*.json")) ;;
  allTraffic <- load_traffic trafficFiles [] ;;
  if (length allTraffic =? 0)%nat
  then ret (Render.generateEmptyReport now)
  else generateReport schema allTraffic.

(** The first half of the [try] block of [teardown]: the traffic data. *)
Definition teardown_traffic : M unit :=
  records <- this_traffic ;;
  console_log (Js.nat_to_string (length records)) ;;;
  if (0 <? length records)%nat
  then
    port (mkdir (fileOps options) (trafficDir options) true) ;;;
    let trafficPath := trafficDir options ++ "/integration-tests-traffic.json" in
    port (writeFile (fileOps options) trafficPath (JSON_stringify records)) ;;;
    console_log ("📊 Traffic data written: " ++ trafficPath ++ " ("
                 ++ Js.nat_to_string (length records) ++ " requests)")
  else ret tt.

(** The [try] block of [teardown]: the traffic data, then the report. *)
Definition teardown_body : M unit :=
  teardown_traffic ;;;
  report <- generateAuditReport ;;
  port (mkdir (fileOps options) (getDir (reportPath options)) true) ;;;
  port (writeFile (fileOps options) (reportPath options) report) ;;;
  console_log ("✅ OpenAPI audit report generated: " ++ reportPath options).

(** [teardown()]. *)
Definition teardown : M unit :=
  console_log "📊 Global teardown: Starting OpenAPI traffic audit..." ;;;
  try_catch teardown_body
    (fun error => console_error "❌ Failed to generate audit report:" error) ;;;
  console_log "🏁 Global teardown completed".

(** The hooks fired one after the other, as the server does. *)
Definition fire_all (events : list HookEvent) : M unit :=
  for_each events fire.

End Port.

Notation "x <- m ;; k" := (bind m (fun x => k))
  (at level 100, m at level 99, k at level 200, right associativity).
Notation "m ;;; k" := (bind m (fun _ => k))
  (at level 100, k at level 200, right associativity).

(** *** Notions used to state properties of the auditor *)

Definition never_throws {W A : Type} (m : @M W A) : Prop :=
  forall st e, fst (m st) <> Throw e.

Definition is_Log (line : LogLine) : Prop :=
  match line with
  | Log _ => True
  | LogError _ _ => False
  end.

(** A computation that reports no error on the console, whatever
    happens inside it. *)
Definition logs_no_error {W A : Type} (m : @M W A) : Prop :=
  forall st r st',
    m st = (r, st') ->
    exists lines, console st' = (console st ++ lines)%list /\ Forall is_Log lines.

(** The state in which the [try] block of [teardown] starts. *)
Definition teardown_started {W : Type} (st : @State W) : @State W :=
  set_console
    (console st ++ [Log "📊 Global teardown: Starting OpenAPI traffic audit..."])%list
    st.

(** The snapshot file of a suite. *)
Definition snapshot_path (trafficDir testSuiteName : string) : string :=
  trafficDir ++ "/" ++ testSuiteName ++ ".json".

(** Requests whose [onSend] firing finds a draft, in firing order;
    [drafted] lists the requests that have been through [onRequest]. *)
Fixpoint recorded_sends (drafted : list nat) (events : list HookEvent) : list nat :=
  match events with
  | [] => []
  | OnRequest rq _ _ :: rest => recorded_sends (rq :: drafted) rest
  | PreHandler _ _ :: rest => recorded_sends drafted rest
  | OnSend rq _ _ :: rest =>
      if existsb (Nat.eqb rq) drafted
      then rq :: recorded_sends drafted rest
      else recorded_sends drafted rest
  end.

(** A completed record: status and response are present. *)
Definition is_final (o : Partial) : Prop :=
  is_Some (p_status o) /\ is_Some (p_response o).

(** What holds of the recorder between two hook firings: [log0] is the
    log at the start, [appended] what was pushed since, [drafted] the
    requests with a draft and [sent] those whose [onSend] pushed. *)
Record recorder_inv {W : Type} (st : @State W) (log0 appended : list nat)
    (drafted sent : list nat) : Prop := mkRecorderInv {
  inv_log : arrays st !! traffic st = Some (log0 ++ appended)%list;
  inv_drafted : forall rq, In rq drafted <-> is_Some (request_traffic st !! rq);
  inv_allocated : forall rq r,
    request_traffic st !! rq = Some r -> is_Some (objects st !! r);
  inv_injective : forall rq1 rq2 r,
    request_traffic st !! rq1 = Some r -> request_traffic st !! rq2 = Some r ->
    rq1 = rq2;
  inv_final : forall r, In r appended ->
    exists o, objects st !! r = Some o /\ is_final o;
  inv_sent : forall rq r,
    request_traffic st !! rq = Some r -> In r appended -> In rq sent
}.

(** The requests that have been through [onRequest] after [events]. *)
Fixpoint drafted_by (drafted : list nat) (events : list HookEvent) : list nat :=
  match events with
  | [] => drafted
  | OnRequest rq _ _ :: rest => drafted_by (rq :: drafted) rest
  | _ :: rest => drafted_by drafted rest
  end.

(** The heap holds what the recorder without the heap holds: [refs]
    lists the references of the drafts in the order of their numbers. *)
Record simulates {W : Type} (st : @State W) (log0 appended refs : list nat)
    (s : Recorded) : Prop := mkSimulates {
  sim_log : arrays st !! traffic st = Some (log0 ++ appended)%list;
  sim_pushed : Forall2 (fun i r => refs !! i = Some r) (rec_pushed s) appended;
  sim_distinct : NoDup refs;
  sim_length : length refs = length (rec_drafts s);
  sim_objects : forall i r,
    refs !! i = Some r -> objects st !! r = rec_drafts s !! i;
  sim_current : forall rq,
    request_traffic st !! rq = rec_current s !! rq ≫= (fun i => refs !! i);
  sim_bound : forall rq i,
    rec_current s !! rq = Some i -> (i < length refs)%nat
}.

(** A process right after [registerPlugin]: an empty log, no request in
    flight, nothing on the console. *)
Definition quiescent {W : Type} (w : W) : @State W :=
  mkState w [] {[ 0%nat := [] ]} ∅ 0%nat ∅.

End Auditor.

(** ** An in-memory file port

    A stand-in for the synchronous [node:fs] operations that the test
    set-up passes as [fileOps]: a finite map from paths to contents, with
    directories left implicit. *)

Module MemFs.

Import Auditor.

(** A pattern with [*] standing for any run of characters other than the
    path separator. *)
Fixpoint wild_match (pattern path : string) : bool :=
  match pattern with
  | EmptyString => match path with EmptyString => true | _ => false end
  | String c pattern' =>
      if Ascii.eqb c "*"
      then (fix star (path : string) : bool :=
              wild_match pattern' path
              || match path with
                 | EmptyString => false
                 | String a path' => negb (Ascii.eqb a "/") && star path'
                 end) path
      else match path with
           | EmptyString => false
           | String a path' => Ascii.eqb a c && wild_match pattern' path'
           end
  end.

Definition mem_readFile (path : string) (w : gmap string string)
  : Completion string * gmap string string :=
  match w !! path with
  | Some content => (Normal content, w)
  | None => (Throw "ENOENT", w)
  end.

Definition mem_writeFile (path content : string) (w : gmap string string)
  : Completion unit * gmap string string :=
  (Normal tt, <[path := content]> w).

Definition mem_mkdir (path : string) (recursive : bool) (w : gmap string string)
  : Completion unit * gmap string string :=
  (Normal tt, w).

Definition mem_glob (pattern : string) (w : gmap string string)
  : Completion (list string) * gmap string string :=
  (Normal (List.filter (wild_match pattern) (map fst (map_to_list w))), w).

Definition mem_removeFile (path : string) (w : gmap string string)
  : Completion unit * gmap string string :=
  (Normal tt, delete path w).

Definition fileOps : @FileOperations (gmap string string) :=
  mkFileOperations mem_readFile mem_writeFile mem_mkdir mem_glob
    (Some mem_removeFile).

(** An auditor set up on this port. *)
Definition options_at (schemaPath trafficDir reportPath : string)
  : @AuditorOptions (gmap string string) :=
  mkAuditorOptions schemaPath trafficDir reportPath fileOps.

End MemFs.

(** ** A port that refuses

    Listing succeeds; reading, writing, creating and removing are refused. *)

Module DeniedFs.

Import Auditor.

Definition refused {A : Type} (w : unit) : Completion A * unit :=
  (Throw "EACCES", w).

Definition fileOps : @FileOperations unit :=
  mkFileOperations
    (fun _ => refused)
    (fun _ _ => refused)
    (fun _ _ => refused)
    (fun pattern w => (Normal [pattern], w))
    (Some (fun _ => refused)).

End DeniedFs.

(** ** A port with one locked path

    The in-memory port, except that writing to [locked] is refused. *)

Module LockedFs.

Import Auditor.

Definition locked_writeFile (locked path content : string)
    (w : gmap string string) : Completion unit * gmap string string :=
  if String.eqb path locked
  then (Throw "EACCES", w)
  else MemFs.mem_writeFile path content w.

Definition fileOps (locked : string) : @FileOperations (gmap string string) :=
  mkFileOperations MemFs.mem_readFile (locked_writeFile locked) MemFs.mem_mkdir
    MemFs.mem_glob (Some MemFs.mem_removeFile).

End LockedFs.

(** ** Concrete inputs used in examples *)

Module Examples.

Import Auditor.

(** The set-up of the user service. *)
Definition options {W : Type} (ops : @FileOperations W) : @AuditorOptions W :=
  mkAuditorOptions "./generated/openapi-schema.json" "./generated/traffic"
    "./generated/audit-report.md" ops.

(** A schema with one parameterised path. *)
Definition items : Paths :=
  [("/items", [("get", ["200"]); ("post", ["201"; "400"])]);
   ("/items/{id}", [("parameters", []); ("get", ["200"; "404"])])].

Definition demo : TrafficRecord :=
  mkTrafficRecord "POST" "/demo" 200 VUndefined VUndefined.

Definition demo_query : TrafficRecord :=
  mkTrafficRecord "POST" "/demo?x=1" 200 VUndefined VUndefined.

Definition get_item : TrafficRecord :=
  mkTrafficRecord "GET" "/items/42?verbose=1" 200 VUndefined VNull.

(** Stand-ins for [JSON.stringify] and [JSON.parse] on the few texts the
    examples go through. *)
Definition count_records (records : list Partial) : string :=
  Js.nat_to_string (length records).

(** A serialiser that shows which records it was given. *)
Definition list_records (records : list Partial) : string :=
  Js.join "," (map (fun o => (p_method o ++ " " ++ p_url o)%string) records).

Definition parse_nothing {A : Type} (text : string) : option A := None.

Definition parse_empty_schema (text : string) : option SchemaDocument :=
  Some (DocSchema (mkSchema None)).

Definition parse_no_traffic (text : string) : option (list TrafficRecord) :=
  Some [].

(** A heap with two completed records and an empty log. *)
Definition first_record : Partial :=
  mkPartial "GET" "/items" VUndefined (Some 200%Z) (Some VNull).

Definition second_record : Partial :=
  mkPartial "POST" "/items" VNull (Some 201%Z) (Some VNull).

Definition two_records : @State (gmap string string) :=
  mkState ∅ [] {[ 0%nat := [] ]}
    (<[ 1%nat := second_record ]> {[ 0%nat := first_record ]}) 0%nat ∅.

(** The same heap with both records in the log. *)
Definition two_logged : @State (gmap string string) :=
  mkState ∅ [] {[ 0%nat := [0%nat; 1%nat] ]}
    (<[ 1%nat := second_record ]> {[ 0%nat := first_record ]}) 0%nat ∅.

(** One exchange, from arrival to the response being sent. *)
Definition one_exchange : list (@HookEvent) :=
  [OnRequest 1 "GET" "/items"; PreHandler 1 VUndefined;
   OnSend 1 200 (VString "[]")].

(** One exchange whose [onSend] hook fires twice. *)
Definition sent_twice : list (@HookEvent) :=
  [OnRequest 1 "GET" "/items"; OnSend 1 200 VNull; OnSend 1 200 VNull].

(** A storage that holds a schema file and no traffic file. *)
Definition schema_only : @State (gmap string string) :=
  mkState {[ "./generated/openapi-schema.json" := "{}" ]} []
    {[ 0%nat := [] ]} ∅ 0%nat ∅.

End Examples.

(** ** Further notions on texts *)

Module Text.

(** [s] holds no occurrence of [c]. *)
Fixpoint lacks (c : ascii) (s : string) : bool :=
  match s with
  | EmptyString => true
  | String a s' => negb (Ascii.eqb a c) && lacks c s'
  end.

(** [s.endsWith(suffix)]. *)
Fixpoint endsWith (suffix s : string) : bool :=
  String.eqb s suffix
  || match s with
     | EmptyString => false
     | String _ s' => endsWith suffix s'
     end.

(** [s.lastIndexOf(c)], [-1] when [c] does not occur. *)
Fixpoint lastIndexOf_from (c : ascii) (i : Z) (found : Z) (s : string) : Z :=
  match s with
  | EmptyString => found
  | String a s' =>
      lastIndexOf_from c (i + 1) (if Ascii.eqb a c then i else found) s'
  end.

Definition lastIndexOf (c : ascii) (s : string) : Z := lastIndexOf_from c 0 (-1) s.

(** [s.substring(from, to)] for [0 <= from <= to]. *)
Definition substring (from to : Z) (s : string) : string :=
  String.substring (Z.to_nat from) (Z.to_nat (to - from)) s.

(** [s.substring(from)]. *)
Definition substring_from (from : Z) (s : string) : string :=
  String.substring (Z.to_nat from) (String.length s - Z.to_nat from) s.

(** [s.replace('*', '')]: the first star is dropped. *)
Fixpoint drop_first_star (s : string) : string :=
  match s with
  | EmptyString => EmptyString
  | String a s' => if Ascii.eqb a "*" then s' else String a (drop_first_star s')
  end.

End Text.

(** ** What a record counts for *)

Module Coverage.

(** The record [record] is one that [generateReport] counts for the status
    [z] of the method key [m] of the declared path [p]. *)
Definition documented_as (schemaPaths : Paths) (p m : string) (z : Z)
    (record : TrafficRecord) : Prop :=
  PathMatcher.normalizePathForSchema (url record) schemaPaths
  = PathMatcher.Matched p
  /\ p <> EmptyString
  /\ Js.toLowerCase (method record) = m
  /\ status record = z.

End Coverage.

(** ** [setup] *)

Module Setup.

Import Auditor.
Local Open Scope string_scope.

Section App.

Context {W : Type}.

(** The server instance that [createApp] resolves to, as far as [setup]
    uses it: [ready()], [swagger()] and [close()]. *)
Record App := mkApp {
  ready : @M W unit;
  swagger : @M W Schema;
  close : @M W unit
}.

(** [JSON.stringify(schema, null, 2)]. *)
Variable JSON_stringify_schema : Schema -> string.

Variable options : @AuditorOptions W.

(** [setup(createApp)].  The function it returns is [teardown]. *)
Definition setup (createApp : @M W App) : @M W unit :=
  clearGeneratedDirectory options ;;;
  app <- createApp ;;
  ready app ;;;
  schema <- swagger app ;;
  port (mkdir (fileOps options) (getDir (schemaPath options)) true) ;;;
  port (writeFile (fileOps options) (schemaPath options)
          (JSON_stringify_schema schema)) ;;;
  close app ;;;
  console_log ("✅ OpenAPI schema generated at: " ++ schemaPath options).

End App.

(** A step of the server that returns [a] and leaves the storage alone. *)
Definition app_step {W A : Type} (m : @M W A) (a : A) : Prop :=
  forall st, exists st', m st = (Normal a, st') /\ files st' = files st.

(** The three patterns that [clearGeneratedDirectory] lists. *)
Definition cleared {W : Type} (options : @AuditorOptions W) (path : string) : bool :=
  MemFs.wild_match (getDir (schemaPath options) ++ "/*.json") path
  || MemFs.wild_match (trafficDir options ++ "/*.json") path
  || MemFs.wild_match (getDir (schemaPath options) ++ "/*.md") path.

End Setup.

(** ** Notions used to state what a computation leaves alone *)

Module Frame.

Import Auditor.

(** The heap and the fields of the auditor are as before. *)
Definition keeps_heap {W A : Type} (m : @M W A) : Prop :=
  forall st r st',
    m st = (r, st') ->
    arrays st' = arrays st /\ objects st' = objects st
    /\ traffic st' = traffic st /\ request_traffic st' = request_traffic st.

(** On the in-memory storage, only the files in [allowed] may differ. *)
Definition writes_within {A : Type} (allowed : string -> Prop)
    (m : @M (gmap string string) A) : Prop :=
  forall st r st',
    m st = (r, st') ->
    forall path, ~ allowed path -> files st' !! path = files st !! path.

(** On the in-memory storage, no file differs. *)
Definition keeps_files {A : Type} (m : @M (gmap string string) A) : Prop :=
  forall st r st', m st = (r, st') -> files st' = files st.

(** The file [file] holds text that parses to [records]. *)
Definition holds_records (parse : string -> option (list TrafficRecord))
    (w : gmap string string) (file : string) (records : list TrafficRecord)
  : Prop :=
  exists content, w !! file = Some content /\ parse content = Some records.

(** The snapshot that [teardown] writes. *)
Definition teardown_snapshot (trafficDir : string) : string :=
  (trafficDir ++ "/integration-tests-traffic.json")%string.

End Frame.

(** ** The file port of the integration tests

    [src/testing/auditor.ts] builds its port on the synchronous file
    functions of the runtime.  [readdirSync] gives the entries of a
    directory, or [None] where it throws; [join] is the path join of the
    runtime. *)

Module TestPort.

Import Text.
Local Open Scope string_scope.

Section Node.

Variable readdirSync : string -> option (list string).
Variable join : string -> string -> string.

(** [fileOps.glob(pattern)]. *)
Definition glob (pattern : string) : list string :=
  let lastSlash := lastIndexOf "/" pattern in
  let dir := if (0 <? lastSlash)%Z then substring 0 lastSlash pattern else "." in
  let filePattern := substring_from (lastSlash + 1) pattern in
  match readdirSync dir with
  | Some files =>
      if String.eqb filePattern "*.json"
      then map (join dir) (List.filter (endsWith ".json") files)
      else if String.eqb filePattern "*.md"
      then map (join dir) (List.filter (endsWith ".md") files)
      else
        let ext := drop_first_star filePattern in
        map (join dir) (List.filter (endsWith ext) files)
  | None => []
  end.

End Node.

End TestPort.

(** ** Further example values *)

Module Cases.

Import Auditor.
Local Open Scope string_scope.

(** A template with an unescaped dot. *)
Definition dotted : Paths := [("/v1.0/items", [("get", ["200"])])].

(** A method that declares a response under a key that is no number. *)
Definition with_default : Paths :=
  [("/items", [("get", ["200"; "default"])])].

Definition get_items : TrafficRecord :=
  mkTrafficRecord "GET" "/items" 200 VUndefined VNull.

(** What the loop of [generateReport] collects from one record. *)
Definition analysis_of (schemaPaths : Paths) (traffic : list TrafficRecord)
  : Report.Analysis :=
  match Report.analyze schemaPaths Report.empty_analysis traffic with
  | Some a => a
  | None => Report.empty_analysis
  end.

(** A parser that reads every traffic file as the one record above. *)
Definition parse_one_record (text : string) : option (list TrafficRecord) :=
  Some [get_items].

(** A storage with a schema file and two records in the log. *)
Definition logged_with_schema : @State (gmap string string) :=
  mkState {[ "./generated/openapi-schema.json" := "{}" ]} []
    {[ 0%nat := [0%nat; 1%nat] ]}
    (<[ 1%nat := Examples.second_record ]> {[ 0%nat := Examples.first_record ]})
    0%nat ∅.

(** A storage with a stale snapshot, a stale report and a file of another
    directory. *)
Definition stale : @State (gmap string string) :=
  mkState
    (<[ "./generated/traffic/old.json" := "[]" ]>
       (<[ "./generated/audit-report.md" := "old" ]>
          {[ "./src/index.ts" := "code" ]}))
    [] {[ 0%nat := [] ]} ∅ 0%nat ∅.

(** A state over the refusing storage, with the two records in the log. *)
Definition logged_refused : @State unit :=
  mkState tt [] {[ 0%nat := [0%nat; 1%nat] ]}
    (<[ 1%nat := Examples.second_record ]> {[ 0%nat := Examples.first_record ]})
    0%nat ∅.

(** A server whose steps do nothing but return. *)
Definition quiet_app (W : Type) : @Setup.App W :=
  Setup.mkApp (ret tt) (ret (mkSchema None)) (ret tt).

Definition stringify_schema (schema : Schema) : string := "{}".

(** A directory listing, and the join of a directory and an entry. *)
Definition listing (dir : string) : option (list string) :=
  if String.eqb dir "./generated/traffic"
  then Some ["users.json"; "notes.md"; "orders.json"]
  else if String.eqb dir "." then Some ["package.json"; "README.md"]
  else None.

Definition join (dir file : string) : string := dir ++ "/" ++ file.

End Cases.

(** * Properties

    ** Strings *)

Section StringFacts.

Lemma append_cons c l s : (String c l ++ s)%string = String c (l ++ s)%string.
Proof. reflexivity. Qed.

Lemma append_empty_r s : (s ++ EmptyString)%string = s.
Proof.
  induction s as [|a s IH]; [reflexivity|].
  rewrite append_cons, IH. reflexivity.
Qed.

Lemma append_nonempty s t : s <> EmptyString -> (s ++ t)%string <> EmptyString.
Proof. destruct s; [congruence|]. intros _. rewrite append_cons. discriminate. Qed.

Lemma append_empty_iff s t :
  (s ++ t)%string = EmptyString <-> s = EmptyString /\ t = EmptyString.
Proof.
  destruct s.
  - change (EmptyString ++ t)%string with t. intuition.
  - rewrite append_cons. split; [discriminate|]. intros [H _]. discriminate.
Qed.

Lemma append_length s t :
  String.length (s ++ t)%string = (String.length s + String.length t)%nat.
Proof.
  induction s as [|c s IH]; [reflexivity|].
  rewrite append_cons. cbn [String.length]. rewrite IH. reflexivity.
Qed.

Lemma append_inj_l p s t : (p ++ s)%string = (p ++ t)%string -> s = t.
Proof.
  induction p as [|c p IH]; [auto|].
  rewrite !append_cons. intros H. inversion H. auto.
Qed.

Lemma append_inj_r s t q : (s ++ q)%string = (t ++ q)%string -> s = t.
Proof.
  revert t. induction s as [|c s IH]; intros [|d t] H.
  - reflexivity.
  - apply (f_equal String.length) in H.
    rewrite append_cons in H. cbn [String.length] in H.
    rewrite !append_length in H. cbn [String.length] in H. lia.
  - apply (f_equal String.length) in H.
    rewrite append_cons in H. cbn [String.length] in H.
    rewrite !append_length in H. cbn [String.length] in H. lia.
  - rewrite !append_cons in H. inversion H. f_equal. auto.
Qed.

End StringFacts.

(** ** The path matcher against its segment-wise description *)

Section PathMatcherFacts.

Import PathMatcher.

Lemma split_nonempty c u : exists h rest, Js.split c u = h :: rest.
Proof.
  induction u as [|a u IH]; simpl; [eauto|].
  destruct (Ascii.eqb a c); [eauto|].
  destruct IH as (h & rest & ->). eauto.
Qed.

Lemma split_segments_no_slash u :
  Forall (fun seg => no_slash seg = true) (Js.split "/" u).
Proof.
  induction u as [|a u IH]; simpl.
  - repeat constructor.
  - destruct (Ascii.eqb a "/") eqn:E.
    + constructor; [reflexivity|exact IH].
    + destruct (Js.split "/" u) as [|h rest].
      * repeat constructor. simpl. rewrite E. reflexivity.
      * inversion IH; subst. constructor; [|assumption].
        simpl. rewrite E. simpl. assumption.
Qed.

Lemma join_cons2 sep x y l :
  Js.join sep (x :: y :: l) = (x ++ sep ++ Js.join sep (y :: l))%string.
Proof. reflexivity. Qed.

Lemma join_split u : Js.join "/" (Js.split "/" u) = u.
Proof.
  induction u as [|a u IH]; [reflexivity|].
  cbn [Js.split].
  destruct (split_nonempty "/" u) as (h & rest & Hs). rewrite Hs in *.
  destruct (Ascii.eqb a "/") eqn:E.
  - apply Ascii.eqb_eq in E. subst a.
    rewrite join_cons2, IH. reflexivity.
  - destruct rest as [|h2 rest].
    + simpl in *. congruence.
    + rewrite join_cons2 in *. rewrite <- IH. reflexivity.
Qed.


Lemma test_seg_cons items a u :
  RegExp_test (RSeg :: items) (String a u)
  = negb (Ascii.eqb a "/")
    && (RegExp_test (RSeg :: items) u || RegExp_test items u).
Proof. reflexivity. Qed.

Lemma plain_not_placeholder lit : plain lit = true -> whole_placeholder lit = false.
Proof.
  destruct lit as [|c lit]; [reflexivity|]. simpl.
  destruct (Ascii.eqb c "{") eqn:E; [|reflexivity].
  apply Ascii.eqb_eq in E. subst c. discriminate.
Qed.

Lemma split_cons_slash u : Js.split "/" (String "/" u) = EmptyString :: Js.split "/" u.
Proof. reflexivity. Qed.

Lemma split_cons_other a u :
  Ascii.eqb a "/" = false ->
  exists h rest, Js.split "/" u = h :: rest
                 /\ Js.split "/" (String a u) = String a h :: rest.
Proof.
  intros E. destruct (split_nonempty "/" u) as (h & rest & Hs).
  exists h, rest. split; [assumption|]. simpl. rewrite E, Hs. reflexivity.
Qed.

Section Tail.

Variable tail : list string.
Variable items : list RegexItem.
Hypothesis tail_ok :
  tail <> [] ->
  forall u, RegExp_test items u
            = segments_match whole_placeholder tail (Js.split "/" u).

Lemma after_segment_ok u :
  RegExp_test (after_segment tail items) u
  = segments_match whole_placeholder (EmptyString :: tail) (Js.split "/" u).
Proof.
  destruct tail as [|t tail'] eqn:Et.
  - destruct u as [|a u]; [reflexivity|].
    destruct (Ascii.eqb a "/") eqn:E.
    + apply Ascii.eqb_eq in E. subst a. rewrite split_cons_slash.
      destruct (split_nonempty "/" u) as (h & rest & ->). reflexivity.
    + destruct (split_cons_other a u E) as (h & rest & _ & ->). reflexivity.
  - destruct u as [|a u]; [reflexivity|].
    cbn [after_segment RegExp_test].
    destruct (Ascii.eqb a "/") eqn:E.
    + apply Ascii.eqb_eq in E. subst a. rewrite split_cons_slash.
      cbn. apply tail_ok. discriminate.
    + destruct (split_cons_other a u E) as (h & rest & _ & ->). reflexivity.
Qed.

Lemma literal_segment_ok lit :
  plain lit = true -> no_slash lit = true ->
  forall u,
    RegExp_test (lit_items lit ++ after_segment tail items) u
    = segments_match whole_placeholder (lit :: tail) (Js.split "/" u).
Proof.
  induction lit as [|c lit IH]; intros Hp Hs u.
  - apply after_segment_ok.
  - simpl in Hp, Hs.
    apply andb_true_iff in Hp as [Hc Hp]. apply andb_true_iff in Hs as [Hc' Hs].
    apply negb_true_iff in Hc'.
    assert (Hw : whole_placeholder (String c lit) = false).
    { apply plain_not_placeholder. simpl. rewrite Hc, Hp. reflexivity. }
    assert (Hw' : whole_placeholder lit = false)
      by (apply plain_not_placeholder; assumption).
    destruct u as [|a u].
    + cbn [lit_items app List.app RegExp_test Js.split segments_match].
      rewrite Hw. reflexivity.
    + cbn [lit_items app List.app RegExp_test]. rewrite IH by assumption.
      destruct (Ascii.eqb a "/") eqn:E.
      * apply Ascii.eqb_eq in E. subst a. rewrite split_cons_slash.
        cbn [segments_match]. rewrite Hw.
        rewrite Ascii.eqb_sym, Hc'. reflexivity.
      * destruct (split_cons_other a u E) as (h & rest & -> & ->).
        cbn [segments_match]. rewrite Hw, Hw'. cbn [String.eqb].
        rewrite (Ascii.eqb_sym a c).
        destruct (Ascii.eqb c a); reflexivity.
Qed.

Lemma placeholder_segment_ok ph :
  whole_placeholder ph = true ->
  forall u,
    RegExp_test (RSeg :: after_segment tail items) u
    = segments_match whole_placeholder (ph :: tail) (Js.split "/" u).
Proof.
  intros Hw. induction u as [|a u IH].
  - cbn [RegExp_test Js.split segments_match]. rewrite Hw. reflexivity.
  - rewrite test_seg_cons, IH, after_segment_ok.
    destruct (Ascii.eqb a "/") eqn:E.
    + apply Ascii.eqb_eq in E. subst a. rewrite split_cons_slash.
      cbn [segments_match]. rewrite Hw. reflexivity.
    + destruct (split_cons_other a u E) as (h & rest & -> & ->).
      cbn [segments_match negb andb]. rewrite Hw.
      assert (He : whole_placeholder EmptyString = false) by reflexivity.
      rewrite He. cbn [String.eqb negb andb].
      destruct h as [|b h]; cbn [String.eqb negb andb]; [reflexivity|].
      apply orb_false_r.
Qed.

End Tail.


Lemma template_items_ok segs :
  segs <> [] -> Forall segment_good segs ->
  forall u,
    RegExp_test (template_items segs) u
    = segments_match whole_placeholder segs (Js.split "/" u).
Proof.
  induction segs as [|seg tail IH]; intros Hne Hall u; [congruence|].
  inversion Hall as [|? ? [Hok Hns] Htail]; subst.
  cbn [template_items]. unfold segment_items.
  destruct (whole_placeholder seg) eqn:Hw.
  - apply placeholder_segment_ok; [|assumption].
    intros Hne' u'. apply IH; assumption.
  - unfold segment_ok in Hok. rewrite Hw in Hok. simpl in Hok.
    apply literal_segment_ok; [|assumption|assumption].
    intros Hne' u'. apply IH; assumption.
Qed.

(** Replacement and parsing, piece by piece. *)

Lemma plain_cons c s :
  plain (String c s) = true -> is_syntax_char c = false /\ plain s = true.
Proof.
  simpl. intros H. apply andb_true_iff in H as [H1 H2].
  apply negb_true_iff in H1. auto.
Qed.

Lemma replace_go_cons a s :
  replace_go 0 (String a s)
  = if Ascii.eqb a "{"
    then match close_len s with
         | Some n => (segment_class ++ replace_go n s)%string
         | None => String a (replace_go 0 s)
         end
    else String a (replace_go 0 s).
Proof. reflexivity. Qed.

Lemma replace_go_plain lit s :
  plain lit = true ->
  replace_go 0 (lit ++ s) = (lit ++ replace_go 0 s)%string.
Proof.
  induction lit as [|c lit IH]; intros Hp; [reflexivity|].
  apply plain_cons in Hp as [Hc Hp].
  rewrite append_cons, replace_go_cons.
  destruct (Ascii.eqb c "{") eqn:E.
  - apply Ascii.eqb_eq in E. subst c. discriminate.
  - rewrite IH by assumption. reflexivity.
Qed.

Lemma replace_go_skip r s :
  replace_go (String.length r) (r ++ s) = replace_go 0 s.
Proof. induction r as [|a r IH]; [reflexivity|exact IH]. Qed.

Lemma until_close_app r s k :
  until_close r = Some k -> until_close (r ++ s) = Some k.
Proof.
  revert k. induction r as [|a r IH]; intros k; simpl; [discriminate|].
  destruct (Ascii.eqb a "}"); [auto|].
  destruct (until_close r) as [k'|]; [|discriminate].
  rewrite (IH k' eq_refl). auto.
Qed.

Lemma close_len_app r s n :
  close_len r = Some n -> close_len (r ++ s) = Some n.
Proof.
  unfold close_len. destruct (until_close r) as [k|] eqn:E; [|discriminate].
  rewrite (until_close_app r s k E). auto.
Qed.

Lemma replace_go_placeholder ph s :
  whole_placeholder ph = true ->
  replace_go 0 (ph ++ s) = (segment_class ++ replace_go 0 s)%string.
Proof.
  destruct ph as [|a r]; [discriminate|]. cbn [whole_placeholder].
  intros H. apply andb_true_iff in H as [Ha Hc].
  destruct (close_len r) as [n|] eqn:En; [|discriminate].
  apply Nat.eqb_eq in Hc. subst n.
  rewrite append_cons, replace_go_cons, Ha.
  rewrite (close_len_app r s _ En), replace_go_skip. reflexivity.
Qed.

Lemma parse_plain_char c s :
  is_syntax_char c = false ->
  RegExp_parse (String c s) = option_map (cons (RLit c)) (RegExp_parse s).
Proof.
  intros Hc.
  assert (Hb : Ascii.eqb c "[" = false).
  { destruct (Ascii.eqb c "[") eqn:E; [|reflexivity].
    apply Ascii.eqb_eq in E. subst c. discriminate. }
  assert (Hd : Ascii.eqb c "." = false).
  { destruct (Ascii.eqb c ".") eqn:E; [|reflexivity].
    apply Ascii.eqb_eq in E. subst c. discriminate. }
  assert (Hpc : parse_char c (RegExp_parse s)
                = option_map (cons (RLit c)) (RegExp_parse s)).
  { unfold parse_char. rewrite Hd, Hc. reflexivity. }
  cbn [RegExp_parse].
  destruct s as [|c2 [|c3 [|c4 [|c5 rest]]]]; try exact Hpc.
  unfold is_segment_class. rewrite Hb. exact Hpc.
Qed.

Lemma parse_plain lit s :
  plain lit = true ->
  RegExp_parse (lit ++ s) = option_map (app (lit_items lit)) (RegExp_parse s).
Proof.
  induction lit as [|c lit IH]; intros Hp.
  - change (RegExp_parse s = option_map (app []) (RegExp_parse s)).
    destruct (RegExp_parse s); reflexivity.
  - apply plain_cons in Hp as [Hc Hp].
    rewrite append_cons, parse_plain_char, IH by assumption.
    destruct (RegExp_parse s); reflexivity.
Qed.

Lemma parse_segment_class s :
  RegExp_parse (segment_class ++ s) = option_map (cons RSeg) (RegExp_parse s).
Proof. reflexivity. Qed.

Lemma join_cons seg tail :
  Js.join "/" (seg :: tail) = (seg ++ after_text tail)%string.
Proof.
  destruct tail as [|t tail]; [|reflexivity].
  cbn [Js.join after_text]. symmetry. apply append_empty_r.
Qed.

Lemma compile_segments segs :
  Forall segment_good segs ->
  RegExp_parse (replace_placeholders (Js.join "/" segs))
  = Some (template_items segs).
Proof.
  unfold replace_placeholders.
  induction segs as [|seg tail IH]; intros Hall; [reflexivity|].
  inversion Hall as [|? ? [Hok Hns] Htail]; subst.
  specialize (IH Htail).
  assert (Hafter : RegExp_parse (replace_go 0 (after_text tail))
                   = Some (after_segment tail (template_items tail))).
  { destruct tail as [|t tail]; [reflexivity|].
    cbn [after_text after_segment].
    change (replace_go 0 (String "/" (Js.join "/" (t :: tail))))
      with (String "/" (replace_go 0 (Js.join "/" (t :: tail)))).
    rewrite parse_plain_char by reflexivity.
    rewrite IH. reflexivity. }
  rewrite join_cons. cbn [template_items]. unfold segment_items.
  destruct (whole_placeholder seg) eqn:Hw.
  - rewrite replace_go_placeholder by assumption.
    rewrite parse_segment_class, Hafter. reflexivity.
  - unfold segment_ok in Hok. rewrite Hw in Hok. simpl in Hok.
    rewrite replace_go_plain, parse_plain by assumption.
    rewrite Hafter. reflexivity.
Qed.

Lemma unit_exact_lit lit items :
  unit_exact (lit_items lit ++ items) = unit_exact items.
Proof. induction lit as [|c lit IH]; [reflexivity|exact IH]. Qed.

Lemma unit_exact_after_segment tail items :
  unit_exact items = true ->
  unit_exact (RSeg :: after_segment tail items) = true
  /\ unit_exact (after_segment tail items) = true.
Proof. intros H. destruct tail; cbn; auto. Qed.

Lemma unit_exact_template_items segs : unit_exact (template_items segs) = true.
Proof.
  induction segs as [|seg tail IH]; [reflexivity|].
  cbn [template_items]. unfold segment_items.
  destruct (unit_exact_after_segment tail _ IH) as [H1 H2].
  destruct (whole_placeholder seg).
  - exact H1.
  - rewrite unit_exact_lit. exact H2.
Qed.

Lemma template_ok_good template :
  template_ok template = true ->
  Forall segment_good (Js.split "/" template).
Proof.
  unfold template_ok. intros H.
  rewrite forallb_forall in H.
  pose proof (split_segments_no_slash template) as Hs.
  rewrite List.Forall_forall in Hs |- *.
  intros seg Hin. split; [apply H|apply Hs]; assumption.
Qed.

Lemma compile_template template :
  template_ok template = true ->
  exists regex,
    RegExp_parse (replace_placeholders template) = Some regex
    /\ unit_exact regex = true
    /\ forall cleanUrl,
         RegExp_test regex cleanUrl
         = template_matches whole_placeholder template cleanUrl.
Proof.
  intros Hok. pose proof (template_ok_good _ Hok) as Hgood.
  exists (template_items (Js.split "/" template)). split; [|split].
  - rewrite <- (join_split template) at 1. apply compile_segments, Hgood.
  - apply unit_exact_template_items.
  - intros u. apply template_items_ok; [|assumption].
    destruct (split_nonempty "/" template) as (h & rest & ->). discriminate.
Qed.

Lemma first_match_find cleanUrl templates :
  forallb template_ok templates = true ->
  first_match cleanUrl templates
  = to_outcome
      (List.find (fun t => template_matches whole_placeholder t cleanUrl) templates).
Proof.
  induction templates as [|t templates IH]; intros Hall; [reflexivity|].
  simpl in Hall. apply andb_true_iff in Hall as [Ht Hall].
  destruct (compile_template t Ht) as (regex & Hparse & Hexact & Htest).
  cbn [first_match List.find]. rewrite Hparse, Hexact, orb_true_r, Htest.
  destruct (template_matches whole_placeholder t cleanUrl); [reflexivity|].
  apply IH, Hall.
Qed.

Lemma get_keys {V : Type} (o : list (string * V)) k :
  match obj_get o k with
  | Some _ => existsb (String.eqb k) (keys o) = true
  | None => existsb (String.eqb k) (keys o) = false
  end.
Proof.
  induction o as [|[k' v] o IH]; [reflexivity|].
  cbn [obj_get keys map fst existsb]. rewrite (String.eqb_sym k k').
  destruct (String.eqb k' k); [reflexivity|exact IH].
Qed.

(** X26.  On a specification whose templates are made of segments that
    are each a whole [{name}] placeholder or a text free of pattern syntax
    characters, and for a URL whose path is not the name of a member that
    every object inherits, the matcher strips the query, returns the
    cleaned path when it is a key of the specification, otherwise the
    first template in key order with as many segments as the path, whose
    placeholder segments face non-empty segments and whose other segments
    face equal ones, and otherwise nothing. *)
Theorem normalizePathForSchema_segmentwise url schemaPaths :
  paths_ok schemaPaths = true ->
  inherited (Js.first (Js.split "?" url)) = false ->
  normalizePathForSchema url schemaPaths
  = to_outcome (spec_match whole_placeholder url schemaPaths).
Proof.
  intros Hok Hin. unfold normalizePathForSchema, spec_match.
  pose proof (get_keys schemaPaths (Js.first (Js.split "?" url))) as Hg.
  destruct (obj_get schemaPaths (Js.first (Js.split "?" url))).
  - rewrite Hg. reflexivity.
  - rewrite Hg, Hin. apply first_match_find, Hok.
Qed.


(** The theorem on the two-path schema and a request for one item. *)
Lemma normalizePathForSchema_segmentwise_witness :
  paths_ok Examples.items = true
  /\ inherited (Js.first (Js.split "?" "/items/42?verbose=1")) = false
  /\ normalizePathForSchema "/items/42?verbose=1" Examples.items
     = to_outcome (spec_match whole_placeholder "/items/42?verbose=1" Examples.items).
Proof.
  split; [reflexivity|]. split; [reflexivity|].
  apply (normalizePathForSchema_segmentwise "/items/42?verbose=1" Examples.items);
    reflexivity.
Defined.

(** C3.  The claim fails on the code.  A template is made into a regular
    expression without escaping its literal text, so the dot of
    [/v1.0/items] stands for any character: the path [/v1x0/items] is
    matched to the template, where the claim, whose literal segments must
    be equal, returns none.  And the direct look-up finds the members that
    every object inherits: the path [constructor] is returned as its own
    match although it is no key and no template matches it. *)
Theorem dot_and_inherited_names_are_matched :
  normalizePathForSchema "/v1x0/items" Cases.dotted = Matched "/v1.0/items"
  /\ spec_match whole_placeholder "/v1x0/items" Cases.dotted = None
  /\ normalizePathForSchema "constructor" Cases.dotted = Matched "constructor"
  /\ spec_match whole_placeholder "constructor" Cases.dotted = None.
Proof. repeat split; reflexivity. Qed.

End PathMatcherFacts.

(** ** The traffic loop *)

Section ReportFacts.

Import PathMatcher Report.

(** Facts on the insertion-ordered maps. *)

Lemma set_add_In x z s : In z (set_add x s) <-> z = x \/ In z s.
Proof.
  unfold set_add, set_has.
  destruct (existsb (Z.eqb x) s) eqn:E.
  - split; [auto|]. intros [->|H]; [|assumption].
    apply existsb_exists in E as (y & Hy & Heq).
    apply Z.eqb_eq in Heq. subst. assumption.
  - rewrite in_app_iff. simpl. intuition.
Qed.

Lemma obj_get_app {V : Type} (m : list (string * V)) k d key :
  obj_get (m ++ [(k, d)]) key
  = match obj_get m key with
    | Some v => Some v
    | None => if String.eqb k key then Some d else None
    end.
Proof.
  induction m as [|[k' v] m IH]; [reflexivity|].
  cbn [app obj_get]. destruct (String.eqb k' key); [reflexivity|exact IH].
Qed.

Lemma obj_get_has {V : Type} (m : list (string * V)) k :
  map_has k m = match obj_get m k with Some _ => true | None => false end.
Proof.
  unfold map_has. induction m as [|[k' v] m IH]; [reflexivity|].
  cbn [keys map fst existsb obj_get]. rewrite (String.eqb_sym k k').
  destruct (String.eqb k' k); [reflexivity|exact IH].
Qed.

Lemma obj_get_modify {V : Type} (m : list (string * V)) k f key :
  obj_get (map_modify k f m) key
  = if String.eqb k key then option_map f (obj_get m key) else obj_get m key.
Proof.
  induction m as [|[k' v] m IH]; [destruct (String.eqb k key); reflexivity|].
  cbn [map_modify]. destruct (String.eqb k' k) eqn:E.
  - apply String.eqb_eq in E. subst k'. cbn [obj_get].
    destruct (String.eqb k key); reflexivity.
  - cbn [obj_get]. destruct (String.eqb k' key) eqn:E'; [|exact IH].
    apply String.eqb_eq in E'. subst k'.
    rewrite String.eqb_sym, E. reflexivity.
Qed.

Lemma obj_get_upsert {V : Type} (m : list (string * V)) k d f key :
  obj_get (map_modify k f (map_ensure k d m)) key
  = if String.eqb k key
    then Some (f (match obj_get m k with Some v => v | None => d end))
    else obj_get m key.
Proof.
  rewrite obj_get_modify. unfold map_ensure. rewrite obj_get_has.
  destruct (String.eqb k key) eqn:E.
  - apply String.eqb_eq in E. subst key.
    destruct (obj_get m k) eqn:G; [rewrite G; reflexivity|].
    rewrite obj_get_app, G, String.eqb_refl. reflexivity.
  - destruct (obj_get m k) eqn:G; [reflexivity|].
    rewrite obj_get_app, E. destruct (obj_get m key); reflexivity.
Qed.

Lemma upsert_not_nil {V : Type} (m : list (string * V)) k d f :
  map_modify k f (map_ensure k d m) <> [].
Proof.
  intros H. pose proof (obj_get_upsert m k d f k) as G.
  rewrite H, String.eqb_refl in G. discriminate.
Qed.

Lemma statuses_of_undocumented record a key z :
  In z (statuses_of (record_undocumented record a) key)
  <-> In z (statuses_of a key)
      \/ (undocumented_key record = key /\ status record = z).
Proof.
  unfold statuses_of, record_undocumented. cbn [undocumentedEndpoints].
  rewrite obj_get_upsert.
  destruct (String.eqb (undocumented_key record) key) eqn:E.
  - apply String.eqb_eq in E. subst key. rewrite set_add_In.
    destruct (obj_get (undocumentedEndpoints a) (undocumented_key record));
      intuition.
  - apply String.eqb_neq in E. intuition.
Qed.

Lemma statuses_of_documented p record a key :
  statuses_of (record_documented p record a) key = statuses_of a key.
Proof. reflexivity. Qed.

Lemma statuses_of_file_record o record a key z :
  In z (statuses_of (file_record o record a) key)
  <-> In z (statuses_of a key)
      \/ (falsy o = true /\ undocumented_key record = key /\ status record = z).
Proof.
  unfold file_record, falsy. destruct o as [p|].
  - destruct (String.eqb p EmptyString).
    + rewrite statuses_of_undocumented. intuition.
    + rewrite statuses_of_documented. intuition discriminate.
  - rewrite statuses_of_undocumented. intuition.
Qed.

Lemma analyze_with_statuses normalize traffic :
  forall a key z,
    In z (statuses_of (analyze_with normalize a traffic) key)
    <-> In z (statuses_of a key)
        \/ exists record,
             In record traffic
             /\ falsy (normalize (url record)) = true
             /\ undocumented_key record = key
             /\ status record = z.
Proof.
  induction traffic as [|r traffic IH]; intros a key z.
  - cbn [analyze_with]. split; [auto|]. intros [H|(r & [] & _)]. assumption.
  - cbn [analyze_with]. rewrite IH, statuses_of_file_record. split.
    + intros [[H|(Hf & Hk & Hz)]|(r' & Hin & Hf & Hk & Hz)].
      * auto.
      * right. exists r. cbn [In]. auto.
      * right. exists r'. cbn [In]. auto.
    + intros [H|(r' & [->|Hin] & Hf & Hk & Hz)].
      * auto.
      * auto.
      * right. exists r'. auto.
Qed.

(** The loop of the model is the loop over the answers of its matcher. *)
Lemma analyze_record_model schemaPaths a record a' :
  analyze_record schemaPaths a record = Some a' ->
  a' = file_record (matcher_of schemaPaths (url record)) record a.
Proof.
  unfold analyze_record, matcher_of, file_record.
  destruct (normalizePathForSchema (url record) schemaPaths) as [p| |];
    cbn [returned]; [|intros [= <-]; reflexivity|discriminate].
  destruct (String.eqb p EmptyString); intros [= <-]; reflexivity.
Qed.

Lemma analyze_model schemaPaths traffic :
  forall a a',
    analyze schemaPaths a traffic = Some a' ->
    a' = analyze_with (matcher_of schemaPaths) a traffic.
Proof.
  induction traffic as [|r traffic IH]; intros a a'; cbn [analyze analyze_with].
  - intros [= <-]. reflexivity.
  - destruct (analyze_record schemaPaths a r) as [a1|] eqn:E; [|discriminate].
    rewrite (analyze_record_model _ _ _ _ E). apply IH.
Qed.

(** C2 (amended).  Whatever the matcher answers, a record for which it
    returns none is filed in the undocumented mapping under the key made
    of its method in upper case, a blank, and its URL as observed, query
    component included, where its status is added; the statuses stored
    under a key are exactly those of the records for which the matcher
    returned none (or the empty path, which the loop takes for none) and
    whose method and URL make that key.  The loop of the model, where the
    model interprets the templates, is this loop over its own matcher. *)
Theorem undocumented_keyed_by_raw_url (normalize : string -> option string)
    traffic :
  (forall record,
     In record traffic ->
     normalize (url record) = None ->
     exists statuses,
       obj_get (undocumentedEndpoints (analyze_with normalize empty_analysis traffic))
         (Js.toUpperCase (method record) ++ " " ++ url record)%string
       = Some statuses
       /\ In (status record) statuses)
  /\ (forall key z,
        In z (statuses_of (analyze_with normalize empty_analysis traffic) key)
        <-> exists record,
              In record traffic
              /\ falsy (normalize (url record)) = true
              /\ (Js.toUpperCase (method record) ++ " " ++ url record)%string = key
              /\ status record = z)
  /\ (forall schemaPaths a,
        analyze schemaPaths empty_analysis traffic = Some a ->
        a = analyze_with (matcher_of schemaPaths) empty_analysis traffic).
Proof.
  assert (Hchar : forall key z,
             In z (statuses_of (analyze_with normalize empty_analysis traffic) key)
             <-> exists record,
                   In record traffic
                   /\ falsy (normalize (url record)) = true
                   /\ undocumented_key record = key
                   /\ status record = z).
  { intros key z. rewrite analyze_with_statuses. split; [|auto].
    intros [[]|H]. assumption. }
  split; [|split; [exact Hchar|intros schemaPaths a; apply analyze_model]].
  intros record Hin Hno.
  assert (Hz : In (status record)
                 (statuses_of (analyze_with normalize empty_analysis traffic)
                    (undocumented_key record))).
  { apply Hchar. exists record. rewrite Hno. auto. }
  unfold statuses_of in Hz. fold (undocumented_key record).
  destruct (obj_get _ (undocumented_key record)) as [sts|]; [|destruct Hz].
  exists sts. auto.
Qed.

(** Which records leave a trace in which map. *)

Lemma file_record_undocumented_nil o record a :
  undocumentedEndpoints (file_record o record a) = []
  <-> undocumentedEndpoints a = [] /\ falsy o = false.
Proof.
  unfold file_record, falsy. destruct o as [p|].
  - destruct (String.eqb p EmptyString).
    + split; [|intros [_ H]; discriminate].
      intros H. exfalso. revert H. apply upsert_not_nil.
    + cbn [record_documented undocumentedEndpoints]. intuition.
  - split; [|intros [_ H]; discriminate].
    intros H. exfalso. revert H. apply upsert_not_nil.
Qed.

Lemma file_record_tested_nil o record a :
  testedMethodsWithStatus (file_record o record a) = []
  <-> testedMethodsWithStatus a = [] /\ falsy o = true.
Proof.
  unfold file_record, falsy. destruct o as [p|].
  - destruct (String.eqb p EmptyString).
    + cbn [record_undocumented testedMethodsWithStatus]. intuition.
    + split; [|intros [_ H]; discriminate].
      intros H. exfalso. revert H. apply upsert_not_nil.
  - cbn [record_undocumented testedMethodsWithStatus]. intuition.
Qed.

Lemma analyze_with_undocumented_nil normalize traffic :
  forall a,
    undocumentedEndpoints (analyze_with normalize a traffic) = []
    <-> undocumentedEndpoints a = []
        /\ forall record, In record traffic ->
                          falsy (normalize (url record)) = false.
Proof.
  induction traffic as [|r traffic IH]; intros a; cbn [analyze_with].
  - cbn [In]. intuition.
  - rewrite IH, file_record_undocumented_nil. cbn [In]. split.
    + intros [[H1 H2] H3]. split; [assumption|].
      intros r' [<-|Hin]; auto.
    + intros [H1 H2]. split; [split|]; auto.
Qed.

Lemma analyze_with_tested_nil normalize traffic :
  forall a,
    testedMethodsWithStatus (analyze_with normalize a traffic) = []
    <-> testedMethodsWithStatus a = []
        /\ forall record, In record traffic ->
                          falsy (normalize (url record)) = true.
Proof.
  induction traffic as [|r traffic IH]; intros a; cbn [analyze_with].
  - cbn [In]. intuition.
  - rewrite IH, file_record_tested_nil. cbn [In]. split.
    + intros [[H1 H2] H3]. split; [assumption|].
      intros r' [<-|Hin]; auto.
    + intros [H1 H2]. split; [split|]; auto.
Qed.

(** The theorem on one request outside the two-path schema, with the
    matcher of the model. *)
Lemma undocumented_keyed_by_raw_url_witness :
  In Examples.demo_query [Examples.demo_query]
  /\ matcher_of Examples.items (url Examples.demo_query) = None
  /\ analyze Examples.items empty_analysis [Examples.demo_query]
     = Some (analyze_with (matcher_of Examples.items) empty_analysis
               [Examples.demo_query])
  /\ exists statuses,
       obj_get
         (undocumentedEndpoints
            (analyze_with (matcher_of Examples.items) empty_analysis
               [Examples.demo_query]))
         (Js.toUpperCase (method Examples.demo_query) ++ " "
          ++ url Examples.demo_query)%string
       = Some statuses
       /\ In (status Examples.demo_query) statuses.
Proof.
  assert (Hin : In Examples.demo_query [Examples.demo_query])
    by (left; reflexivity).
  split; [exact Hin|]. split; [reflexivity|]. split; [reflexivity|].
  destruct (undocumented_keyed_by_raw_url (matcher_of Examples.items)
              [Examples.demo_query]) as (Hfiled & _ & _).
  exact (Hfiled Examples.demo_query Hin eq_refl).
Defined.

(** C2 as stated fails: the key keeps the query component.  A [POST] to
    [/demo?x=1] against a schema without that path is filed under
    [POST /demo?x=1], and nothing is filed under [POST /demo]. *)
Lemma undocumented_key_keeps_query :
  normalizePathForSchema (url Examples.demo_query) Examples.items = NoMatch
  /\ exists a,
       analyze Examples.items empty_analysis [Examples.demo_query] = Some a
       /\ spec_undocumented_key Examples.demo_query = "POST /demo"
       /\ obj_get (undocumentedEndpoints a)
            (spec_undocumented_key Examples.demo_query) = None
       /\ obj_get (undocumentedEndpoints a) "POST /demo?x=1" = Some [200%Z].
Proof.
  split; [reflexivity|]. eexists. split; [reflexivity|].
  split; [reflexivity|]. split; reflexivity.
Qed.

End ReportFacts.

(** ** The rendered report *)

Section RenderFacts.

Import PathMatcher Report Render Examples.

Lemma concat_map_empty_iff {A : Type} (f : A -> string) l :
  (forall x, f x <> EmptyString) ->
  (concat_map f l = EmptyString <-> l = []).
Proof.
  intros Hf. destruct l as [|x l]; [intuition|].
  cbn [concat_map fold_right]. rewrite append_empty_iff.
  split; [|discriminate]. intros [H _]. destruct (Hf x H).
Qed.

Lemma zero_ltb_length {A : Type} (l : list A) :
  (0 <? length l)%nat = match l with [] => false | _ => true end.
Proof. destruct l; reflexivity. Qed.

Lemma undocumented_section_empty a :
  undocumented_section a = EmptyString <-> undocumentedEndpoints a = [].
Proof.
  unfold undocumented_section. rewrite zero_ltb_length.
  destruct (undocumentedEndpoints a); [intuition|].
  split; [|discriminate]. intros H. apply append_empty_iff in H as [H _].
  discriminate.
Qed.

Lemma tested_entry_nonempty entry : tested_entry entry <> EmptyString.
Proof. unfold tested_entry. apply append_nonempty. discriminate. Qed.

Lemma untested_subsection_empty a schemaPaths :
  untested_subsection a schemaPaths = EmptyString <-> untestedPaths a schemaPaths = [].
Proof.
  unfold untested_subsection. rewrite zero_ltb_length.
  destruct (untestedPaths a schemaPaths); [intuition|].
  split; [|discriminate]. intros H. apply append_empty_iff in H as [H _].
  discriminate.
Qed.

Lemma partial_subsection_empty a schemaPaths :
  partial_subsection a schemaPaths = EmptyString
  <-> partiallyTestedPaths a schemaPaths = [].
Proof.
  unfold partial_subsection. rewrite zero_ltb_length.
  destruct (partiallyTestedPaths a schemaPaths); [intuition|].
  split; [|discriminate]. intros H. apply append_empty_iff in H as [H _].
  discriminate.
Qed.

Lemma missing_section_empty a schemaPaths :
  missing_section a schemaPaths = EmptyString
  <-> untestedPaths a schemaPaths = [] /\ partiallyTestedPaths a schemaPaths = [].
Proof.
  unfold missing_section. rewrite !zero_ltb_length.
  destruct (untestedPaths a schemaPaths), (partiallyTestedPaths a schemaPaths);
    cbn [orb]; [intuition| | |];
    (split; [|intros [? ?]; discriminate]);
    intros H; apply append_empty_iff in H as [H _]; discriminate.
Qed.

(** The report of the model is the report over the answers of its
    matcher. *)
Lemma generateReport_model now schema traffic report :
  generateReport now schema traffic = Some report ->
  report
  = generateReport_with (matcher_of (paths_or_empty schema)) now schema traffic.
Proof.
  unfold generateReport, generateReport_with.
  destruct (analyze (paths_or_empty schema) empty_analysis traffic) as [a|] eqn:E;
    [|discriminate].
  intros [= <-]. rewrite (analyze_model _ _ _ _ E). reflexivity.
Qed.

(** C6 (amended).  Whatever the specification is and whatever the matcher
    answers, the report is the title, the generation line, the coverage
    summary, the Undocumented Endpoints section, the Tested Endpoints
    section and the Missing Coverage section, in this order.  The
    Undocumented Endpoints section is absent exactly when the matcher
    returned a path for every record, the Missing Coverage section exactly
    when there is neither an untested nor a partially tested path, and
    each of its two parts when its own list is empty.  The Tested
    Endpoints heading is always there; what follows it is empty exactly
    when the matcher returned a path for no record.  The report of the
    model, where the model interprets the templates, is this report over
    its own matcher. *)
Theorem report_sections (normalize : string -> option string) now schema traffic :
  let schemaPaths := paths_or_empty schema in
  let a := analyze_with normalize empty_analysis traffic in
  generateReport_with normalize now schema traffic
  = (title
     ++ generated_line now
     ++ summary_section a schemaPaths (length traffic)
     ++ undocumented_section a
     ++ tested_section a
     ++ missing_section a schemaPaths)%string
  /\ (undocumented_section a = EmptyString
      <-> forall record, In record traffic ->
            falsy (normalize (url record)) = false)
  /\ (undocumented_section a <> EmptyString ->
      exists body, undocumented_section a = (undocumented_heading ++ body)%string)
  /\ (exists body,
        tested_section a = (tested_heading ++ body)%string
        /\ (body = EmptyString
            <-> forall record, In record traffic ->
                  falsy (normalize (url record)) = true))
  /\ (missing_section a schemaPaths = EmptyString
      <-> untestedPaths a schemaPaths = []
          /\ partiallyTestedPaths a schemaPaths = [])
  /\ (missing_section a schemaPaths <> EmptyString ->
      missing_section a schemaPaths
      = (missing_heading
         ++ untested_subsection a schemaPaths
         ++ partial_subsection a schemaPaths)%string)
  /\ (untested_subsection a schemaPaths = EmptyString
      <-> untestedPaths a schemaPaths = [])
  /\ (partial_subsection a schemaPaths = EmptyString
      <-> partiallyTestedPaths a schemaPaths = [])
  /\ (forall report,
        generateReport now schema traffic = Some report ->
        report = generateReport_with (matcher_of schemaPaths) now schema traffic).
Proof.
  intros schemaPaths a.
  split; [reflexivity|].
  split.
  { rewrite undocumented_section_empty. unfold a.
    rewrite analyze_with_undocumented_nil. cbn [empty_analysis undocumentedEndpoints].
    intuition. }
  split.
  { unfold undocumented_section.
    destruct (0 <? length (undocumentedEndpoints a))%nat; [eauto|congruence]. }
  split.
  { eexists. split; [reflexivity|].
    rewrite (concat_map_empty_iff _ _ tested_entry_nonempty). unfold a.
    rewrite analyze_with_tested_nil.
    cbn [empty_analysis testedMethodsWithStatus]. intuition. }
  split; [apply missing_section_empty|].
  split.
  { unfold missing_section.
    destruct ((0 <? length (untestedPaths a schemaPaths))%nat
              || (0 <? length (partiallyTestedPaths a schemaPaths))%nat);
      [reflexivity|congruence]. }
  split; [apply untested_subsection_empty|].
  split; [apply partial_subsection_empty|].
  intros report. apply generateReport_model.
Qed.

(** The theorem on the two-path schema and the matcher of the model,
    with one documented and one undocumented request: the report of the
    model is the one described, and both guarded sections are present. *)
Lemma report_sections_witness :
  generateReport "2025-01-01T00:00:00.000Z" (mkSchema (Some items))
    [get_item; demo]
  = Some (generateReport_with (matcher_of items) "2025-01-01T00:00:00.000Z"
            (mkSchema (Some items)) [get_item; demo])
  /\ generateReport_with (matcher_of items) "2025-01-01T00:00:00.000Z"
       (mkSchema (Some items)) [get_item; demo]
     = (title
        ++ generated_line "2025-01-01T00:00:00.000Z"
        ++ summary_section
             (analyze_with (matcher_of items) empty_analysis [get_item; demo])
             items 2
        ++ undocumented_section
             (analyze_with (matcher_of items) empty_analysis [get_item; demo])
        ++ tested_section
             (analyze_with (matcher_of items) empty_analysis [get_item; demo])
        ++ missing_section
             (analyze_with (matcher_of items) empty_analysis [get_item; demo])
             items)%string
  /\ undocumented_section
       (analyze_with (matcher_of items) empty_analysis [get_item; demo])
     <> EmptyString
  /\ missing_section
       (analyze_with (matcher_of items) empty_analysis [get_item; demo]) items
     <> EmptyString.
Proof.
  split; [reflexivity|].
  destruct (report_sections (matcher_of items) "2025-01-01T00:00:00.000Z"
              (mkSchema (Some items)) [get_item; demo])
    as (Hreport & Hu & _ & _ & Hm & _).
  split; [exact Hreport|]. split.
  - intros H.
    pose proof (proj1 Hu H demo (or_intror (or_introl eq_refl))) as Hd.
    vm_compute in Hd. discriminate Hd.
  - intros H. destruct (proj1 Hm H) as [_ Hp].
    vm_compute in Hp. discriminate Hp.
Defined.

(** C6 as stated fails: the Tested Endpoints heading is written even when
    no declared template was hit.  With the empty schema and one request,
    no path is tested, yet the report ends with that heading. *)
Lemma tested_heading_without_tested_paths :
  exists a,
    analyze [] empty_analysis [demo] = Some a
    /\ testedPaths a = []
    /\ testedMethodsWithStatus a = []
    /\ tested_section a <> EmptyString
    /\ generateReport "T" (mkSchema None) [demo]
       = Some (title ++ generated_line "T" ++ summary_section a [] 1
               ++ undocumented_section a ++ tested_heading)%string.
Proof.
  eexists. split; [reflexivity|]. split; [reflexivity|]. split; [reflexivity|].
  split; [discriminate|reflexivity].
Qed.

(** The empty specification: the matcher returns the names of the
    inherited members and nothing else. *)
Lemma matcher_of_empty url :
  matcher_of [] url
  = if inherited (Js.first (Js.split "?" url))
    then Some (Js.first (Js.split "?" url))
    else None.
Proof.
  unfold matcher_of, normalizePathForSchema. cbn [obj_get keys map first_match].
  destruct (inherited (Js.first (Js.split "?" url))); reflexivity.
Qed.

Lemma inherited_not_empty name :
  inherited name = true -> String.eqb name EmptyString = false.
Proof. destruct name; [discriminate|reflexivity]. Qed.

Lemma falsy_matcher_of_empty url :
  falsy (matcher_of [] url) = negb (inherited (Js.first (Js.split "?" url))).
Proof.
  rewrite matcher_of_empty.
  destruct (inherited (Js.first (Js.split "?" url))) eqn:E; [|reflexivity].
  cbn [falsy negb]. apply inherited_not_empty, E.
Qed.

Lemma analyze_empty_total traffic :
  forall a, exists a', analyze [] a traffic = Some a'.
Proof.
  induction traffic as [|r traffic IH]; intros a; [eexists; reflexivity|].
  cbn [analyze]. unfold analyze_record, normalizePathForSchema.
  cbn [obj_get keys map first_match].
  destruct (inherited (Js.first (Js.split "?" (url r)))).
  - destruct (String.eqb _ EmptyString); apply IH.
  - apply IH.
Qed.

Lemma file_record_tested_paths_nil o record a :
  testedPaths (file_record o record a) = []
  <-> testedPaths a = [] /\ falsy o = true.
Proof.
  unfold file_record, falsy. destruct o as [p|].
  - destruct (String.eqb p EmptyString).
    + cbn [record_undocumented testedPaths]. intuition.
    + cbn [record_documented testedPaths]. unfold set_add_string.
      destruct (set_has_string p (testedPaths a)) eqn:E.
      * split; [|intros [_ H]; discriminate].
        intros H. rewrite H in E. discriminate.
      * split; [|intros [_ H]; discriminate].
        intros H. destruct (testedPaths a); discriminate.
  - cbn [record_undocumented testedPaths]. intuition.
Qed.

Lemma analyze_with_tested_paths_nil normalize traffic :
  forall a,
    testedPaths (analyze_with normalize a traffic) = []
    <-> testedPaths a = []
        /\ forall record, In record traffic ->
                          falsy (normalize (url record)) = true.
Proof.
  induction traffic as [|r traffic IH]; intros a; cbn [analyze_with].
  - cbn [In]. intuition.
  - rewrite IH, file_record_tested_paths_nil. cbn [In]. split.
    + intros [[H1 H2] H3]. split; [assumption|].
      intros r' [<-|Hin]; auto.
    + intros [H1 H2]. split; [split|]; auto.
Qed.

(** C1 (the code at the failing input).  With the empty specification
    [{}], whatever the traffic, both denominators are zero.  The
    percentage of the combinations is printed as [NaN%].  So is the
    percentage of the paths when no URL is the name of a member that every
    object inherits; a record with such a URL counts as a tested path, and
    the percentage of the paths is then printed as [Infinity%]. *)
Theorem empty_schema_percent_NaN now traffic :
  exists a,
    analyze (paths_or_empty (mkSchema None)) empty_analysis traffic = Some a
    /\ generateReport now (mkSchema None) traffic
       = Some (render now [] a (length traffic))
    /\ combos_tested_line a []
       = ("- **Method/Status Combinations Tested:** 0/0 (NaN%)" ++ nl)%string
    /\ ((forall record, In record traffic ->
           inherited (Js.first (Js.split "?" (url record))) = false) ->
        paths_tested_line a []
        = ("- **Paths Tested:** 0/0 (NaN%)" ++ nl)%string)
    /\ ((exists record, In record traffic
           /\ inherited (Js.first (Js.split "?" (url record))) = true) ->
        exists n,
          length (testedPaths a) = S n
          /\ paths_tested_line a []
             = ("- **Paths Tested:** " ++ Js.nat_to_string (S n)
                ++ "/0 (Infinity%)" ++ nl)%string).
Proof.
  destruct (analyze_empty_total traffic empty_analysis) as (a & Ha).
  exists a. split; [exact Ha|].
  split; [unfold generateReport; cbn [paths_or_empty paths]; rewrite Ha; reflexivity|].
  split; [reflexivity|].
  pose proof (analyze_model _ _ _ _ Ha) as Hm.
  pose proof (analyze_with_tested_paths_nil (matcher_of []) traffic empty_analysis)
    as Hnil.
  rewrite <- Hm in Hnil. cbn [empty_analysis testedPaths] in Hnil.
  split.
  - intros Hall. unfold paths_tested_line.
    assert (Ht : testedPaths a = []).
    { apply Hnil. split; [reflexivity|]. intros r Hin.
      rewrite falsy_matcher_of_empty, (Hall r Hin). reflexivity. }
    rewrite Ht. reflexivity.
  - intros (r & Hin & Hr). unfold paths_tested_line.
    destruct (testedPaths a) as [|p rest] eqn:Ht.
    + exfalso. destruct (proj1 Hnil eq_refl) as [_ Hall].
      specialize (Hall r Hin). rewrite falsy_matcher_of_empty, Hr in Hall.
      discriminate.
    + exists (length rest). split; reflexivity.
Qed.

End RenderFacts.

(** ** The auditor: sequencing, the log and its copy, the boundary of
    [teardown], the placeholder report *)

Section AuditorFacts.

Import Auditor.

Context {W : Type}.
Variable JSON_parse : string -> option JsValue.
Variable JSON_stringify : list Partial -> string.
Variable JSON_parse_traffic : string -> option (list TrafficRecord).
Variable JSON_parse_schema : string -> option SchemaDocument.
Variable now : string.
Variable options : @AuditorOptions W.

Implicit Type st : @State W.

(** Running a sequence. *)

Lemma bind_normal {A B : Type} (m : M A) (f : A -> M B) st a st' :
  m st = (Normal a, st') -> bind m f st = f a st'.
Proof. unfold bind. intros ->. reflexivity. Qed.

Lemma bind_throw {A B : Type} (m : M A) (f : A -> M B) st e st' :
  m st = (Throw e, st') -> bind m f st = (Throw e, st').
Proof. unfold bind. intros ->. reflexivity. Qed.

Lemma bind_unmodelled {A B : Type} (m : M A) (f : A -> M B) st st' :
  m st = (Unmodelled, st') -> bind m f st = (Unmodelled, st').
Proof. unfold bind. intros ->. reflexivity. Qed.

Lemma read_array_run st r l :
  arrays st !! r = Some l -> read_array r st = (Normal l, st).
Proof. unfold read_array. intros ->. reflexivity. Qed.

Lemma read_object_run st r o :
  objects st !! r = Some o -> read_object r st = (Normal o, st).
Proof. unfold read_object. intros ->. reflexivity. Qed.

(** The records that a list of references denotes in a heap. *)
Lemma read_objects_run st refs records :
  mapM (fun r => objects st !! r) refs = Some records ->
  read_objects refs st = (Normal records, st).
Proof.
  revert records. induction refs as [|r refs IH]; intros records H.
  - cbn in H. inversion H. reflexivity.
  - cbn in H. destruct (objects st !! r) as [o|] eqn:Ho; [|discriminate].
    cbn in H. destruct (mapM _ refs) as [os|] eqn:Hos; [|discriminate].
    cbn in H. inversion H; subst. cbn [read_objects].
    rewrite (bind_normal _ _ _ _ _ (read_object_run _ _ _ Ho)).
    rewrite (bind_normal _ _ _ _ _ (IH _ eq_refl)). reflexivity.
Qed.

Lemma this_traffic_run st refs records :
  arrays st !! traffic st = Some refs ->
  mapM (fun r => objects st !! r) refs = Some records ->
  this_traffic st = (Normal records, st).
Proof.
  intros Ha Ho. unfold this_traffic.
  rewrite (bind_normal get_state _ st st st eq_refl).
  rewrite (bind_normal _ _ _ _ _ (read_array_run _ _ _ Ha)).
  apply read_objects_run, Ho.
Qed.

(** C10.  When the log is empty, [writeTraffic] returns normally and leaves
    the storage, the heap and the fields of the auditor as they are: the
    file port is not called.  Its only trace is one line on the console. *)
Theorem writeTraffic_empty_noop testSuiteName st :
  arrays st !! traffic st = Some [] ->
  writeTraffic JSON_stringify options testSuiteName st
  = (Normal tt,
     set_console
       (console st ++ [Log ("No traffic to write for " ++ testSuiteName)%string]) st).
Proof.
  intros H. unfold writeTraffic, try_catch.
  rewrite (bind_normal _ _ _ _ _ (this_traffic_run _ _ [] H eq_refl)).
  reflexivity.
Qed.

Lemma fresh_array_not_allocated st :
  arrays st !! fresh (dom (arrays st)) = None.
Proof. apply not_elem_of_dom, is_fresh. Qed.

Lemma for_each_mutate_other (fs : list (list nat -> list nat)) r :
  forall st elements,
    arrays st !! r = Some elements ->
    exists st',
      for_each fs (array_mutate r) st = (Normal tt, st')
      /\ traffic st' = traffic st
      /\ objects st' = objects st
      /\ files st' = files st
      /\ (exists elements', arrays st' !! r = Some elements')
      /\ forall r', r' <> r -> arrays st' !! r' = arrays st !! r'.
Proof.
  induction fs as [|f fs IH]; intros st elements Hr.
  - eexists. split; [reflexivity|]. eauto 10.
  - cbn [for_each].
    assert (Hstep : array_mutate r f st
                    = (Normal tt, set_arrays (<[r := f elements]> (arrays st)) st)).
    { unfold array_mutate.
      rewrite (bind_normal _ _ _ _ _ (read_array_run _ _ _ Hr)). reflexivity. }
    rewrite (bind_normal _ _ _ _ _ Hstep).
    edestruct (IH (set_arrays (<[r := f elements]> (arrays st)) st) (f elements))
      as (st' & Hrun & Ht & Ho & Hf & He & Hother).
    { apply lookup_insert_eq. }
    exists st'. split; [exact Hrun|]. repeat split; try assumption.
    intros r' Hne. rewrite Hother by assumption. cbn.
    apply lookup_insert_ne. congruence.
Qed.

(** C9.  [getTraffic] returns a new array with the elements of the log;
    whatever in-place changes are then made to that array, the array held
    in [this.traffic] keeps its contents. *)
Theorem getTraffic_fresh_copy st log :
  arrays st !! traffic st = Some log ->
  exists copy st',
    getTraffic st = (Normal copy, st')
    /\ copy <> traffic st
    /\ arrays st' !! copy = Some log
    /\ traffic st' = traffic st
    /\ arrays st' !! traffic st' = Some log
    /\ forall mutations : list (list nat -> list nat),
         exists st'',
           for_each mutations (array_mutate copy) st' = (Normal tt, st'')
           /\ traffic st'' = traffic st
           /\ arrays st'' !! traffic st'' = Some log.
Proof.
  intros H. pose proof (fresh_array_not_allocated st) as Hfresh.
  assert (Hne : fresh (dom (arrays st)) <> traffic st) by congruence.
  exists (fresh (dom (arrays st))).
  exists (set_arrays (<[fresh (dom (arrays st)) := log]> (arrays st)) st). split.
  { unfold getTraffic. rewrite (bind_normal get_state _ st st st eq_refl).
    rewrite (bind_normal _ _ _ _ _ (read_array_run _ _ _ H)). reflexivity. }
  cbn. split; [assumption|].
  split; [apply lookup_insert_eq|].
  split; [reflexivity|].
  split; [rewrite lookup_insert_ne by assumption; exact H|].
  intros mutations.
  destruct (for_each_mutate_other mutations (fresh (dom (arrays st)))
              (set_arrays (<[fresh (dom (arrays st)) := log]> (arrays st)) st) log)
    as (st'' & Hrun & Ht & _ & _ & _ & Hother).
  { cbn. apply lookup_insert_eq. }
  exists st''. split; [exact Hrun|]. cbn in Ht. split; [exact Ht|].
  rewrite Ht, Hother by congruence. cbn.
  rewrite lookup_insert_ne by assumption. exact H.
Qed.


(** What a [catch] lets through. *)

Lemma try_catch_never_throws {A : Type} (body : @M W A) handler :
  (forall e, never_throws (handler e)) ->
  never_throws (try_catch body handler).
Proof.
  intros Hh st e. unfold try_catch.
  destruct (body st) as [[a|e'|] s]; cbn; try discriminate.
  apply Hh.
Qed.

Lemma bind_never_throws {A B : Type} (m : @M W A) (f : A -> @M W B) :
  never_throws m -> (forall a, never_throws (f a)) ->
  never_throws (bind m f).
Proof.
  intros Hm Hf st e. unfold bind. specialize (Hm st).
  destruct (m st) as [[a|e'|] s]; cbn in *.
  - apply Hf.
  - destruct (Hm e' eq_refl).
  - discriminate.
Qed.

Lemma console_log_never_throws msg : never_throws (W := W) (console_log msg).
Proof. intros st e. discriminate. Qed.

Lemma console_error_never_throws msg e :
  never_throws (W := W) (console_error msg e).
Proof. intros st e'. discriminate. Qed.

Lemma clearGeneratedDirectory_never_throws :
  never_throws (clearGeneratedDirectory options).
Proof.
  apply try_catch_never_throws. intros _ st e. discriminate.
Qed.

Lemma teardown_never_throws :
  never_throws
    (teardown JSON_stringify JSON_parse_traffic JSON_parse_schema now options).
Proof.
  unfold teardown.
  apply bind_never_throws; [apply console_log_never_throws|intros _].
  apply bind_never_throws; [|intros _; apply console_log_never_throws].
  apply try_catch_never_throws. intros e. apply console_error_never_throws.
Qed.

Lemma generateAuditReport_unreadable_schema st e w :
  readFile (fileOps options) (schemaPath options) (files st) = (Throw e, w) ->
  generateAuditReport JSON_parse_traffic JSON_parse_schema now options st
  = (Throw e, set_files w st).
Proof.
  intros H. unfold generateAuditReport. apply bind_throw.
  unfold port. rewrite H. reflexivity.
Qed.

Lemma generateAuditReport_unparsable_schema st content w :
  readFile (fileOps options) (schemaPath options) (files st) = (Normal content, w) ->
  JSON_parse_schema content = None ->
  generateAuditReport JSON_parse_traffic JSON_parse_schema now options st
  = (Throw "SyntaxError", set_files w st).
Proof.
  intros H Hp. unfold generateAuditReport.
  rewrite (bind_normal _ _ st content (set_files w st));
    [|unfold port; rewrite H; reflexivity].
  apply bind_throw. unfold parse_or_throw. rewrite Hp. reflexivity.
Qed.

(** C8.  When the schema file is read and parsed and the traffic files
    that are present hold no record in total, [generateAuditReport] returns
    the placeholder document, which says that no traffic data was found. *)
Theorem zero_traffic_placeholder st content w1 doc trafficFiles w2 s3 :
  readFile (fileOps options) (schemaPath options) (files st) = (Normal content, w1) ->
  JSON_parse_schema content = Some doc ->
  glob (fileOps options) (trafficDir options ++ "/*.json")%string
    (files (set_files w1 st)) = (Normal trafficFiles, w2) ->
  load_traffic JSON_parse_traffic options trafficFiles []
    (set_files w2 (set_files w1 st)) = (Normal [], s3) ->
  generateAuditReport JSON_parse_traffic JSON_parse_schema now options st
  = (Normal (Render.generateEmptyReport now), s3)
  /\ Render.generateEmptyReport now
     = ("# OpenAPI Traffic Audit Report" ++ Report.nl ++ Report.nl
        ++ "**Generated:** " ++ now ++ Report.nl ++ Report.nl
        ++ "⚠️ No traffic data found. Make sure integration tests are running with traffic recording enabled."
        ++ Report.nl)%string.
Proof.
  intros Hr Hp Hg Hl. split; [|reflexivity].
  unfold generateAuditReport.
  rewrite (bind_normal _ _ st content (set_files w1 st));
    [|unfold port; rewrite Hr; reflexivity].
  rewrite (bind_normal _ _ _ doc (set_files w1 st));
    [|unfold parse_or_throw; rewrite Hp; reflexivity].
  rewrite (bind_normal _ _ _ trafficFiles (set_files w2 (set_files w1 st)));
    [|unfold port; rewrite Hg; reflexivity].
  rewrite (bind_normal _ _ _ _ _ Hl). reflexivity.
Qed.

End AuditorFacts.

(** ** What the clean-up leaves on the console *)

Section QuietFacts.

Import Auditor.

Context {W : Type}.
Variable JSON_stringify : list Partial -> string.
Variable JSON_parse_traffic : string -> option (list TrafficRecord).
Variable JSON_parse_schema : string -> option SchemaDocument.
Variable now : string.
Variable options : @AuditorOptions W.
Implicit Type st : @State W.

Lemma quiet_ret {A : Type} (a : A) : logs_no_error (W := W) (ret a).
Proof.
  intros st r st' [= <- <-]. exists []. rewrite app_nil_r. auto.
Qed.

Lemma quiet_port {A : Type} (op : W -> Completion A * W) : logs_no_error (port op).
Proof.
  intros st r st'. unfold port. destruct (op (files st)) as [c w].
  intros [= <- <-]. exists []. cbn. rewrite app_nil_r. auto.
Qed.

Lemma quiet_console_log msg : logs_no_error (W := W) (console_log msg).
Proof.
  intros st r st' [= <- <-]. exists [Log msg]. cbn. split; [reflexivity|].
  repeat constructor.
Qed.

Lemma quiet_bind {A B : Type} (m : @M W A) (f : A -> @M W B) :
  logs_no_error m -> (forall a, logs_no_error (f a)) -> logs_no_error (bind m f).
Proof.
  intros Hm Hf st r st'. unfold bind.
  destruct (m st) as [[a|e|] s1] eqn:E; intros H.
  - destruct (Hm _ _ _ E) as (l1 & H1 & F1).
    destruct (Hf a _ _ _ H) as (l2 & H2 & F2).
    exists (l1 ++ l2). rewrite H2, H1, <- List.app_assoc.
    split; [reflexivity|]. apply Forall_app. auto.
  - inversion H; subst. eapply Hm, E.
  - inversion H; subst. eapply Hm, E.
Qed.

Lemma quiet_try_catch {A : Type} (body : @M W A) handler :
  logs_no_error body -> (forall e, logs_no_error (handler e)) ->
  logs_no_error (try_catch body handler).
Proof.
  intros Hb Hh st r st'. unfold try_catch.
  destruct (body st) as [[a|e|] s1] eqn:E; intros H.
  - inversion H; subst. eapply Hb, E.
  - destruct (Hb _ _ _ E) as (l1 & H1 & F1).
    destruct (Hh e _ _ _ H) as (l2 & H2 & F2).
    exists (l1 ++ l2). rewrite H2, H1, <- List.app_assoc.
    split; [reflexivity|]. apply Forall_app. auto.
  - inversion H; subst. eapply Hb, E.
Qed.

Lemma quiet_for_each {A : Type} (l : list A) (body : A -> @M W unit) :
  (forall x, logs_no_error (body x)) -> logs_no_error (for_each l body).
Proof.
  intros Hb. induction l as [|x l IH]; cbn [for_each].
  - apply quiet_ret.
  - apply quiet_bind; [apply Hb|intros _; exact IH].
Qed.

Lemma quiet_safeGlob pattern : logs_no_error (safeGlob options pattern).
Proof.
  apply quiet_try_catch; [apply quiet_port|intros _; apply quiet_ret].
Qed.

Lemma clearGeneratedDirectory_silent :
  logs_no_error (clearGeneratedDirectory options).
Proof.
  unfold clearGeneratedDirectory.
  apply quiet_try_catch; [|intros _; apply quiet_ret].
  apply quiet_bind; [apply quiet_safeGlob|intros schemaFiles].
  apply quiet_bind; [apply quiet_safeGlob|intros trafficFiles].
  apply quiet_bind; [apply quiet_safeGlob|intros reportFiles].
  destruct (0 <? length (schemaFiles ++ trafficFiles ++ reportFiles))%nat;
    [|apply quiet_ret].
  apply quiet_bind; [apply quiet_console_log|intros _].
  destruct (removeFile (fileOps options)); [|apply quiet_ret].
  apply quiet_for_each. intros file. apply quiet_port.
Qed.

(** What [teardown] leaves when its [try] block has raised. *)
Lemma teardown_caught st e s :
  teardown_body JSON_stringify JSON_parse_traffic JSON_parse_schema now options
    (teardown_started st) = (Throw e, s) ->
  teardown JSON_stringify JSON_parse_traffic JSON_parse_schema now options st
  = (Normal tt,
     set_console
       (console s ++ [LogError "❌ Failed to generate audit report:" e;
                      Log "🏁 Global teardown completed"]) s).
Proof.
  intros H. unfold teardown.
  rewrite (bind_normal (console_log _) _ st tt (teardown_started st) eq_refl).
  unfold bind, try_catch. rewrite H. cbn.
  unfold console_log, set_console. cbn. rewrite <- List.app_assoc. reflexivity.
Qed.

(** The run of the traffic half up to the first call of the port. *)
Lemma teardown_traffic_reaches_mkdir {B : Type} st refs records
    (k : unit -> @M W B) :
  arrays st !! traffic st = Some refs ->
  mapM (fun r => objects st !! r) refs = Some records ->
  records <> [] ->
  bind (teardown_traffic JSON_stringify options) k (teardown_started st)
  = bind
      (port (mkdir (fileOps options) (trafficDir options) true) ;;;
       port (writeFile (fileOps options)
               (trafficDir options ++ "/integration-tests-traffic.json")
               (JSON_stringify records)) ;;;
       console_log ("📊 Traffic data written: "
                    ++ (trafficDir options ++ "/integration-tests-traffic.json")
                    ++ " (" ++ Js.nat_to_string (length records) ++ " requests)"))
      k
      (set_console
         (console st
          ++ [Log "📊 Global teardown: Starting OpenAPI traffic audit...";
              Log (Js.nat_to_string (length records))]) st).
Proof.
  intros Ha Ho Hne. unfold teardown_traffic.
  assert (Hrun : this_traffic (teardown_started st)
                 = (Normal records, teardown_started st))
    by (apply (this_traffic_run _ refs); assumption).
  unfold bind at 1. unfold bind at 1. rewrite Hrun.
  unfold bind at 1. unfold console_log at 1.
  destruct records as [|r records]; [contradiction|].
  change (0 <? length (r :: records))%nat with true. cbv iota.
  unfold teardown_started, set_console. cbn [console files arrays objects traffic
                                               request_traffic].
  rewrite <- List.app_assoc. reflexivity.
Qed.

Lemma teardown_snapshot_directory_refused st refs records e w :
  arrays st !! traffic st = Some refs ->
  mapM (fun r => objects st !! r) refs = Some records ->
  records <> [] ->
  mkdir (fileOps options) (trafficDir options) true (files st) = (Throw e, w) ->
  teardown JSON_stringify JSON_parse_traffic JSON_parse_schema now options st
  = (Normal tt,
     set_console
       (console st
        ++ [Log "📊 Global teardown: Starting OpenAPI traffic audit...";
            Log (Js.nat_to_string (length records));
            LogError "❌ Failed to generate audit report:" e;
            Log "🏁 Global teardown completed"])
       (set_files w st)).
Proof.
  intros Ha Ho Hne Hmk.
  rewrite (teardown_caught st e
             (set_files w
                (set_console
                   (console st
                    ++ [Log "📊 Global teardown: Starting OpenAPI traffic audit...";
                        Log (Js.nat_to_string (length records))]) st))).
  - unfold set_console, set_files. cbn. rewrite <- List.app_assoc. reflexivity.
  - unfold teardown_body.
    rewrite (teardown_traffic_reaches_mkdir st refs records _ Ha Ho Hne).
    unfold bind, port. cbn [files set_console]. rewrite Hmk. reflexivity.
Qed.

Lemma teardown_snapshot_write_refused st refs records w1 e w :
  arrays st !! traffic st = Some refs ->
  mapM (fun r => objects st !! r) refs = Some records ->
  records <> [] ->
  mkdir (fileOps options) (trafficDir options) true (files st) = (Normal tt, w1) ->
  writeFile (fileOps options)
    (trafficDir options ++ "/integration-tests-traffic.json")
    (JSON_stringify records) w1 = (Throw e, w) ->
  teardown JSON_stringify JSON_parse_traffic JSON_parse_schema now options st
  = (Normal tt,
     set_console
       (console st
        ++ [Log "📊 Global teardown: Starting OpenAPI traffic audit...";
            Log (Js.nat_to_string (length records));
            LogError "❌ Failed to generate audit report:" e;
            Log "🏁 Global teardown completed"])
       (set_files w st)).
Proof.
  intros Ha Ho Hne Hmk Hwr.
  rewrite (teardown_caught st e
             (set_files w
                (set_console
                   (console st
                    ++ [Log "📊 Global teardown: Starting OpenAPI traffic audit...";
                        Log (Js.nat_to_string (length records))]) st))).
  - unfold set_console, set_files. cbn. rewrite <- List.app_assoc. reflexivity.
  - unfold teardown_body.
    rewrite (teardown_traffic_reaches_mkdir st refs records _ Ha Ho Hne).
    unfold bind, port. cbn [files set_console set_files]. rewrite Hmk.
    cbn [files set_console set_files]. rewrite Hwr. reflexivity.
Qed.

Lemma teardown_report_failure st s1 e s2 :
  teardown_traffic JSON_stringify options (teardown_started st) = (Normal tt, s1) ->
  generateAuditReport JSON_parse_traffic JSON_parse_schema now options s1
  = (Throw e, s2) ->
  teardown JSON_stringify JSON_parse_traffic JSON_parse_schema now options st
  = (Normal tt,
     set_console
       (console s2 ++ [LogError "❌ Failed to generate audit report:" e;
                       Log "🏁 Global teardown completed"]) s2).
Proof.
  intros Ht Hg. apply teardown_caught. unfold teardown_body.
  rewrite (bind_normal _ _ _ _ _ Ht). apply bind_throw, Hg.
Qed.

Lemma teardown_report_directory_refused st s1 report s2 e w :
  teardown_traffic JSON_stringify options (teardown_started st) = (Normal tt, s1) ->
  generateAuditReport JSON_parse_traffic JSON_parse_schema now options s1
  = (Normal report, s2) ->
  mkdir (fileOps options) (getDir (reportPath options)) true (files s2)
  = (Throw e, w) ->
  teardown JSON_stringify JSON_parse_traffic JSON_parse_schema now options st
  = (Normal tt,
     set_console
       (console s2 ++ [LogError "❌ Failed to generate audit report:" e;
                       Log "🏁 Global teardown completed"])
       (set_files w s2)).
Proof.
  intros Ht Hg Hmk.
  rewrite (teardown_caught st e (set_files w s2)); [reflexivity|].
  unfold teardown_body.
  rewrite (bind_normal _ _ _ _ _ Ht), (bind_normal _ _ _ _ _ Hg).
  apply bind_throw. unfold port. rewrite Hmk. reflexivity.
Qed.

Lemma teardown_report_write_refused st s1 report s2 w1 e w :
  teardown_traffic JSON_stringify options (teardown_started st) = (Normal tt, s1) ->
  generateAuditReport JSON_parse_traffic JSON_parse_schema now options s1
  = (Normal report, s2) ->
  mkdir (fileOps options) (getDir (reportPath options)) true (files s2)
  = (Normal tt, w1) ->
  writeFile (fileOps options) (reportPath options) report w1 = (Throw e, w) ->
  teardown JSON_stringify JSON_parse_traffic JSON_parse_schema now options st
  = (Normal tt,
     set_console
       (console s2 ++ [LogError "❌ Failed to generate audit report:" e;
                       Log "🏁 Global teardown completed"])
       (set_files w s2)).
Proof.
  intros Ht Hg Hmk Hwr.
  rewrite (teardown_caught st e (set_files w s2)); [reflexivity|].
  unfold teardown_body.
  rewrite (bind_normal _ _ _ _ _ Ht), (bind_normal _ _ _ _ _ Hg).
  rewrite (bind_normal _ _ s2 tt (set_files w1 s2));
    [|unfold port; rewrite Hmk; reflexivity].
  apply bind_throw. unfold port. cbn [files set_files]. rewrite Hwr. reflexivity.
Qed.

(** C5 (amended).  Clearing the generated files never raises and reports
    no error on the console: its failures are dropped silently.
    [teardown] never raises either.  When the storage refuses to create
    the traffic directory or to write the snapshot of a non-empty log,
    and when it refuses to create the directory of the report or to write
    the report, [teardown] returns normally and the console holds the
    refusal as an error, followed by the closing line.  A schema file
    that cannot be read or parsed makes [generateAuditReport] raise
    towards its caller instead of returning a document; inside [teardown]
    that failure is reported on the console in the same way. *)
Theorem failures_at_the_boundary st :
  (forall e, fst (clearGeneratedDirectory options st) <> Throw e)
  /\ logs_no_error (clearGeneratedDirectory options)
  /\ (forall e,
        fst (teardown JSON_stringify JSON_parse_traffic JSON_parse_schema now
               options st) <> Throw e)
  /\ (forall refs records e w,
        arrays st !! traffic st = Some refs ->
        mapM (fun r => objects st !! r) refs = Some records ->
        records <> [] ->
        mkdir (fileOps options) (trafficDir options) true (files st)
        = (Throw e, w) ->
        teardown JSON_stringify JSON_parse_traffic JSON_parse_schema now options st
        = (Normal tt,
           set_console
             (console st
              ++ [Log "📊 Global teardown: Starting OpenAPI traffic audit...";
                  Log (Js.nat_to_string (length records));
                  LogError "❌ Failed to generate audit report:" e;
                  Log "🏁 Global teardown completed"])
             (set_files w st)))
  /\ (forall refs records w1 e w,
        arrays st !! traffic st = Some refs ->
        mapM (fun r => objects st !! r) refs = Some records ->
        records <> [] ->
        mkdir (fileOps options) (trafficDir options) true (files st)
        = (Normal tt, w1) ->
        writeFile (fileOps options)
          (trafficDir options ++ "/integration-tests-traffic.json")
          (JSON_stringify records) w1 = (Throw e, w) ->
        teardown JSON_stringify JSON_parse_traffic JSON_parse_schema now options st
        = (Normal tt,
           set_console
             (console st
              ++ [Log "📊 Global teardown: Starting OpenAPI traffic audit...";
                  Log (Js.nat_to_string (length records));
                  LogError "❌ Failed to generate audit report:" e;
                  Log "🏁 Global teardown completed"])
             (set_files w st)))
  /\ (forall s1 report s2 e w,
        teardown_traffic JSON_stringify options (teardown_started st)
        = (Normal tt, s1) ->
        generateAuditReport JSON_parse_traffic JSON_parse_schema now options s1
        = (Normal report, s2) ->
        mkdir (fileOps options) (getDir (reportPath options)) true (files s2)
        = (Throw e, w) ->
        teardown JSON_stringify JSON_parse_traffic JSON_parse_schema now options st
        = (Normal tt,
           set_console
             (console s2 ++ [LogError "❌ Failed to generate audit report:" e;
                             Log "🏁 Global teardown completed"])
             (set_files w s2)))
  /\ (forall s1 report s2 w1 e w,
        teardown_traffic JSON_stringify options (teardown_started st)
        = (Normal tt, s1) ->
        generateAuditReport JSON_parse_traffic JSON_parse_schema now options s1
        = (Normal report, s2) ->
        mkdir (fileOps options) (getDir (reportPath options)) true (files s2)
        = (Normal tt, w1) ->
        writeFile (fileOps options) (reportPath options) report w1
        = (Throw e, w) ->
        teardown JSON_stringify JSON_parse_traffic JSON_parse_schema now options st
        = (Normal tt,
           set_console
             (console s2 ++ [LogError "❌ Failed to generate audit report:" e;
                             Log "🏁 Global teardown completed"])
             (set_files w s2)))
  /\ (forall e w,
        readFile (fileOps options) (schemaPath options) (files st) = (Throw e, w) ->
        generateAuditReport JSON_parse_traffic JSON_parse_schema now options st
        = (Throw e, set_files w st))
  /\ (forall content w,
        readFile (fileOps options) (schemaPath options) (files st)
        = (Normal content, w) ->
        JSON_parse_schema content = None ->
        generateAuditReport JSON_parse_traffic JSON_parse_schema now options st
        = (Throw "SyntaxError", set_files w st))
  /\ (forall s1 e s2,
        teardown_traffic JSON_stringify options (teardown_started st)
        = (Normal tt, s1) ->
        generateAuditReport JSON_parse_traffic JSON_parse_schema now options s1
        = (Throw e, s2) ->
        teardown JSON_stringify JSON_parse_traffic JSON_parse_schema now options st
        = (Normal tt,
           set_console
             (console s2 ++ [LogError "❌ Failed to generate audit report:" e;
                             Log "🏁 Global teardown completed"]) s2)).
Proof.
  split; [apply clearGeneratedDirectory_never_throws|].
  split; [apply clearGeneratedDirectory_silent|].
  split; [apply teardown_never_throws|].
  split; [apply teardown_snapshot_directory_refused|].
  split; [apply teardown_snapshot_write_refused|].
  split; [apply teardown_report_directory_refused|].
  split; [apply teardown_report_write_refused|].
  split; [apply generateAuditReport_unreadable_schema|].
  split; [apply generateAuditReport_unparsable_schema|].
  apply teardown_report_failure.
Qed.

End QuietFacts.

(** ** The recorder hooks *)

Section RecorderFacts.

Import Auditor.

Context {W : Type}.
Variable JSON_parse : string -> option JsValue.
Implicit Type st : @State W.

Lemma onRequest_run rq method url st :
  onRequest rq method url st
  = (Normal tt,
     set_request_traffic
       (<[rq := fresh (dom (objects st))]> (request_traffic st))
       (set_objects
          (<[fresh (dom (objects st)) := mkPartial method url VUndefined None None]>
             (objects st)) st)).
Proof. reflexivity. Qed.

Lemma preHandler_run_none rq body st :
  request_traffic st !! rq = None -> preHandler rq body st = (Normal tt, st).
Proof. unfold preHandler. intros ->. reflexivity. Qed.

Lemma preHandler_run rq body st r o :
  request_traffic st !! rq = Some r ->
  objects st !! r = Some o ->
  preHandler rq body st
  = (Normal tt,
     set_objects
       (<[r := mkPartial (p_method o) (p_url o) body (p_status o) (p_response o)]>
          (objects st)) st).
Proof.
  unfold preHandler. intros -> Ho.
  rewrite (bind_normal _ _ _ _ _ (read_object_run _ _ _ Ho)). reflexivity.
Qed.

Lemma onSend_run_none rq statusCode payload st :
  request_traffic st !! rq = None ->
  onSend JSON_parse rq statusCode payload st = (Normal tt, st).
Proof. unfold onSend. intros ->. reflexivity. Qed.

Lemma onSend_run rq statusCode payload st r o l :
  request_traffic st !! rq = Some r ->
  objects st !! r = Some o ->
  arrays st !! traffic st = Some l ->
  onSend JSON_parse rq statusCode payload st
  = (Normal tt,
     set_arrays (<[traffic st := l ++ [r]]> (arrays st))
       (set_objects
          (<[r := mkPartial (p_method o) (p_url o) (p_request o) (Some statusCode)
                    (Some (parseResponsePayload JSON_parse payload))]>
             (objects st)) st)).
Proof.
  unfold onSend. intros -> Ho Hl.
  rewrite (bind_normal _ _ _ _ _ (read_object_run _ _ _ Ho)).
  unfold bind at 1. unfold write_object at 1.
  erewrite (bind_normal (read_object r));
    [|apply read_object_run; cbn; apply lookup_insert_eq].
  unfold bind at 1. unfold write_object at 1.
  unfold traffic_push, array_push, array_mutate. cbn [traffic set_objects].
  erewrite (bind_normal (read_array _)); [|apply read_array_run; exact Hl].
  cbn. rewrite insert_insert_eq. reflexivity.
Qed.


Lemma fresh_object_not_allocated st :
  objects st !! fresh (dom (objects st)) = None.
Proof. apply not_elem_of_dom, is_fresh. Qed.

Lemma existsb_eqb_In rq l : existsb (Nat.eqb rq) l = true <-> In rq l.
Proof.
  rewrite existsb_exists. split.
  - intros (x & Hx & He). apply Nat.eqb_eq in He. subst. assumption.
  - intros H. exists rq. split; [assumption|apply Nat.eqb_refl].
Qed.

Lemma inv_onRequest rq method url st log0 appended drafted sent :
  recorder_inv st log0 appended drafted sent ->
  exists st',
    onRequest rq method url st = (Normal tt, st')
    /\ traffic st' = traffic st
    /\ recorder_inv st' log0 appended (rq :: drafted) sent.
Proof.
  intros [Hlog Hdr Hal Hinj Hfin Hsent].
  pose proof (fresh_object_not_allocated st) as Hfresh.
  eexists. split; [apply onRequest_run|]. split; [reflexivity|].
  split; cbn.
  - exact Hlog.
  - intros rq'. destruct (decide (rq = rq')) as [<-|Hne].
    + rewrite lookup_insert_eq. split; [eauto|]. intros _. left. reflexivity.
    + rewrite lookup_insert_ne by assumption. rewrite <- Hdr.
      split; [intros [?|?]; [congruence|assumption]|right; assumption].
  - intros rq' r. destruct (decide (rq = rq')) as [<-|Hne].
    + rewrite lookup_insert_eq. intros [= <-]. rewrite lookup_insert_eq. eauto.
    + rewrite lookup_insert_ne by assumption. intros H.
      destruct (Hal _ _ H) as [o Ho].
      rewrite lookup_insert_ne by congruence. eauto.
  - intros rq1 rq2 r.
    destruct (decide (rq = rq1)) as [<-|H1], (decide (rq = rq2)) as [<-|H2];
      rewrite ?lookup_insert_eq, ?lookup_insert_ne by assumption.
    + reflexivity.
    + intros [= <-] H. destruct (Hal _ _ H) as [o Ho]. congruence.
    + intros H [= <-]. destruct (Hal _ _ H) as [o Ho]. congruence.
    + apply Hinj.
  - intros r Hin. destruct (Hfin r Hin) as (o & Ho & Hf).
    exists o. split; [|assumption].
    rewrite lookup_insert_ne by congruence. assumption.
  - intros rq' r. destruct (decide (rq = rq')) as [<-|Hne].
    + rewrite lookup_insert_eq. intros [= <-] Hin.
      destruct (Hfin _ Hin) as (o & Ho & _). congruence.
    + rewrite lookup_insert_ne by assumption. apply Hsent.
Qed.

Lemma inv_preHandler rq body st log0 appended drafted sent :
  recorder_inv st log0 appended drafted sent ->
  exists st',
    preHandler rq body st = (Normal tt, st')
    /\ traffic st' = traffic st
    /\ recorder_inv st' log0 appended drafted sent.
Proof.
  intros Hinv. destruct (request_traffic st !! rq) as [r|] eqn:Hr.
  - destruct Hinv as [Hlog Hdr Hal Hinj Hfin Hsent].
    destruct (Hal _ _ Hr) as [o Ho].
    eexists. split; [apply (preHandler_run _ _ _ _ _ Hr Ho)|].
    split; [reflexivity|]. split; cbn; try assumption.
    + intros rq' r' H. destruct (Hal _ _ H) as [o' Ho'].
      destruct (decide (r = r')) as [<-|Hne].
      * rewrite lookup_insert_eq. eauto.
      * rewrite lookup_insert_ne by assumption. eauto.
    + intros r' Hin. destruct (Hfin _ Hin) as (o' & Ho' & Hf).
      destruct (decide (r = r')) as [<-|Hne].
      * rewrite lookup_insert_eq. eexists. split; [reflexivity|].
        assert (o' = o) by congruence. subst o'. exact Hf.
      * rewrite lookup_insert_ne by assumption. eauto.
  - exists st. split; [apply preHandler_run_none, Hr|]. auto.
Qed.

Lemma inv_onSend rq statusCode payload st log0 appended drafted sent :
  recorder_inv st log0 appended drafted sent ->
  exists st',
    onSend JSON_parse rq statusCode payload st = (Normal tt, st')
    /\ traffic st' = traffic st
    /\ if existsb (Nat.eqb rq) drafted
       then exists r,
              recorder_inv st' log0 (appended ++ [r]) drafted (sent ++ [rq])
              /\ (~ In rq sent -> ~ In r appended)
       else recorder_inv st' log0 appended drafted sent.
Proof.
  intros Hinv. destruct (request_traffic st !! rq) as [r|] eqn:Hr.
  - destruct Hinv as [Hlog Hdr Hal Hinj Hfin Hsent].
    destruct (Hal _ _ Hr) as [o Ho].
    assert (Hd : existsb (Nat.eqb rq) drafted = true).
    { apply existsb_eqb_In, Hdr. eauto. }
    rewrite Hd.
    eexists. split; [apply (onSend_run _ _ _ _ _ _ _ Hr Ho Hlog)|].
    split; [reflexivity|]. exists r. split.
    + split; cbn.
      * rewrite lookup_insert_eq, app_assoc. reflexivity.
      * exact Hdr.
      * intros rq' r' H. destruct (Hal _ _ H) as [o' Ho'].
        destruct (decide (r = r')) as [<-|Hne].
        -- rewrite lookup_insert_eq. eauto.
        -- rewrite lookup_insert_ne by assumption. eauto.
      * exact Hinj.
      * intros r' Hin. destruct (decide (r = r')) as [<-|Hne].
        -- rewrite lookup_insert_eq. eexists. split; [reflexivity|].
           split; cbn; eauto.
        -- rewrite lookup_insert_ne by assumption.
           apply in_app_or in Hin as [Hin|[Heq|[]]]; [|congruence].
           apply Hfin, Hin.
      * intros rq' r' H Hin. apply in_or_app.
        apply in_app_or in Hin as [Hin|[Heq|[]]].
        -- left. eapply Hsent; eassumption.
        -- right. left. subst r'. eapply Hinj; eassumption.
    + intros Hns Hin. apply Hns. eapply Hsent; eassumption.
  - assert (Hd : existsb (Nat.eqb rq) drafted = false).
    { destruct (existsb (Nat.eqb rq) drafted) eqn:E; [|reflexivity].
      apply existsb_eqb_In, (inv_drafted _ _ _ _ _ Hinv) in E.
      rewrite Hr in E. destruct E. discriminate. }
    rewrite Hd. exists st. split; [apply onSend_run_none, Hr|]. auto.
Qed.

Lemma fire_all_inv events :
  forall st log0 appended drafted sent,
    recorder_inv st log0 appended drafted sent ->
    exists st' new,
      fire_all JSON_parse events st = (Normal tt, st')
      /\ traffic st' = traffic st
      /\ recorder_inv st' log0 (appended ++ new) (drafted_by drafted events)
           (sent ++ recorded_sends drafted events)
      /\ length new = length (recorded_sends drafted events)
      /\ (NoDup appended -> NoDup (sent ++ recorded_sends drafted events) ->
          NoDup (appended ++ new)).
Proof.
  unfold fire_all.
  induction events as [|ev events IH]; intros st log0 appended drafted sent Hinv.
  - exists st, []. cbn. rewrite !app_nil_r. auto.
  - cbn [for_each]. destruct ev as [rq m u|rq body|rq sc payload]; cbn [fire recorded_sends drafted_by].
    + destruct (inv_onRequest rq m u _ _ _ _ _ Hinv) as (s1 & Hrun & Ht & Hinv1).
      rewrite (bind_normal _ _ _ _ _ Hrun).
      destruct (IH _ _ _ _ _ Hinv1) as (st' & new & Hrun' & Ht' & Hinv' & Hlen & Hnd).
      exists st', new. rewrite Ht', Ht. auto.
    + destruct (inv_preHandler rq body _ _ _ _ _ Hinv) as (s1 & Hrun & Ht & Hinv1).
      rewrite (bind_normal _ _ _ _ _ Hrun).
      destruct (IH _ _ _ _ _ Hinv1) as (st' & new & Hrun' & Ht' & Hinv' & Hlen & Hnd).
      exists st', new. rewrite Ht', Ht. auto.
    + destruct (inv_onSend rq sc payload _ _ _ _ _ Hinv) as (s1 & Hrun & Ht & Hcase).
      rewrite (bind_normal _ _ _ _ _ Hrun).
      destruct (existsb (Nat.eqb rq) drafted).
      * destruct Hcase as (r & Hinv1 & Hfresh).
        destruct (IH _ _ _ _ _ Hinv1)
          as (st' & new & Hrun' & Ht' & Hinv' & Hlen & Hnd).
        exists st', (r :: new).
        assert (E1 : (appended ++ [r]) ++ new = appended ++ r :: new)
          by (rewrite <- List.app_assoc; reflexivity).
        assert (E2 : (sent ++ [rq]) ++ recorded_sends drafted events
                     = sent ++ rq :: recorded_sends drafted events)
          by (rewrite <- List.app_assoc; reflexivity).
        rewrite E1, E2 in Hinv'.
        split; [exact Hrun'|]. split; [congruence|]. split; [exact Hinv'|].
        split; [cbn; congruence|].
        intros Hnd1 Hnd2. rewrite <- E1. rewrite <- E2 in Hnd2.
        apply Hnd; [|exact Hnd2].
        assert (Hrq : ~ In rq sent).
        { apply NoDup_app in Hnd2 as (Hnd2 & _ & _).
          apply NoDup_app in Hnd2 as (_ & Hdis & _).
          intros Hin. apply (Hdis rq); [apply list_elem_of_In; assumption|].
          apply list_elem_of_In. left. reflexivity. }
        apply NoDup_app. split; [exact Hnd1|].
        split; [|apply NoDup_singleton].
        intros x Hx Hx'. apply list_elem_of_In in Hx, Hx'.
        destruct Hx' as [<-|[]]. exact (Hfresh Hrq Hx).
      * destruct (IH _ _ _ _ _ Hcase)
          as (st' & new & Hrun' & Ht' & Hinv' & Hlen & Hnd).
        exists st', new. rewrite Ht', Ht. auto.
Qed.

Lemma fire_all_app events1 events2 st s1 :
  fire_all JSON_parse events1 st = (Normal tt, s1) ->
  fire_all JSON_parse (events1 ++ events2) st = fire_all JSON_parse events2 s1.
Proof.
  unfold fire_all. revert st.
  induction events1 as [|ev events1 IH]; intros st; cbn [for_each app].
  - intros [= <-]. reflexivity.
  - unfold bind. destruct (fire JSON_parse ev st) as [[[]|e|] s]; try discriminate.
    apply IH.
Qed.

Lemma drafted_by_grows events :
  forall drafted rq, In rq drafted -> In rq (drafted_by drafted events).
Proof.
  induction events as [|[rq' m u|rq' body|rq' sc payload] events IH];
    intros drafted rq H; cbn [drafted_by]; auto.
  apply IH. right. assumption.
Qed.

Lemma drafted_by_request events :
  forall drafted rq method url,
    In (OnRequest rq method url) events -> In rq (drafted_by drafted events).
Proof.
  induction events as [|ev events IH]; intros drafted rq method url H;
    [destruct H|destruct H as [->|H]].
  - cbn [drafted_by]. apply drafted_by_grows. left. reflexivity.
  - destruct ev; cbn [drafted_by]; eapply IH; eassumption.
Qed.

Lemma quiescent_inv st log0 :
  request_traffic st = ∅ ->
  arrays st !! traffic st = Some log0 ->
  recorder_inv st log0 [] [] [].
Proof.
  intros Hq Hlog.
  split; rewrite ?app_nil_r, ?Hq; try assumption.
  - intros rq. rewrite lookup_empty. split; [intros []|intros [? ?]; discriminate].
  - intros rq r. rewrite lookup_empty. discriminate.
  - intros rq1 rq2 r. rewrite lookup_empty. discriminate.
  - intros r [].
  - intros rq r. rewrite lookup_empty. discriminate.
Qed.

(** *** The heap against the numbered drafts *)

Lemma sim_allocated st log0 appended refs s i r :
  simulates st log0 appended refs s ->
  refs !! i = Some r -> is_Some (objects st !! r).
Proof.
  intros Hsim Hr. rewrite (sim_objects _ _ _ _ _ Hsim _ _ Hr).
  apply lookup_lt_is_Some. rewrite <- (sim_length _ _ _ _ _ Hsim).
  apply (lookup_lt_Some _ _ _ Hr).
Qed.

Lemma sim_draft st log0 appended refs s rq r :
  simulates st log0 appended refs s ->
  request_traffic st !! rq = Some r ->
  exists i o,
    rec_current s !! rq = Some i /\ refs !! i = Some r
    /\ objects st !! r = Some o /\ rec_drafts s !! i = Some o.
Proof.
  intros Hsim Hr. rewrite (sim_current _ _ _ _ _ Hsim) in Hr.
  destruct (rec_current s !! rq) as [i|] eqn:Hi; [|discriminate].
  cbn in Hr. destruct (sim_allocated _ _ _ _ _ _ _ Hsim Hr) as [o Ho].
  exists i, o. split; [reflexivity|]. split; [assumption|].
  split; [assumption|]. rewrite <- (sim_objects _ _ _ _ _ Hsim _ _ Hr). assumption.
Qed.

Lemma sim_no_draft st log0 appended refs s rq :
  simulates st log0 appended refs s ->
  request_traffic st !! rq = None -> rec_current s !! rq = None.
Proof.
  intros Hsim Hr. rewrite (sim_current _ _ _ _ _ Hsim) in Hr.
  destruct (rec_current s !! rq) as [i|] eqn:Hi; [|reflexivity].
  cbn in Hr. destruct (lookup_lt_is_Some_2 refs i) as [r Hri].
  - eapply sim_bound; eassumption.
  - congruence.
Qed.

(** Changing the draft numbered [i], held at [r]. *)
Lemma sim_alter st log0 appended refs s i r o f :
  simulates st log0 appended refs s ->
  refs !! i = Some r ->
  objects st !! r = Some o ->
  simulates (set_objects (<[r := f o]> (objects st)) st) log0 appended refs
    (mkRecorded (alter f i (rec_drafts s)) (rec_current s) (rec_pushed s)).
Proof.
  intros Hsim Hr Ho. destruct Hsim as [Hlog Hpu Hnd Hlen Hobj Hcur Hb].
  split; cbn; try assumption.
  - rewrite length_alter. assumption.
  - intros j r' Hj. destruct (decide (i = j)) as [<-|Hne].
    + assert (r' = r) by congruence. subst r'.
      rewrite lookup_insert_eq, list_lookup_alter_eq, <- (Hobj _ _ Hr), Ho.
      reflexivity.
    + rewrite list_lookup_alter_ne by assumption.
      rewrite lookup_insert_ne; [apply Hobj, Hj|].
      intros <-. apply Hne. eapply NoDup_lookup; eassumption.
Qed.

Lemma sim_onRequest rq method url st log0 appended refs s :
  simulates st log0 appended refs s ->
  exists st' r,
    onRequest rq method url st = (Normal tt, st')
    /\ traffic st' = traffic st
    /\ simulates st' log0 appended (refs ++ [r])
         (record_event JSON_parse s (OnRequest rq method url)).
Proof.
  intros Hsim. pose proof (fresh_object_not_allocated st) as Hfresh.
  assert (Hnew : forall i, refs !! i = Some (fresh (dom (objects st))) -> False).
  { intros i Hi. destruct (sim_allocated _ _ _ _ _ _ _ Hsim Hi) as [o Ho].
    congruence. }
  destruct Hsim as [Hlog Hpu Hnd Hlen Hobj Hcur Hb].
  eexists. exists (fresh (dom (objects st))).
  split; [apply onRequest_run|]. split; [reflexivity|].
  split; cbn.
  - exact Hlog.
  - eapply Forall2_impl; [exact Hpu|]. intros i r Hi.
    apply lookup_app_l_Some, Hi.
  - apply NoDup_app. split; [assumption|]. split; [|apply NoDup_singleton].
    intros r Hin Hr. apply list_elem_of_singleton in Hr. subst r.
    apply list_elem_of_lookup in Hin as [i Hi]. exact (Hnew i Hi).
  - rewrite !length_app, Hlen. reflexivity.
  - intros i r Hi. apply lookup_snoc_Some in Hi as [[Hlt Hi]|[-> <-]].
    + rewrite lookup_insert_ne by (intros <-; exact (Hnew i Hi)).
      rewrite lookup_app_l by (rewrite <- Hlen; assumption).
      apply Hobj, Hi.
    + rewrite lookup_insert_eq, Hlen, list_lookup_middle; reflexivity.
  - intros rq'. destruct (decide (rq = rq')) as [<-|Hne].
    + rewrite !lookup_insert_eq. cbn. rewrite <- Hlen.
      rewrite list_lookup_middle; reflexivity.
    + rewrite !lookup_insert_ne by assumption. rewrite Hcur.
      destruct (rec_current s !! rq') as [i|] eqn:Hi; [|reflexivity]. cbn.
      rewrite lookup_app_l by (eapply Hb; eassumption). reflexivity.
  - intros rq' i. rewrite length_app. cbn [length].
    destruct (decide (rq = rq')) as [<-|Hne].
    + rewrite lookup_insert_eq. intros [= <-]. lia.
    + rewrite lookup_insert_ne by assumption. intros Hi.
      specialize (Hb _ _ Hi). lia.
Qed.

Lemma sim_preHandler rq body st log0 appended refs s :
  simulates st log0 appended refs s ->
  exists st',
    preHandler rq body st = (Normal tt, st')
    /\ traffic st' = traffic st
    /\ simulates st' log0 appended refs
         (record_event JSON_parse s (PreHandler rq body)).
Proof.
  intros Hsim. cbn [record_event].
  destruct (request_traffic st !! rq) as [r|] eqn:Hr.
  - destruct (sim_draft _ _ _ _ _ _ _ Hsim Hr) as (i & o & Hi & Hri & Ho & _).
    rewrite Hi. eexists. split; [apply (preHandler_run _ _ _ _ _ Hr Ho)|].
    split; [reflexivity|].
    apply (sim_alter _ _ _ _ _ _ _ _ (with_body body) Hsim Hri Ho).
  - rewrite (sim_no_draft _ _ _ _ _ _ Hsim Hr).
    exists st. split; [apply preHandler_run_none, Hr|]. auto.
Qed.

Lemma sim_onSend rq statusCode payload st log0 appended refs s :
  simulates st log0 appended refs s ->
  exists st' new,
    onSend JSON_parse rq statusCode payload st = (Normal tt, st')
    /\ traffic st' = traffic st
    /\ simulates st' log0 (appended ++ new) refs
         (record_event JSON_parse s (OnSend rq statusCode payload)).
Proof.
  intros Hsim. cbn [record_event].
  destruct (request_traffic st !! rq) as [r|] eqn:Hr.
  - destruct (sim_draft _ _ _ _ _ _ _ Hsim Hr) as (i & o & Hi & Hri & Ho & _).
    rewrite Hi. eexists. exists [r].
    split; [apply (onSend_run _ _ _ _ _ _ _ Hr Ho (sim_log _ _ _ _ _ Hsim))|].
    split; [reflexivity|].
    pose proof (sim_alter _ _ _ _ _ _ _ _
                  (with_reply statusCode (parseResponsePayload JSON_parse payload))
                  Hsim Hri Ho) as [Hlog Hpu Hnd Hlen Hobj Hcur Hb].
    split; cbn in *; try assumption.
    + rewrite lookup_insert_eq, List.app_assoc. reflexivity.
    + apply Forall2_app; [assumption|]. constructor; [assumption|constructor].
  - rewrite (sim_no_draft _ _ _ _ _ _ Hsim Hr).
    exists st, []. split; [apply onSend_run_none, Hr|]. rewrite app_nil_r. auto.
Qed.

Lemma fire_all_sim events :
  forall st log0 appended refs s,
    simulates st log0 appended refs s ->
    exists st' new refs',
      fire_all JSON_parse events st = (Normal tt, st')
      /\ traffic st' = traffic st
      /\ simulates st' log0 (appended ++ new) (refs ++ refs')
           (fold_left (record_event JSON_parse) events s).
Proof.
  unfold fire_all.
  induction events as [|ev events IH]; intros st log0 appended refs s Hsim.
  - exists st, [], []. cbn. rewrite !app_nil_r. auto.
  - cbn [for_each fold_left].
    destruct ev as [rq m u|rq body|rq sc payload]; cbn [fire].
    + destruct (sim_onRequest rq m u _ _ _ _ _ Hsim) as (s1 & r & Hrun & Ht & Hsim1).
      rewrite (bind_normal _ _ _ _ _ Hrun).
      destruct (IH _ _ _ _ _ Hsim1) as (st' & new & refs' & Hrun' & Ht' & Hsim').
      exists st', new, (r :: refs'). rewrite <- List.app_assoc in Hsim'.
      split; [exact Hrun'|]. split; [congruence|exact Hsim'].
    + destruct (sim_preHandler rq body _ _ _ _ _ Hsim) as (s1 & Hrun & Ht & Hsim1).
      rewrite (bind_normal _ _ _ _ _ Hrun).
      destruct (IH _ _ _ _ _ Hsim1) as (st' & new & refs' & Hrun' & Ht' & Hsim').
      exists st', new, refs'. split; [exact Hrun'|]. split; [congruence|exact Hsim'].
    + destruct (sim_onSend rq sc payload _ _ _ _ _ Hsim)
        as (s1 & new1 & Hrun & Ht & Hsim1).
      rewrite (bind_normal _ _ _ _ _ Hrun).
      destruct (IH _ _ _ _ _ Hsim1) as (st' & new & refs' & Hrun' & Ht' & Hsim').
      exists st', (new1 ++ new), refs'. rewrite <- List.app_assoc in Hsim'.
      split; [exact Hrun'|]. split; [congruence|exact Hsim'].
Qed.

Lemma quiescent_sim st log0 :
  request_traffic st = ∅ ->
  arrays st !! traffic st = Some log0 ->
  simulates st log0 [] [] (mkRecorded [] ∅ []).
Proof.
  intros Hq Hlog. split; cbn; rewrite ?app_nil_r; try assumption.
  - constructor.
  - constructor.
  - reflexivity.
  - intros i r H. discriminate.
  - intros rq. rewrite Hq, !lookup_empty. reflexivity.
  - intros rq i. rewrite lookup_empty. discriminate.
Qed.

(** *** One exchange, and a repeated firing, after any history *)

Lemma exchange_after st log0 pre rq method url body statusCode payload :
  request_traffic st = ∅ ->
  arrays st !! traffic st = Some log0 ->
  exists s1 appended st' r,
    fire_all JSON_parse pre st = (Normal tt, s1)
    /\ arrays s1 !! traffic s1 = Some (log0 ++ appended)
    /\ fire_all JSON_parse
         (pre ++ [OnRequest rq method url; PreHandler rq body;
                  OnSend rq statusCode payload]) st
       = (Normal tt, st')
    /\ traffic st' = traffic s1
    /\ arrays st' !! traffic st' = Some (log0 ++ appended ++ [r])
    /\ ~ In r appended
    /\ objects st' !! r
       = Some (mkPartial method url body (Some statusCode)
                 (Some (parseResponsePayload JSON_parse payload))).
Proof.
  intros Hq Hlog.
  destruct (fire_all_inv pre _ _ _ _ _ (quiescent_inv _ _ Hq Hlog))
    as (s1 & appended & Hrun & Ht & Hinv & _ & _).
  cbn [app] in Hinv.
  exists s1, appended. eexists. exists (fresh (dom (objects s1))).
  split; [exact Hrun|]. split; [apply (inv_log _ _ _ _ _ Hinv)|].
  rewrite (fire_all_app _ _ _ _ Hrun). unfold fire_all. cbn [for_each fire].
  rewrite (bind_normal _ _ _ _ _ (onRequest_run rq method url s1)).
  erewrite (bind_normal (preHandler rq body));
    [|eapply preHandler_run; cbn; apply lookup_insert_eq].
  erewrite (bind_normal (onSend JSON_parse rq statusCode payload));
    [|eapply onSend_run; cbn;
      [apply lookup_insert_eq|apply lookup_insert_eq|apply (inv_log _ _ _ _ _ Hinv)]].
  split; [reflexivity|]. cbn. split; [reflexivity|].
  split; [rewrite lookup_insert_eq, List.app_assoc; reflexivity|].
  split.
  - intros Hin. destruct (inv_final _ _ _ _ _ Hinv _ Hin) as (o & Ho & _).
    rewrite fresh_object_not_allocated in Ho. discriminate.
  - rewrite lookup_insert_eq. reflexivity.
Qed.

Lemma repeated_send_after st log0 pre rq method url sc payload sc' payload' :
  request_traffic st = ∅ ->
  arrays st !! traffic st = Some log0 ->
  In (OnRequest rq method url) pre ->
  exists s1 appended st' r o,
    fire_all JSON_parse pre st = (Normal tt, s1)
    /\ arrays s1 !! traffic s1 = Some (log0 ++ appended)
    /\ request_traffic s1 !! rq = Some r
    /\ objects s1 !! r = Some o
    /\ fire_all JSON_parse (pre ++ [OnSend rq sc payload; OnSend rq sc' payload']) st
       = (Normal tt, st')
    /\ traffic st' = traffic s1
    /\ arrays st' !! traffic st' = Some (log0 ++ appended ++ [r; r])
    /\ objects st' !! r
       = Some (with_reply sc' (parseResponsePayload JSON_parse payload') o).
Proof.
  intros Hq Hlog Hin.
  destruct (fire_all_inv pre _ _ _ _ _ (quiescent_inv _ _ Hq Hlog))
    as (s1 & appended & Hrun & Ht & Hinv & _ & _).
  cbn [app] in Hinv.
  destruct (proj1 (inv_drafted _ _ _ _ _ Hinv rq)
              (drafted_by_request _ _ _ _ _ Hin)) as [r Hr].
  destruct (inv_allocated _ _ _ _ _ Hinv _ _ Hr) as [o Ho].
  exists s1, appended. eexists. exists r, o.
  split; [exact Hrun|]. split; [apply (inv_log _ _ _ _ _ Hinv)|].
  split; [exact Hr|]. split; [exact Ho|].
  rewrite (fire_all_app _ _ _ _ Hrun). unfold fire_all. cbn [for_each fire].
  rewrite (bind_normal _ _ _ _ _
             (onSend_run rq sc payload _ _ _ _ Hr Ho (inv_log _ _ _ _ _ Hinv))).
  erewrite (bind_normal (onSend JSON_parse rq sc' payload'));
    [|eapply onSend_run; cbn;
      [exact Hr|apply lookup_insert_eq|apply lookup_insert_eq]].
  split; [reflexivity|]. cbn. split; [reflexivity|].
  split; [rewrite lookup_insert_eq, <- !List.app_assoc; reflexivity|].
  rewrite lookup_insert_eq. reflexivity.
Qed.

(** C7 (amended).  Start with no request in flight.  Whatever hooks the
    server fires, the log grows by exactly one record for each firing of
    [onSend] on a request that went through [onRequest], and by nothing
    else; every record appended carries a status and a response; when no
    request has its [onSend] fired twice, no record is appended twice; and
    the records are those of the recorder without the heap: under a
    numbering of the drafts by distinct references, the log holds the
    numbers pushed there and every draft holds the fields it has there.
    After any history, the hooks of one exchange fired in a row append one
    new record, made of the method and URL of [onRequest], the body of
    [preHandler] and the status and parsed payload of [onSend].  After any
    history that drafted a request, two firings of [onSend] for it append
    its draft twice, the very same object, which holds the status and the
    payload of the second firing. *)
Theorem one_record_per_send_firing st log0 :
  request_traffic st = ∅ ->
  arrays st !! traffic st = Some log0 ->
  (forall events,
     exists st' appended refs,
       fire_all JSON_parse events st = (Normal tt, st')
       /\ traffic st' = traffic st
       /\ arrays st' !! traffic st' = Some (log0 ++ appended)
       /\ length appended = length (recorded_sends [] events)
       /\ (forall r, In r appended ->
             exists o, objects st' !! r = Some o /\ is_final o)
       /\ (NoDup (recorded_sends [] events) -> NoDup appended)
       /\ NoDup refs
       /\ length refs = length (rec_drafts (record_all JSON_parse events))
       /\ Forall2 (fun i r => refs !! i = Some r)
            (rec_pushed (record_all JSON_parse events)) appended
       /\ (forall i r, refs !! i = Some r ->
             objects st' !! r = rec_drafts (record_all JSON_parse events) !! i))
  /\ (forall pre rq method url body statusCode payload,
        exists s1 appended st' r,
          fire_all JSON_parse pre st = (Normal tt, s1)
          /\ arrays s1 !! traffic s1 = Some (log0 ++ appended)
          /\ fire_all JSON_parse
               (pre ++ [OnRequest rq method url; PreHandler rq body;
                        OnSend rq statusCode payload]) st
             = (Normal tt, st')
          /\ traffic st' = traffic s1
          /\ arrays st' !! traffic st' = Some (log0 ++ appended ++ [r])
          /\ ~ In r appended
          /\ objects st' !! r
             = Some (mkPartial method url body (Some statusCode)
                       (Some (parseResponsePayload JSON_parse payload))))
  /\ (forall pre rq method url sc payload sc' payload',
        In (OnRequest rq method url) pre ->
        exists s1 appended st' r o,
          fire_all JSON_parse pre st = (Normal tt, s1)
          /\ arrays s1 !! traffic s1 = Some (log0 ++ appended)
          /\ request_traffic s1 !! rq = Some r
          /\ objects s1 !! r = Some o
          /\ fire_all JSON_parse
               (pre ++ [OnSend rq sc payload; OnSend rq sc' payload']) st
             = (Normal tt, st')
          /\ traffic st' = traffic s1
          /\ arrays st' !! traffic st' = Some (log0 ++ appended ++ [r; r])
          /\ objects st' !! r
             = Some (with_reply sc' (parseResponsePayload JSON_parse payload') o)).
Proof.
  intros Hq Hlog. split; [|split].
  - intros events.
    destruct (fire_all_inv events _ _ _ _ _ (quiescent_inv _ _ Hq Hlog))
      as (st' & new & Hrun & Ht & Hinv' & Hlen & Hnd).
    destruct (fire_all_sim events _ _ _ _ _ (quiescent_sim _ _ Hq Hlog))
      as (st2 & new2 & refs & Hrun2 & _ & Hsim).
    rewrite Hrun in Hrun2. injection Hrun2 as <-.
    cbn [app] in *.
    assert (new2 = new).
    { pose proof (sim_log _ _ _ _ _ Hsim) as H1.
      rewrite (inv_log _ _ _ _ _ Hinv') in H1.
      injection H1 as H1. apply app_inv_head in H1. congruence. }
    subst new2. exists st', new, refs.
    split; [exact Hrun|]. split; [exact Ht|].
    split; [apply (inv_log _ _ _ _ _ Hinv')|].
    split; [exact Hlen|]. split; [apply (inv_final _ _ _ _ _ Hinv')|].
    split; [intros H; apply Hnd; [constructor|exact H]|].
    split; [apply (sim_distinct _ _ _ _ _ Hsim)|].
    split; [apply (sim_length _ _ _ _ _ Hsim)|].
    split; [apply (sim_pushed _ _ _ _ _ Hsim)|].
    apply (sim_objects _ _ _ _ _ Hsim).
  - intros pre rq method url body statusCode payload.
    apply exchange_after; assumption.
  - intros pre rq method url sc payload sc' payload' Hin.
    eapply repeated_send_after; eassumption.
Qed.

End RecorderFacts.

(** ** Snapshots on the in-memory port *)

Section SnapshotFacts.

Import Auditor.

Variable JSON_stringify : list Partial -> string.
Variables schemaPath trafficDir reportPath : string.


Implicit Type st : @State (gmap string string).

Lemma push_all refs :
  forall st l,
    arrays st !! traffic st = Some l ->
    exists st',
      for_each refs traffic_push st = (Normal tt, st')
      /\ arrays st' !! traffic st' = Some (l ++ refs)
      /\ traffic st' = traffic st
      /\ objects st' = objects st
      /\ files st' = files st.
Proof.
  induction refs as [|x refs IH]; intros st l Hl.
  - exists st. rewrite app_nil_r. auto.
  - cbn [for_each].
    assert (Hstep : traffic_push x st
                    = (Normal tt,
                       set_arrays (<[traffic st := l ++ [x]]> (arrays st)) st)).
    { unfold traffic_push, array_push, array_mutate.
      rewrite (bind_normal _ _ _ _ _ (read_array_run _ _ _ Hl)). reflexivity. }
    rewrite (bind_normal _ _ _ _ _ Hstep).
    destruct (IH (set_arrays (<[traffic st := l ++ [x]]> (arrays st)) st) (l ++ [x]))
      as (st' & Hrun & Ha & Ht & Ho & Hf).
    { cbn. apply lookup_insert_eq. }
    exists st'. split; [exact Hrun|].
    rewrite <- app_assoc in Ha. cbn in *. auto.
Qed.

Lemma mapM_length {A B : Type} (f : A -> option B) l k :
  mapM f l = Some k -> length k = length l.
Proof. intros H. symmetry. eapply length_mapM. exact H. Qed.

Lemma writeTraffic_persists testSuiteName st refs records :
  arrays st !! traffic st = Some refs ->
  refs <> [] ->
  mapM (fun r => objects st !! r) refs = Some records ->
  exists st',
    writeTraffic JSON_stringify (MemFs.options_at schemaPath trafficDir reportPath) testSuiteName st = (Normal tt, st')
    /\ files st' = <[snapshot_path trafficDir testSuiteName := JSON_stringify records]> (files st)
    /\ arrays st' !! traffic st' = Some []
    /\ objects st' = objects st.
Proof.
  intros Ha Hne Ho. unfold writeTraffic, try_catch.
  rewrite (bind_normal _ _ _ _ _ (this_traffic_run _ _ _ Ha Ho)).
  assert (Hlen : (length records =? 0)%nat = false).
  { rewrite (mapM_length _ _ _ Ho). destruct refs; [congruence|reflexivity]. }
  rewrite Hlen. cbn.
  eexists. split; [reflexivity|]. cbn.
  split; [reflexivity|]. split; [apply lookup_insert_eq|reflexivity].
Qed.


Lemma snapshot_path_inj dir a b : snapshot_path dir a = snapshot_path dir b -> a = b.
Proof.
  unfold snapshot_path. intros H.
  apply append_inj_l, append_inj_l in H. apply append_inj_r in H. exact H.
Qed.

End SnapshotFacts.


(** ** Snapshots on any port *)

Section SuiteFacts.

Import Auditor.

Context {W : Type}.
Variable JSON_stringify : list Partial -> string.
Variable options : @AuditorOptions W.
Implicit Type st : @State W.

Lemma push_all_port refs :
  forall st l,
    arrays st !! traffic st = Some l ->
    exists st',
      for_each refs traffic_push st = (Normal tt, st')
      /\ arrays st' !! traffic st' = Some (l ++ refs)
      /\ traffic st' = traffic st
      /\ objects st' = objects st
      /\ files st' = files st
      /\ console st' = console st.
Proof.
  induction refs as [|x refs IH]; intros st l Hl.
  - exists st. rewrite app_nil_r. auto 6.
  - cbn [for_each].
    assert (Hstep : traffic_push x st
                    = (Normal tt,
                       set_arrays (<[traffic st := l ++ [x]]> (arrays st)) st)).
    { unfold traffic_push, array_push, array_mutate.
      rewrite (bind_normal _ _ _ _ _ (read_array_run _ _ _ Hl)). reflexivity. }
    rewrite (bind_normal _ _ _ _ _ Hstep).
    destruct (IH (set_arrays (<[traffic st := l ++ [x]]> (arrays st)) st) (l ++ [x]))
      as (st' & Hrun & Ha & Ht & Ho & Hf & Hc).
    { cbn. apply lookup_insert_eq. }
    exists st'. split; [exact Hrun|].
    rewrite <- List.app_assoc in Ha. cbn in *. auto 6.
Qed.

(** One call on a storage that accepts the directory and the file. *)
Lemma writeTraffic_accepted testSuiteName st refs records w1 w2 :
  arrays st !! traffic st = Some refs ->
  refs <> [] ->
  mapM (fun r => objects st !! r) refs = Some records ->
  mkdir (fileOps options) (trafficDir options) true (files st) = (Normal tt, w1) ->
  writeFile (fileOps options) (snapshot_path (trafficDir options) testSuiteName)
    (JSON_stringify records) w1 = (Normal tt, w2) ->
  exists st',
    writeTraffic JSON_stringify options testSuiteName st = (Normal tt, st')
    /\ files st' = w2
    /\ arrays st' !! traffic st' = Some []
    /\ objects st' = objects st
    /\ console st'
       = console st
         ++ [Log ("📊 Traffic written: "
                  ++ snapshot_path (trafficDir options) testSuiteName ++ " ("
                  ++ Js.nat_to_string (length records) ++ " requests)")].
Proof.
  intros Ha Hne Ho Hmk Hwr. unfold writeTraffic, try_catch.
  rewrite (bind_normal _ _ _ _ _ (this_traffic_run _ _ _ Ha Ho)).
  assert (Hlen : (length records =? 0)%nat = false).
  { rewrite (mapM_length _ _ _ Ho). destruct refs; [congruence|reflexivity]. }
  rewrite Hlen.
  rewrite (bind_normal _ _ st tt (set_files w1 st));
    [|unfold port; rewrite Hmk; reflexivity].
  rewrite (bind_normal _ _ (set_files w1 st) tt (set_files w2 st));
    [|unfold port; cbn [files set_files]; unfold snapshot_path in Hwr;
      rewrite Hwr; reflexivity].
  cbn. eexists. split; [reflexivity|]. cbn.
  split; [reflexivity|]. split; [apply lookup_insert_eq|].
  split; reflexivity.
Qed.

(** C4 (amended).  Records are appended, [writeTraffic] is called for one
    suite, further records are appended and [writeTraffic] is called for
    another suite.  On any storage that accepts the two directory
    creations and the two writes, both calls return, the two snapshot
    paths are distinct, the storage was asked to write the records that
    were in the log at the first call to the first path and exactly the
    records appended between the two calls to the second, each write is
    reported on the console, and the log ends empty.  On the in-memory
    storage, which accepts every write, the first file then holds the
    first records, the second file the second ones, and no other file
    has changed. *)
Theorem writeTraffic_separates_suites :
  (forall st refs0 refs1 refs2 records1 records2 suiteA suiteB w1 w2 w3 w4,
     suiteA <> suiteB ->
     arrays st !! traffic st = Some refs0 ->
     refs1 <> [] ->
     refs2 <> [] ->
     mapM (fun r => objects st !! r) (refs0 ++ refs1) = Some records1 ->
     mapM (fun r => objects st !! r) refs2 = Some records2 ->
     mkdir (fileOps options) (trafficDir options) true (files st)
     = (Normal tt, w1) ->
     writeFile (fileOps options) (snapshot_path (trafficDir options) suiteA)
       (JSON_stringify records1) w1 = (Normal tt, w2) ->
     mkdir (fileOps options) (trafficDir options) true w2 = (Normal tt, w3) ->
     writeFile (fileOps options) (snapshot_path (trafficDir options) suiteB)
       (JSON_stringify records2) w3 = (Normal tt, w4) ->
     exists st',
       (for_each refs1 traffic_push ;;;
        writeTraffic JSON_stringify options suiteA ;;;
        for_each refs2 traffic_push ;;;
        writeTraffic JSON_stringify options suiteB) st = (Normal tt, st')
       /\ snapshot_path (trafficDir options) suiteA
          <> snapshot_path (trafficDir options) suiteB
       /\ files st' = w4
       /\ console st'
          = console st
            ++ [Log ("📊 Traffic written: "
                     ++ snapshot_path (trafficDir options) suiteA ++ " ("
                     ++ Js.nat_to_string (length records1) ++ " requests)");
                Log ("📊 Traffic written: "
                     ++ snapshot_path (trafficDir options) suiteB ++ " ("
                     ++ Js.nat_to_string (length records2) ++ " requests)")]
       /\ arrays st' !! traffic st' = Some [])
  /\ (forall schemaPath trafficDir reportPath
        (mem : @State (gmap string string))
        refs0 refs1 refs2 records1 records2 suiteA suiteB,
        suiteA <> suiteB ->
        arrays mem !! traffic mem = Some refs0 ->
        refs1 <> [] ->
        refs2 <> [] ->
        mapM (fun r => objects mem !! r) (refs0 ++ refs1) = Some records1 ->
        mapM (fun r => objects mem !! r) refs2 = Some records2 ->
        exists mem',
          (for_each refs1 traffic_push ;;;
           writeTraffic JSON_stringify
             (MemFs.options_at schemaPath trafficDir reportPath) suiteA ;;;
           for_each refs2 traffic_push ;;;
           writeTraffic JSON_stringify
             (MemFs.options_at schemaPath trafficDir reportPath) suiteB) mem
          = (Normal tt, mem')
          /\ snapshot_path trafficDir suiteA <> snapshot_path trafficDir suiteB
          /\ files mem' !! snapshot_path trafficDir suiteA
             = Some (JSON_stringify records1)
          /\ files mem' !! snapshot_path trafficDir suiteB
             = Some (JSON_stringify records2)
          /\ (forall path,
                path <> snapshot_path trafficDir suiteA ->
                path <> snapshot_path trafficDir suiteB ->
                files mem' !! path = files mem !! path)
          /\ arrays mem' !! traffic mem' = Some []).
Proof.
  split.
  - intros st refs0 refs1 refs2 records1 records2 suiteA suiteB w1 w2 w3 w4
      Hab H0 Hne1 Hne2 Hr1 Hr2 Hmk1 Hwr1 Hmk2 Hwr2.
    destruct (push_all_port refs1 st refs0 H0)
      as (s1 & Hrun1 & Ha1 & Ht1 & Ho1 & Hf1 & Hc1).
    destruct (writeTraffic_accepted suiteA s1 (refs0 ++ refs1) records1 w1 w2)
      as (s2 & Hrun2 & Hf2 & Ha2 & Ho2 & Hc2);
      [exact Ha1|destruct refs0; [exact Hne1|discriminate]
      |rewrite Ho1; exact Hr1|rewrite Hf1; exact Hmk1|exact Hwr1|].
    destruct (push_all_port refs2 s2 [] Ha2)
      as (s3 & Hrun3 & Ha3 & Ht3 & Ho3 & Hf3 & Hc3).
    destruct (writeTraffic_accepted suiteB s3 refs2 records2 w3 w4)
      as (s4 & Hrun4 & Hf4 & Ha4 & Ho4 & Hc4);
      [exact Ha3|exact Hne2|rewrite Ho3, Ho2, Ho1; exact Hr2
      |rewrite Hf3, Hf2; exact Hmk2|exact Hwr2|].
    exists s4. split.
    { rewrite (bind_normal _ _ _ _ _ Hrun1), (bind_normal _ _ _ _ _ Hrun2),
        (bind_normal _ _ _ _ _ Hrun3). exact Hrun4. }
    split; [intros H; apply Hab, (snapshot_path_inj (trafficDir options)), H|].
    split; [exact Hf4|]. split; [|exact Ha4].
    rewrite Hc4, Hc3, Hc2, Hc1, <- List.app_assoc. reflexivity.
  - intros schemaPath trafficDir reportPath st refs0 refs1 refs2 records1 records2
      suiteA suiteB Hab H0 Hne1 Hne2 Hr1 Hr2.
    assert (Hpath : snapshot_path trafficDir suiteA <> snapshot_path trafficDir suiteB).
    { intros H. apply Hab, (snapshot_path_inj trafficDir), H. }
    destruct (push_all refs1 st refs0 H0) as (s1 & Hrun1 & Ha1 & Ht1 & Ho1 & Hf1).
    destruct (writeTraffic_persists JSON_stringify schemaPath trafficDir reportPath
                suiteA s1 (refs0 ++ refs1) records1)
      as (s2 & Hrun2 & Hf2 & Ha2 & Ho2);
      [exact Ha1|destruct refs0; [exact Hne1|discriminate]|rewrite Ho1; exact Hr1|].
    destruct (push_all refs2 s2 [] Ha2) as (s3 & Hrun3 & Ha3 & Ht3 & Ho3 & Hf3).
    destruct (writeTraffic_persists JSON_stringify schemaPath trafficDir reportPath
                suiteB s3 refs2 records2)
      as (s4 & Hrun4 & Hf4 & Ha4 & Ho4);
      [exact Ha3|exact Hne2|rewrite Ho3, Ho2, Ho1; exact Hr2|].
    exists s4. split.
    { rewrite (bind_normal _ _ _ _ _ Hrun1), (bind_normal _ _ _ _ _ Hrun2),
        (bind_normal _ _ _ _ _ Hrun3). exact Hrun4. }
    split; [exact Hpath|].
    rewrite Hf4, Hf3, Hf2, Hf1.
    split; [rewrite lookup_insert_ne by congruence; apply lookup_insert_eq|].
    split; [apply lookup_insert_eq|].
    split; [|exact Ha4].
    intros path HA HB. rewrite !lookup_insert_ne by congruence. reflexivity.
Qed.

End SuiteFacts.
(** ** The theorems at concrete inputs *)

Section Instances.

Import Auditor Examples.

(** The theorem right after [registerPlugin], on the in-memory port. *)
Lemma writeTraffic_empty_noop_witness :
  arrays (quiescent (∅ : gmap string string))
    !! traffic (quiescent (∅ : gmap string string)) = Some []
  /\ writeTraffic count_records (options MemFs.fileOps) "suiteA" (quiescent ∅)
     = (Normal tt,
        set_console [Log "No traffic to write for suiteA"] (quiescent ∅)).
Proof.
  split; [reflexivity|].
  apply (writeTraffic_empty_noop count_records (options MemFs.fileOps) "suiteA"
           (quiescent ∅)).
  reflexivity.
Defined.

(** The theorem on a log of two records; the copy is pushed to, popped
    from and emptied. *)
Lemma getTraffic_fresh_copy_witness :
  arrays two_logged !! traffic two_logged = Some [0%nat; 1%nat]
  /\ exists copy st',
       getTraffic two_logged = (Normal copy, st')
       /\ copy <> traffic two_logged
       /\ arrays st' !! copy = Some [0%nat; 1%nat]
       /\ exists st'',
            for_each [fun l => l ++ [7%nat]; fun l => removelast l; fun _ => []]
              (array_mutate copy) st' = (Normal tt, st'')
            /\ arrays st'' !! traffic st'' = Some [0%nat; 1%nat].
Proof.
  split; [reflexivity|].
  destruct (getTraffic_fresh_copy two_logged [0%nat; 1%nat] eq_refl)
    as (copy & st' & Hrun & Hne & Hcopy & _ & _ & Hmut).
  exists copy, st'. split; [exact Hrun|]. split; [exact Hne|].
  split; [exact Hcopy|].
  destruct (Hmut [fun l => l ++ [7%nat]; fun l => removelast l; fun _ => []])
    as (st'' & Hrun' & _ & Hlog).
  exists st''. split; [exact Hrun'|exact Hlog].
Defined.

(** The theorem on a storage with a schema file and no traffic file. *)
Lemma zero_traffic_placeholder_witness :
  readFile (fileOps (options MemFs.fileOps)) (schemaPath (options MemFs.fileOps))
    (files schema_only) = (Normal "{}", files schema_only)
  /\ parse_empty_schema "{}" = Some (DocSchema (mkSchema None))
  /\ glob (fileOps (options MemFs.fileOps))
       (trafficDir (options MemFs.fileOps) ++ "/*.json")%string
       (files (set_files (files schema_only) schema_only))
     = (Normal [], files schema_only)
  /\ generateAuditReport parse_no_traffic parse_empty_schema
       "2025-01-01T00:00:00.000Z" (options MemFs.fileOps) schema_only
     = (Normal (Render.generateEmptyReport "2025-01-01T00:00:00.000Z"),
        set_files (files schema_only) (set_files (files schema_only) schema_only)).
Proof.
  split; [reflexivity|]. split; [reflexivity|]. split; [vm_compute; reflexivity|].
  apply (zero_traffic_placeholder parse_no_traffic parse_empty_schema
           "2025-01-01T00:00:00.000Z" (options MemFs.fileOps) schema_only
           "{}" (files schema_only) (DocSchema (mkSchema None)) []
           (files schema_only)
           (set_files (files schema_only) (set_files (files schema_only) schema_only))).
  - reflexivity.
  - reflexivity.
  - vm_compute. reflexivity.
  - reflexivity.
Defined.

(** The theorem on a storage that refuses every write, with two records
    in the log, and on an empty storage, where the schema file is missing:
    [teardown] returns and the failure is on the console. *)
Lemma failures_at_the_boundary_witness :
  teardown list_records parse_no_traffic parse_empty_schema
    "2025-01-01T00:00:00.000Z" (options DeniedFs.fileOps) Cases.logged_refused
  = (Normal tt,
     set_console
       [Log "📊 Global teardown: Starting OpenAPI traffic audit...";
        Log "2";
        LogError "❌ Failed to generate audit report:" "EACCES";
        Log "🏁 Global teardown completed"]
       Cases.logged_refused)
  /\ teardown list_records parse_no_traffic parse_empty_schema
       "2025-01-01T00:00:00.000Z" (options MemFs.fileOps) (quiescent ∅)
     = (Normal tt,
        set_console
          [Log "📊 Global teardown: Starting OpenAPI traffic audit...";
           Log "0";
           LogError "❌ Failed to generate audit report:" "ENOENT";
           Log "🏁 Global teardown completed"]
          (quiescent ∅)).
Proof.
  split.
  - destruct (failures_at_the_boundary list_records parse_no_traffic
                parse_empty_schema "2025-01-01T00:00:00.000Z"
                (options DeniedFs.fileOps) Cases.logged_refused)
      as (_ & _ & _ & Hdir & _).
    apply (Hdir [0%nat; 1%nat] [first_record; second_record] "EACCES" tt);
      [reflexivity|reflexivity|discriminate|reflexivity].
  - destruct (failures_at_the_boundary list_records parse_no_traffic
                parse_empty_schema "2025-01-01T00:00:00.000Z"
                (options MemFs.fileOps) (quiescent ∅))
      as (_ & _ & _ & _ & _ & _ & _ & _ & _ & Hschema).
    rewrite (Hschema
               (set_console
                  [Log "📊 Global teardown: Starting OpenAPI traffic audit...";
                   Log "0"] (quiescent ∅))
               "ENOENT"
               (set_console
                  [Log "📊 Global teardown: Starting OpenAPI traffic audit...";
                   Log "0"] (quiescent ∅)));
      [reflexivity|vm_compute; reflexivity|vm_compute; reflexivity].
Defined.

(** C5 as stated fails for the clean-up: a removal that is refused is
    caught, and nothing about it reaches the console. *)
Lemma cleanup_failure_not_logged :
  exists st',
    clearGeneratedDirectory (options DeniedFs.fileOps) (quiescent tt)
    = (Normal tt, st')
    /\ console st' = [Log "🧹 Clearing 3 files from generated directories"]
    /\ forall msg e, ~ In (LogError msg e) (console st').
Proof.
  eexists. split; [reflexivity|]. split; [reflexivity|].
  cbn. intros msg e [H|[]]. discriminate.
Qed.

(** The theorem on one exchange: one record is appended, and it holds
    what the three hooks were given. *)
Lemma one_record_per_send_firing_witness :
  request_traffic (quiescent tt) = ∅
  /\ arrays (quiescent tt) !! traffic (quiescent tt) = Some []
  /\ exists st' r,
       fire_all parse_nothing one_exchange (quiescent tt) = (Normal tt, st')
       /\ arrays st' !! traffic st' = Some [r]
       /\ objects st' !! r
          = Some (mkPartial "GET" "/items" VUndefined (Some 200%Z)
                    (Some (VString "[]"))).
Proof.
  split; [reflexivity|]. split; [reflexivity|].
  destruct (one_record_per_send_firing parse_nothing (quiescent tt) []
              eq_refl eq_refl)
    as (_ & Hexchange & _).
  destruct (Hexchange [] 1%nat "GET" "/items" VUndefined 200%Z (VString "[]"))
    as (s1 & appended & st' & r & Hpre & Hlog1 & Hrun & _ & Hlog & _ & Hobj).
  injection Hpre as <-. injection Hlog1 as <-.
  exists st', r. split; [exact Hrun|]. split; [exact Hlog|exact Hobj].
Defined.

(** C7 as stated fails: the hooks do not tell a second firing of [onSend]
    from the first.  For one request whose [onSend] fires twice the log
    holds two entries, both the same record. *)
Lemma repeated_send_recorded_twice :
  exists st' r,
    fire_all parse_nothing sent_twice (quiescent tt) = (Normal tt, st')
    /\ arrays st' !! traffic st' = Some [r; r].
Proof.
  eexists. eexists. split; [vm_compute; reflexivity|]. vm_compute. reflexivity.
Qed.

(** The theorem on two suites of one record each. *)
Lemma writeTraffic_separates_suites_witness :
  exists st',
    (for_each [0%nat] traffic_push ;;;
     writeTraffic list_records (options MemFs.fileOps) "suiteA" ;;;
     for_each [1%nat] traffic_push ;;;
     writeTraffic list_records (options MemFs.fileOps) "suiteB") two_records
    = (Normal tt, st')
    /\ files st' !! "./generated/traffic/suiteA.json" = Some "GET /items"
    /\ files st' !! "./generated/traffic/suiteB.json" = Some "POST /items"
    /\ arrays st' !! traffic st' = Some [].
Proof.
  assert (Hab : "suiteA" <> "suiteB") by discriminate.
  assert (H1 : [0%nat] <> []) by discriminate.
  assert (H2 : [1%nat] <> []) by discriminate.
  destruct (writeTraffic_separates_suites list_records (options MemFs.fileOps))
    as [_ Hmem].
  destruct (Hmem "./generated/openapi-schema.json" "./generated/traffic"
              "./generated/audit-report.md" two_records [] [0%nat] [1%nat]
              [first_record] [second_record] "suiteA" "suiteB"
              Hab eq_refl H1 H2 eq_refl eq_refl)
    as (st' & Hrun & _ & HA & HB & _ & Hlog).
  exists st'. split; [exact Hrun|]. split; [exact HA|]. split; [exact HB|exact Hlog].
Defined.

(** C4 as stated fails on a storage that refuses a write.  The snapshot
    path of the first suite is locked: the first call logs the refusal and
    keeps the log, and the snapshot of the second suite holds the records
    of both. *)
Lemma refused_snapshot_reaches_next_suite :
  exists st',
    (for_each [0%nat] traffic_push ;;;
     writeTraffic list_records
       (options (LockedFs.fileOps "./generated/traffic/suiteA.json")) "suiteA" ;;;
     for_each [1%nat] traffic_push ;;;
     writeTraffic list_records
       (options (LockedFs.fileOps "./generated/traffic/suiteA.json")) "suiteB")
      two_records
    = (Normal tt, st')
    /\ files st' !! "./generated/traffic/suiteA.json" = None
    /\ files st' !! "./generated/traffic/suiteB.json"
       = Some "GET /items,POST /items"
    /\ console st'
       = [LogError "Failed to write traffic for suiteA:" "EACCES";
          Log "📊 Traffic written: ./generated/traffic/suiteB.json (2 requests)"].
Proof.
  eexists. split; [vm_compute; reflexivity|].
  split; [vm_compute; reflexivity|]. split; vm_compute; reflexivity.
Qed.

End Instances.

(** * Further properties

    The remaining functions of the auditor, the set-up and the file port of
    the integration tests. *)

Section MatcherFurther.

Import PathMatcher Text.

Lemma first_split_cons c a s :
  Ascii.eqb a c = false ->
  Js.first (Js.split c (String a s)) = String a (Js.first (Js.split c s)).
Proof.
  intros E. cbn [Js.split]. rewrite E.
  destruct (split_nonempty c s) as (h & rest & ->). reflexivity.
Qed.

Lemma first_split_lacks c u :
  lacks c u = true -> Js.first (Js.split c u) = u.
Proof.
  induction u as [|a u IH]; [reflexivity|]. cbn [lacks]. intros H.
  apply andb_true_iff in H as [Ha Hu]. apply negb_true_iff in Ha.
  rewrite first_split_cons by assumption. rewrite IH by assumption. reflexivity.
Qed.

Lemma first_split_query c u q :
  lacks c u = true -> Js.first (Js.split c (u ++ String c q)%string) = u.
Proof.
  induction u as [|a u IH]; cbn [lacks]; intros H.
  - change (EmptyString ++ String c q)%string with (String c q).
    cbn [Js.split]. rewrite Ascii.eqb_refl. reflexivity.
  - apply andb_true_iff in H as [Ha Hu]. apply negb_true_iff in Ha.
    rewrite append_cons, first_split_cons by assumption.
    rewrite IH by assumption. reflexivity.
Qed.

(** X1.  [normalizePathForSchema] looks at the part of the URL before the
    first question mark only: for a path that holds no question mark, the
    path followed by a question mark and any query text gets the same
    result as the path alone, whatever the schema. *)
Theorem normalizePathForSchema_ignores_query path query schemaPaths :
  lacks "?" path = true ->
  normalizePathForSchema (path ++ "?" ++ query)%string schemaPaths
  = normalizePathForSchema path schemaPaths.
Proof.
  intros H. unfold normalizePathForSchema.
  change (path ++ "?" ++ query)%string with (path ++ String "?" query)%string.
  rewrite first_split_query, first_split_lacks by assumption. reflexivity.
Qed.

Lemma obj_get_In {V : Type} (o : list (string * V)) k :
  In k (keys o) -> exists v, obj_get o k = Some v.
Proof.
  induction o as [|[k' v] o IH]; [intros []|].
  cbn [keys map fst obj_get In]. intros [->|H].
  - rewrite String.eqb_refl. eauto.
  - destruct (String.eqb k' k); [eauto|apply IH, H].
Qed.

Lemma obj_get_Some_In {V : Type} (o : list (string * V)) k v :
  obj_get o k = Some v -> In k (keys o).
Proof.
  induction o as [|[k' v'] o IH]; [discriminate|].
  cbn [keys map fst obj_get In]. destruct (String.eqb k' k) eqn:E.
  - apply String.eqb_eq in E. auto.
  - intros H. right. apply IH, H.
Qed.

(** X2.  A URL that is itself a key of the schema's paths (and holds no
    question mark) is matched to that key by the direct lookup, before any
    template is turned into a regular expression: the result is that key
    whatever the other keys are, also when some of them lie outside the
    fragment of regular expressions that is modelled. *)
Theorem declared_path_matches_itself template schemaPaths :
  In template (keys schemaPaths) ->
  lacks "?" template = true ->
  normalizePathForSchema template schemaPaths = Matched template.
Proof.
  intros Hin Hq. unfold normalizePathForSchema.
  rewrite first_split_lacks by assumption.
  destruct (obj_get_In schemaPaths template Hin) as (v & ->). reflexivity.
Qed.

Lemma first_match_In cleanUrl templates t :
  first_match cleanUrl templates = Matched t -> In t templates.
Proof.
  induction templates as [|s templates IH]; [discriminate|].
  cbn [first_match].
  destruct (RegExp_parse (replace_placeholders s)) as [regex|]; [|discriminate].
  destruct (is_ascii_text cleanUrl || unit_exact regex); [|discriminate].
  destruct (RegExp_test regex cleanUrl).
  - intros [= <-]. left. reflexivity.
  - intros H. right. apply IH, H.
Qed.

(** X3.  A path that [normalizePathForSchema] returns as the match is a
    key of the schema's paths, or else it is the URL before its query and
    the name of a member that every object inherits ([constructor],
    [toString], ...), which the direct lookup finds in any schema. *)
Theorem matched_template_is_declared url schemaPaths template :
  normalizePathForSchema url schemaPaths = Matched template ->
  In template (keys schemaPaths)
  \/ (template = Js.first (Js.split "?" url)
      /\ In template inherited_members).
Proof.
  unfold normalizePathForSchema.
  destruct (obj_get schemaPaths (Js.first (Js.split "?" url))) eqn:E.
  - intros [= <-]. left. eapply obj_get_Some_In, E.
  - destruct (inherited (Js.first (Js.split "?" url))) eqn:Hi.
    + intros [= <-]. right. split; [reflexivity|].
      unfold inherited in Hi. apply existsb_exists in Hi as (name & Hin & Heq).
      apply String.eqb_eq in Heq. subst name. exact Hin.
    + intros H. left. eapply first_match_In, H.
Qed.

Lemma parse_dot s :
  RegExp_parse (String "." s) = option_map (cons RAny) (RegExp_parse s).
Proof. destruct s as [|c2 [|c3 [|c4 [|c5 rest]]]]; reflexivity. Qed.

Lemma test_lit_prefix p items u :
  RegExp_test (lit_items p ++ items) (p ++ u)%string = RegExp_test items u.
Proof.
  induction p as [|a p IH]; [reflexivity|].
  rewrite append_cons. cbn [lit_items app RegExp_test].
  rewrite Ascii.eqb_refl. exact IH.
Qed.

Lemma test_lit_exact p : RegExp_test (lit_items p) p = true.
Proof.
  pose proof (test_lit_prefix p [] EmptyString) as H.
  rewrite app_nil_r, append_empty_r in H. exact H.
Qed.

Lemma replace_go_plain_whole lit : plain lit = true -> replace_go 0 lit = lit.
Proof.
  intros H. pose proof (replace_go_plain lit EmptyString H) as E.
  rewrite append_empty_r in E. rewrite E.
  change (replace_go 0 EmptyString) with EmptyString. apply append_empty_r.
Qed.

Lemma parse_plain_whole lit :
  plain lit = true -> RegExp_parse lit = Some (lit_items lit).
Proof.
  intros H. pose proof (parse_plain lit EmptyString H) as E.
  rewrite append_empty_r in E. rewrite E. cbn. rewrite app_nil_r. reflexivity.
Qed.

Lemma plain_lacks_query s : plain s = true -> lacks "?" s = true.
Proof.
  induction s as [|a s IH]; [reflexivity|]. intros H.
  apply plain_cons in H as [Ha Hs]. cbn [lacks]. rewrite IH by assumption.
  destruct (Ascii.eqb a "?") eqn:E; [|reflexivity].
  apply Ascii.eqb_eq in E. subst a. discriminate.
Qed.

Lemma lacks_app c s t :
  lacks c s = true -> lacks c t = true -> lacks c (s ++ t)%string = true.
Proof.
  induction s as [|a s IH]; [auto|]. cbn [lacks]. intros H Ht.
  apply andb_true_iff in H as [Ha Hs]. rewrite append_cons. cbn [lacks].
  rewrite Ha, IH by assumption. reflexivity.
Qed.

Lemma is_ascii_text_app s t :
  is_ascii_text (s ++ t)%string = is_ascii_text s && is_ascii_text t.
Proof.
  induction s as [|a s IH]; [reflexivity|].
  rewrite append_cons. cbn [is_ascii_text]. rewrite IH, andb_assoc. reflexivity.
Qed.

(** X4.  A template is turned into a regular expression without escaping
    its characters, so a dot in a template stands for any character: the
    template [before.after], with [before] and [after] ASCII text free of
    characters that regular expressions treat specially, matches every URL
    [before c after] where [c] is any ASCII character other than a line
    terminator and the question mark, provided the URL is neither a key of
    the schema itself nor the name of an inherited member. *)
Theorem unescaped_dot_matches_any_character before after c item others :
  plain before = true ->
  plain after = true ->
  is_ascii_text (before ++ String c after)%string = true ->
  is_line_terminator c = false ->
  Ascii.eqb c "?" = false ->
  obj_get others (before ++ String c after)%string = None ->
  inherited (before ++ String c after)%string = false ->
  normalizePathForSchema (before ++ String c after)%string
    (((before ++ "." ++ after)%string, item) :: others)
  = Matched (before ++ "." ++ after)%string.
Proof.
  intros Hb Ha Hascii Hc Hq Hothers Hinh. unfold normalizePathForSchema.
  rewrite first_split_lacks.
  2:{ apply lacks_app; [apply plain_lacks_query, Hb|].
      cbn [lacks]. rewrite Hq. apply plain_lacks_query, Ha. }
  cbn [obj_get].
  destruct (String.eqb (before ++ "." ++ after) (before ++ String c after)) eqn:E.
  - apply String.eqb_eq in E. rewrite E. reflexivity.
  - rewrite Hothers, Hinh. cbn [keys map fst first_match].
    unfold replace_placeholders.
    change (before ++ "." ++ after)%string with (before ++ String "." after)%string.
    rewrite replace_go_plain by assumption.
    rewrite replace_go_cons. cbn [Ascii.eqb Bool.eqb].
    rewrite replace_go_plain_whole by assumption.
    rewrite parse_plain by assumption.
    rewrite parse_dot, parse_plain_whole by assumption.
    cbn [option_map]. rewrite Hascii. cbn [orb].
    rewrite test_lit_prefix. cbn [RegExp_test].
    rewrite Hc, test_lit_exact. reflexivity.
Qed.

End MatcherFurther.

Section CoverageFurther.

Import PathMatcher Report Text Coverage.

Lemma normalize_matched_In url schemaPaths template :
  normalizePathForSchema url schemaPaths = Matched template ->
  In template (keys schemaPaths)
  \/ (template = Js.first (Js.split "?" url) /\ In template inherited_members).
Proof.
  unfold normalizePathForSchema.
  destruct (obj_get schemaPaths (Js.first (Js.split "?" url))) eqn:E.
  - intros [= <-]. left. eapply obj_get_Some_In, E.
  - destruct (inherited (Js.first (Js.split "?" url))) eqn:Hi.
    + intros [= <-]. right. split; [reflexivity|].
      unfold inherited in Hi. apply existsb_exists in Hi as (name & Hin & Heq).
      apply String.eqb_eq in Heq. subst name. exact Hin.
    + intros H. left. eapply first_match_In, H.
Qed.

Lemma inherited_members_In name :
  In name inherited_members -> inherited name = true.
Proof.
  intros H. unfold inherited. apply existsb_exists. exists name.
  split; [exact H|apply String.eqb_refl].
Qed.

(** The two ways an iteration of the traffic loop ends. *)
Lemma analyze_record_cases schemaPaths a record a' :
  analyze_record schemaPaths a record = Some a' ->
  (is_undocumented schemaPaths record = true /\ a' = record_undocumented record a)
  \/ (exists p,
        normalizePathForSchema (url record) schemaPaths = Matched p
        /\ String.eqb p EmptyString = false
        /\ a' = record_documented p record a).
Proof.
  unfold analyze_record, is_undocumented.
  destruct (normalizePathForSchema (url record) schemaPaths) as [p| |];
    [|intros [= <-]; auto|discriminate].
  destruct (String.eqb p EmptyString) eqn:E; intros [= <-]; [auto|].
  right. exists p. auto.
Qed.

Lemma set_add_string_In x z s : In z (set_add_string x s) <-> z = x \/ In z s.
Proof.
  unfold set_add_string, set_has_string.
  destruct (existsb (String.eqb x) s) eqn:E.
  - split; [auto|]. intros [->|H]; [|assumption].
    apply existsb_exists in E as (y & Hy & Heq).
    apply String.eqb_eq in Heq. subst. assumption.
  - rewrite in_app_iff. simpl. intuition.
Qed.

Lemma NoDup_snoc {A : Type} (x : A) s :
  List.NoDup s -> ~ In x s -> List.NoDup (s ++ [x]).
Proof.
  induction s as [|y s IH]; intros Hnd Hx.
  - constructor; [intros []|constructor].
  - inversion Hnd as [|? ? Hy Hs]; subst. cbn [app]. constructor.
    + rewrite in_app_iff. intros [H|[->|[]]]; [auto|].
      apply Hx. left. reflexivity.
    + apply IH; [assumption|]. intros H. apply Hx. right. assumption.
Qed.

Lemma set_add_string_NoDup x s : List.NoDup s -> List.NoDup (set_add_string x s).
Proof.
  intros H. unfold set_add_string, set_has_string.
  destruct (existsb (String.eqb x) s) eqn:E; [assumption|].
  apply NoDup_snoc; [assumption|]. intros Hx.
  assert (existsb (String.eqb x) s = true); [|congruence].
  apply existsb_exists. exists x. split; [assumption|apply String.eqb_refl].
Qed.

Lemma analyze_tested_paths schemaPaths traffic :
  forall a a',
    analyze schemaPaths a traffic = Some a' ->
    (forall p, In p (testedPaths a') ->
               In p (testedPaths a)
               \/ (p <> EmptyString
                   /\ (In p (keys schemaPaths)
                       \/ (In p inherited_members
                           /\ exists record,
                                In record traffic
                                /\ p = Js.first (Js.split "?" (url record))))))
    /\ (List.NoDup (testedPaths a) -> List.NoDup (testedPaths a')).
Proof.
  induction traffic as [|r traffic IH]; intros a a' Ha.
  - injection Ha as <-. auto.
  - cbn [analyze] in Ha.
    destruct (analyze_record schemaPaths a r) as [a1|] eqn:E; [|discriminate].
    destruct (IH _ _ Ha) as [Hin Hnd]. clear IH.
    assert (Hlater : forall p,
               In p (testedPaths a') ->
               In p (testedPaths a1)
               \/ (p <> EmptyString
                   /\ (In p (keys schemaPaths)
                       \/ (In p inherited_members
                           /\ exists record,
                                In record (r :: traffic)
                                /\ p = Js.first (Js.split "?" (url record)))))).
    { intros q Hq. destruct (Hin q Hq) as [H|[Hne [H|(Hi & r' & Hr' & ->)]]]; auto.
      right. split; [assumption|]. right. split; [assumption|].
      exists r'. split; [right; assumption|reflexivity]. }
    destruct (analyze_record_cases _ _ _ _ E) as [[_ ->]|(p & Hp & Hne & ->)].
    + cbn [record_undocumented testedPaths] in *. auto.
    + cbn [record_documented testedPaths] in *. split.
      * intros q Hq. destruct (Hlater q Hq) as [H|H]; [|auto].
        apply set_add_string_In in H as [->|H]; [|auto].
        right. split; [intros ->; discriminate|].
        destruct (normalize_matched_In _ _ _ Hp) as [Hk|[-> Hi]]; [auto|].
        right. split; [assumption|]. exists r. split; [left|]; reflexivity.
      * intros H. apply Hnd, set_add_string_NoDup, H.
Qed.

(** X5.  After the traffic loop of [generateReport], every tested path is
    non-empty and is a key of the schema's paths or the name of a member
    that every object inherits, met as the URL of a record; no path is
    listed twice; and when no record has such a name as its URL, the
    number of tested paths is at most the number of declared paths, so
    that the path coverage is not above one hundred per cent. *)
Theorem tested_paths_are_declared schemaPaths traffic a :
  analyze schemaPaths empty_analysis traffic = Some a ->
  (forall p, In p (testedPaths a) ->
     p <> EmptyString
     /\ (In p (keys schemaPaths)
         \/ (In p inherited_members
             /\ exists record,
                  In record traffic
                  /\ p = Js.first (Js.split "?" (url record)))))
  /\ List.NoDup (testedPaths a)
  /\ ((forall record, In record traffic ->
         inherited (Js.first (Js.split "?" (url record))) = false) ->
      (length (testedPaths a) <= totalPaths schemaPaths)%nat).
Proof.
  intros Ha. destruct (analyze_tested_paths _ _ _ _ Ha) as [Hin Hnd].
  assert (H1 : forall p, In p (testedPaths a) ->
                 p <> EmptyString
                 /\ (In p (keys schemaPaths)
                     \/ (In p inherited_members
                         /\ exists record,
                              In record traffic
                              /\ p = Js.first (Js.split "?" (url record))))).
  { intros p Hp. destruct (Hin p Hp) as [[]|H]. exact H. }
  assert (H2 : List.NoDup (testedPaths a)) by (apply Hnd; constructor).
  split; [exact H1|]. split; [exact H2|].
  intros Hnone. unfold totalPaths. apply List.NoDup_incl_length; [exact H2|].
  intros p Hp. destruct (H1 p Hp) as [_ [Hk|(Hi & r & Hr & ->)]]; [exact Hk|].
  apply inherited_members_In in Hi. rewrite (Hnone r Hr) in Hi. discriminate.
Qed.

Lemma fold_left_add_le {A : Type} (f g : A -> nat) (l : list A) :
  (forall x, (f x <= g x)%nat) ->
  forall n m, (n <= m)%nat ->
    (fold_left (fun k x => (k + f x)%nat) l n
     <= fold_left (fun k x => (k + g x)%nat) l m)%nat.
Proof.
  intros H. induction l as [|x l IH]; intros n m Hnm; [exact Hnm|].
  cbn [fold_left]. apply IH. specialize (H x). lia.
Qed.

Lemma filter_length_bound {A : Type} (f : A -> bool) (l : list A) :
  (length (List.filter f l) <= length l)%nat.
Proof.
  induction l as [|x l IH]; [reflexivity|]. cbn [List.filter].
  destruct (f x); cbn [length]; lia.
Qed.

(** X6.  The number of tested combinations of method and status that
    [generateReport] counts is at most the number of declared ones, for any
    state of the collected traffic: only statuses that are declared for the
    method are counted. *)
Theorem tested_combos_bounded a schemaPaths :
  (testedMethodStatusCombos a schemaPaths <= totalMethodStatusCombos schemaPaths)%nat.
Proof.
  unfold testedMethodStatusCombos, totalMethodStatusCombos.
  apply (fold_left_add_le
           (fun entry => count_tested_item a (fst entry) (snd entry))
           (fun entry => count_total_item (snd entry))); [|lia].
  intros [pathKey pathObj]. cbn [fst snd].
  unfold count_tested_item, count_total_item.
  apply (fold_left_add_le
           (fun method =>
              length (List.filter
                        (fun status =>
                           set_has_number (Js.Number status)
                             (tested_statuses a pathKey method))
                        (status_keys pathObj method)))
           (fun method => length (status_keys pathObj method))); [|lia].
  intros method. apply filter_length_bound.
Qed.

Lemma set_has_string_In x s : set_has_string x s = true <-> In x s.
Proof.
  unfold set_has_string. rewrite existsb_exists. split.
  - intros (y & Hy & E). apply String.eqb_eq in E. subst. assumption.
  - intros H. exists x. split; [assumption|apply String.eqb_refl].
Qed.

(** X7.  Every declared path is listed as untested or is a tested path;
    an untested path is a declared path that is not tested; a partially
    tested path is a declared path that is tested, so it is never listed as
    untested as well. *)
Theorem untested_and_partial_are_apart a schemaPaths :
  (forall path, In path (keys schemaPaths) ->
     In path (untestedPaths a schemaPaths) \/ In path (testedPaths a))
  /\ (forall path, In path (untestedPaths a schemaPaths) ->
        In path (keys schemaPaths) /\ ~ In path (testedPaths a))
  /\ (forall path, In path (partiallyTestedPaths a schemaPaths) ->
        In path (keys schemaPaths) /\ In path (testedPaths a)
        /\ ~ In path (untestedPaths a schemaPaths)).
Proof.
  assert (Hun : forall path, In path (untestedPaths a schemaPaths) ->
                  In path (keys schemaPaths) /\ ~ In path (testedPaths a)).
  { intros path H. unfold untestedPaths in H. apply filter_In in H as [Hk Hn].
    split; [assumption|]. intros Hin. apply set_has_string_In in Hin.
    rewrite Hin in Hn. discriminate. }
  split; [|split; [exact Hun|]].
  - intros path Hk. destruct (set_has_string path (testedPaths a)) eqn:E.
    + right. apply set_has_string_In, E.
    + left. unfold untestedPaths. apply filter_In. split; [assumption|].
      rewrite E. reflexivity.
  - intros path H. unfold partiallyTestedPaths, keys in H.
    apply in_map_iff in H as ([k item] & <- & H).
    apply filter_In in H as [Hin Hc]. cbn [fst snd] in *.
    apply andb_true_iff in Hc as [Ht _]. apply set_has_string_In in Ht.
    split; [apply in_map_iff; exists (k, item); auto|].
    split; [assumption|]. intros Hu. apply Hun in Hu as [_ Hu]. auto.
Qed.

Lemma tested_statuses_documented p record a p' m' :
  tested_statuses (record_documented p record a) p' m'
  = if String.eqb p p' && String.eqb (Js.toLowerCase (method record)) m'
    then set_add (status record) (tested_statuses a p' m')
    else tested_statuses a p' m'.
Proof.
  unfold tested_statuses, record_documented. cbn [testedMethodsWithStatus].
  rewrite obj_get_upsert.
  destruct (String.eqb p p') eqn:Ep; cbn [andb]; [|reflexivity].
  apply String.eqb_eq in Ep. subst p'.
  rewrite obj_get_upsert.
  destruct (String.eqb (Js.toLowerCase (method record)) m') eqn:Em.
  - apply String.eqb_eq in Em. subst m'.
    destruct (obj_get (testedMethodsWithStatus a) p) as [mm|]; [|reflexivity].
    destruct (obj_get mm (Js.toLowerCase (method record))); reflexivity.
  - destruct (obj_get (testedMethodsWithStatus a) p) as [mm|]; reflexivity.
Qed.

Lemma analyze_tested_statuses schemaPaths traffic :
  forall a a',
    analyze schemaPaths a traffic = Some a' ->
    forall p m z,
      In z (tested_statuses a' p m)
      <-> In z (tested_statuses a p m)
          \/ exists record,
               In record traffic /\ documented_as schemaPaths p m z record.
Proof.
  induction traffic as [|r traffic IH]; intros a a' Ha p m z.
  - injection Ha as <-. split; [auto|]. intros [H|(r & [] & _)]. exact H.
  - cbn [analyze] in Ha.
    destruct (analyze_record schemaPaths a r) as [a1|] eqn:E; [|discriminate].
    rewrite (IH _ _ Ha p m z). clear IH Ha.
    destruct (analyze_record_cases _ _ _ _ E) as [[Hu ->]|(q & Hq & Hne & ->)].
    + change (tested_statuses (record_undocumented r a) p m)
        with (tested_statuses a p m).
      split.
      * intros [H|(r' & Hin & Hd)]; [auto|]. right. exists r'. split; [right|]; auto.
      * intros [H|(r' & [<-|Hin] & Hd)]; [auto| |right; exists r'; auto].
        exfalso. destruct Hd as (Hn & Hp & _). unfold is_undocumented in Hu.
        rewrite Hn in Hu. apply String.eqb_eq in Hu. auto.
    + rewrite tested_statuses_documented.
      destruct (String.eqb q p && String.eqb (Js.toLowerCase (method r)) m) eqn:C.
      * apply andb_true_iff in C as [Cq Cm].
        apply String.eqb_eq in Cq, Cm. subst q. rewrite set_add_In. split.
        -- intros [[->|H]|(r' & Hin & Hd)]; [|auto|].
           ++ right. exists r. split; [left; reflexivity|].
              split; [assumption|]. split; [|auto].
              intros ->. discriminate.
           ++ right. exists r'. split; [right|]; auto.
        -- intros [H|(r' & [<-|Hin] & Hd)]; [auto| |right; exists r'; auto].
           left. left. destruct Hd as (_ & _ & _ & Hz). auto.
      * split.
        -- intros [H|(r' & Hin & Hd)]; [auto|]. right. exists r'. split; [right|]; auto.
        -- intros [H|(r' & [<-|Hin] & Hd)]; [auto| |right; exists r'; auto].
           exfalso. destruct Hd as (Hn & _ & Hm & _).
           rewrite Hq in Hn. injection Hn as ->.
           rewrite String.eqb_refl in C. cbn [andb] in C.
           apply String.eqb_neq in C. auto.
Qed.

(** X8.  After the traffic loop, the statuses held for a path and a method
    key are exactly those of the records whose URL is matched to that path
    (the path being non-empty) and whose method, in lower case, is that
    key: nothing else is recorded and no such record is forgotten. *)
Theorem tested_statuses_are_the_observed_ones schemaPaths traffic a :
  analyze schemaPaths empty_analysis traffic = Some a ->
  forall p m z,
    In z (tested_statuses a p m)
    <-> exists record,
          In record traffic /\ documented_as schemaPaths p m z record.
Proof.
  intros Ha p m z. rewrite (analyze_tested_statuses _ _ _ _ Ha p m z).
  split; [|auto]. intros [[]|H]. exact H.
Qed.

Lemma lower_char_idempotent c : Js.lower_char (Js.lower_char c) = Js.lower_char c.
Proof. destruct c as [[] [] [] [] [] [] [] []]; reflexivity. Qed.

Lemma toLowerCase_idempotent s : Js.toLowerCase (Js.toLowerCase s) = Js.toLowerCase s.
Proof.
  unfold Js.toLowerCase. induction s as [|c s IH]; [reflexivity|].
  cbn [Js.map_chars]. rewrite lower_char_idempotent, IH. reflexivity.
Qed.

(** X9.  The traffic loop files records under the lower-case method, so a
    method key of the schema that is not in lower case is never covered:
    no status is held for it, and every status it declares is reported as
    missing, whatever the traffic. *)
Theorem upper_case_method_key_never_covered schemaPaths traffic a p m pathObj :
  analyze schemaPaths empty_analysis traffic = Some a ->
  Js.toLowerCase m <> m ->
  tested_statuses a p m = []
  /\ missing_statuses a p pathObj m = expected_statuses pathObj m.
Proof.
  intros Ha Hm.
  assert (Hnil : tested_statuses a p m = []).
  { destruct (tested_statuses a p m) as [|z l] eqn:E; [reflexivity|].
    exfalso. assert (Hin : In z (tested_statuses a p m)) by (rewrite E; left; auto).
    apply (analyze_tested_statuses _ _ _ _ Ha) in Hin as [[]|(r & _ & _ & _ & Hl & _)].
    apply Hm. rewrite <- Hl. apply toLowerCase_idempotent. }
  split; [exact Hnil|]. unfold missing_statuses. rewrite Hnil.
  induction (expected_statuses pathObj m) as [|x l IH]; [reflexivity|].
  cbn [List.filter]. destruct x; cbn; rewrite IH; reflexivity.
Qed.

(** X10.  A response key that is no number, such as [default], is turned
    into NaN by [Number]; NaN is never among the tested statuses, so the
    key is always reported as missing and a tested path that declares one
    is always listed as partially tested. *)
Theorem non_numeric_response_key_is_always_missing a schemaPaths p pathObj m key :
  In (p, pathObj) schemaPaths ->
  In p (testedPaths a) ->
  In m (methods_of pathObj) ->
  In key (status_keys pathObj m) ->
  Js.Number key = Js.NaN ->
  In Js.NaN (missing_statuses a p pathObj m)
  /\ In p (partiallyTestedPaths a schemaPaths).
Proof.
  intros Hp Ht Hm Hk Hn.
  assert (He : In Js.NaN (expected_statuses pathObj m)).
  { unfold expected_statuses. rewrite <- Hn. apply in_map, Hk. }
  split.
  - unfold missing_statuses. apply filter_In. split; [exact He|reflexivity].
  - unfold partiallyTestedPaths, keys. apply in_map_iff. exists (p, pathObj).
    split; [reflexivity|]. apply filter_In. split; [exact Hp|]. cbn [fst snd].
    apply andb_true_iff. split; [apply set_has_string_In, Ht|].
    unfold hasUntestedCombos. apply existsb_exists. exists m. split; [exact Hm|].
    apply existsb_exists. exists Js.NaN. split; [exact He|reflexivity].
Qed.

End CoverageFurther.

Section HeapFrame.

Import Auditor Frame.

Context {W : Type}.
Variable JSON_stringify : list Partial -> string.
Variable JSON_parse_traffic : string -> option (list TrafficRecord).
Variable JSON_parse_schema : string -> option SchemaDocument.
Variable now : string.
Variable options : @AuditorOptions W.

Lemma keeps_heap_ret {A : Type} (a : A) : keeps_heap (W := W) (ret a).
Proof. intros st r st' [= <- <-]. auto. Qed.

Lemma keeps_heap_throw {A : Type} e : keeps_heap (W := W) (A := A) (throw e).
Proof. intros st r st' [= <- <-]. auto. Qed.

Lemma keeps_heap_unmodelled {A : Type} : keeps_heap (W := W) (A := A) unmodelled.
Proof. intros st r st' [= <- <-]. auto. Qed.

Lemma keeps_heap_port {A : Type} (op : W -> Completion A * W) : keeps_heap (port op).
Proof.
  intros st r st'. unfold port. destruct (op (files st)) as [c w].
  intros [= <- <-]. auto.
Qed.

Lemma keeps_heap_console_log msg : keeps_heap (W := W) (console_log msg).
Proof. intros st r st' [= <- <-]. auto. Qed.

Lemma keeps_heap_console_error msg e : keeps_heap (W := W) (console_error msg e).
Proof. intros st r st' [= <- <-]. auto. Qed.

Lemma keeps_heap_bind {A B : Type} (m : @M W A) (f : A -> @M W B) :
  keeps_heap m -> (forall a, keeps_heap (f a)) -> keeps_heap (bind m f).
Proof.
  intros Hm Hf st r st'. unfold bind.
  destruct (m st) as [[a|e|] s1] eqn:E; intros H.
  - destruct (Hm _ _ _ E) as (A1 & A2 & A3 & A4).
    destruct (Hf a _ _ _ H) as (B1 & B2 & B3 & B4).
    repeat split; congruence.
  - injection H as <- <-. eapply Hm, E.
  - injection H as <- <-. eapply Hm, E.
Qed.

Lemma keeps_heap_try_catch {A : Type} (body : @M W A) handler :
  keeps_heap body -> (forall e, keeps_heap (handler e)) ->
  keeps_heap (try_catch body handler).
Proof.
  intros Hb Hh st r st'. unfold try_catch.
  destruct (body st) as [[a|e|] s1] eqn:E; intros H.
  - injection H as <- <-. eapply Hb, E.
  - destruct (Hb _ _ _ E) as (A1 & A2 & A3 & A4).
    destruct (Hh e _ _ _ H) as (B1 & B2 & B3 & B4).
    repeat split; congruence.
  - injection H as <- <-. eapply Hb, E.
Qed.

Lemma keeps_heap_read_array r : keeps_heap (W := W) (read_array r).
Proof.
  intros st c st'. unfold read_array.
  destruct (arrays st !! r); intros [= <- <-]; auto.
Qed.

Lemma keeps_heap_read_object r : keeps_heap (W := W) (read_object r).
Proof.
  intros st c st'. unfold read_object.
  destruct (objects st !! r); intros [= <- <-]; auto.
Qed.

Lemma keeps_heap_read_objects refs : keeps_heap (W := W) (read_objects refs).
Proof.
  induction refs as [|r refs IH]; cbn [read_objects]; [apply keeps_heap_ret|].
  apply keeps_heap_bind; [apply keeps_heap_read_object|intros o].
  apply keeps_heap_bind; [exact IH|intros os; apply keeps_heap_ret].
Qed.

Lemma keeps_heap_this_traffic : keeps_heap (W := W) this_traffic.
Proof.
  unfold this_traffic. apply keeps_heap_bind.
  - intros st r st' [= <- <-]. auto.
  - intros s0. apply keeps_heap_bind; [apply keeps_heap_read_array|].
    apply keeps_heap_read_objects.
Qed.

Lemma keeps_heap_parse {A : Type} (parse : string -> option A) text :
  keeps_heap (W := W) (parse_or_throw parse text).
Proof.
  unfold parse_or_throw. destruct (parse text);
    [apply keeps_heap_ret|apply keeps_heap_throw].
Qed.

Lemma keeps_heap_load_traffic trafficFiles :
  forall acc, keeps_heap (load_traffic JSON_parse_traffic options trafficFiles acc).
Proof.
  induction trafficFiles as [|f rest IH]; intros acc; cbn [load_traffic].
  - apply keeps_heap_ret.
  - apply keeps_heap_bind; [apply keeps_heap_port|intros content].
    apply keeps_heap_bind; [apply keeps_heap_parse|intros records]. apply IH.
Qed.

Lemma keeps_heap_generateAuditReport :
  keeps_heap (generateAuditReport JSON_parse_traffic JSON_parse_schema now options).
Proof.
  unfold generateAuditReport.
  apply keeps_heap_bind; [apply keeps_heap_port|intros content].
  apply keeps_heap_bind; [apply keeps_heap_parse|intros doc].
  apply keeps_heap_bind; [apply keeps_heap_port|intros trafficFiles].
  apply keeps_heap_bind; [apply keeps_heap_load_traffic|intros allTraffic].
  destruct (length allTraffic =? 0)%nat; [apply keeps_heap_ret|].
  unfold generateReport. destruct doc; [apply keeps_heap_throw|].
  destruct (Render.generateReport now schema allTraffic);
    [apply keeps_heap_ret|apply keeps_heap_unmodelled].
Qed.

Lemma keeps_heap_teardown :
  keeps_heap
    (teardown JSON_stringify JSON_parse_traffic JSON_parse_schema now options).
Proof.
  unfold teardown.
  apply keeps_heap_bind; [apply keeps_heap_console_log|intros _].
  apply keeps_heap_bind; [|intros _; apply keeps_heap_console_log].
  apply keeps_heap_try_catch; [|intros e; apply keeps_heap_console_error].
  unfold teardown_body.
  apply keeps_heap_bind.
  { unfold teardown_traffic.
    apply keeps_heap_bind; [apply keeps_heap_this_traffic|intros records].
    apply keeps_heap_bind; [apply keeps_heap_console_log|intros _].
    destruct (0 <? length records)%nat; [|apply keeps_heap_ret].
    apply keeps_heap_bind; [apply keeps_heap_port|intros _].
    apply keeps_heap_bind; [apply keeps_heap_port|intros _].
    apply keeps_heap_console_log. }
  intros _.
  apply keeps_heap_bind; [apply keeps_heap_generateAuditReport|intros report].
  apply keeps_heap_bind; [apply keeps_heap_port|intros _].
  apply keeps_heap_bind; [apply keeps_heap_port|intros _].
  apply keeps_heap_console_log.
Qed.

(** X11.  [teardown] does not reset the log: whatever the storage does and
    however the run ends, the arrays, the objects, the log and the map of
    drafts are the same after it as before.  Unlike [writeTraffic], which
    starts a new log after a successful write, the records are still in the
    log afterwards. *)
Theorem teardown_keeps_the_log st :
  let st' :=
    snd (teardown JSON_stringify JSON_parse_traffic JSON_parse_schema now
           options st) in
  arrays st' = arrays st /\ objects st' = objects st
  /\ traffic st' = traffic st /\ request_traffic st' = request_traffic st.
Proof.
  destruct (teardown JSON_stringify JSON_parse_traffic JSON_parse_schema now
              options st) as [r s1] eqn:E.
  exact (keeps_heap_teardown _ _ _ E).
Qed.

Lemma writeTraffic_no_throw testSuiteName :
  never_throws (writeTraffic JSON_stringify options testSuiteName).
Proof.
  apply try_catch_never_throws. intros e. apply console_error_never_throws.
Qed.

(** X12.  [writeTraffic] never throws, on any storage: every failure of
    the storage is caught inside it.  It returns normally, or the run
    leaves the modelled part of the heap. *)
Theorem writeTraffic_never_throws testSuiteName st :
  exists st',
    writeTraffic JSON_stringify options testSuiteName st = (Normal tt, st')
    \/ writeTraffic JSON_stringify options testSuiteName st = (Unmodelled, st').
Proof.
  pose proof (writeTraffic_no_throw testSuiteName st) as H.
  destruct (writeTraffic JSON_stringify options testSuiteName st)
    as [[[]|e|] s1]; exists s1.
  - left. reflexivity.
  - exfalso. exact (H e eq_refl).
  - right. reflexivity.
Qed.

(** X13.  When the log is not empty and the storage refuses the directory
    or the snapshot file, [writeTraffic] returns normally, logs one error
    line that names the suite and carries the failure, and leaves the log
    as it was: the records are not lost. *)
Theorem writeTraffic_keeps_log_when_refused testSuiteName st refs records e s1 :
  arrays st !! traffic st = Some refs ->
  refs <> [] ->
  mapM (fun r => objects st !! r) refs = Some records ->
  (port (mkdir (fileOps options) (trafficDir options) true) ;;;
   port (writeFile (fileOps options)
           (snapshot_path (trafficDir options) testSuiteName)
           (JSON_stringify records))) st
  = (Throw e, s1) ->
  exists st',
    writeTraffic JSON_stringify options testSuiteName st = (Normal tt, st')
    /\ console st'
       = console st
         ++ [LogError ("Failed to write traffic for " ++ testSuiteName ++ ":") e]
    /\ arrays st' = arrays st /\ objects st' = objects st
    /\ traffic st' = traffic st.
Proof.
  intros Ha Hne Ho Hstore. unfold writeTraffic, try_catch.
  rewrite (bind_normal _ _ _ _ _ (this_traffic_run _ _ _ Ha Ho)).
  assert (Hlen : (length records =? 0)%nat = false).
  { rewrite (mapM_length _ _ _ Ho). destruct refs; [congruence|reflexivity]. }
  rewrite Hlen. unfold snapshot_path in Hstore.
  unfold bind at 1. unfold bind at 1 in Hstore.
  destruct (port (mkdir (fileOps options) (trafficDir options) true) st)
    as [[[]|e1|] s0] eqn:E0; [| |discriminate].
  - rewrite (bind_throw _ _ _ _ _ Hstore).
    unfold port in E0, Hstore.
    destruct (mkdir (fileOps options) (trafficDir options) true (files st))
      as [c0 w0].
    injection E0 as _ <-. cbn [files set_files] in Hstore.
    destruct (writeFile _ _ _ w0) as [c1 w1]. injection Hstore as _ <-.
    eexists. split; [reflexivity|]. cbn. auto.
  - injection Hstore as <- <-. unfold port in E0.
    destruct (mkdir (fileOps options) (trafficDir options) true (files st))
      as [c0 w0].
    injection E0 as _ <-.
    eexists. split; [reflexivity|]. cbn. auto.
Qed.

(** X14.  [registerPlugin] starts a new log, so records that were not
    written before it are out of reach: a [writeTraffic] that follows it
    directly writes no file on any storage, logs that there is no traffic
    to write, and the log is empty, whatever was recorded before. *)
Theorem registerPlugin_discards_unwritten_traffic testSuiteName st :
  exists st',
    (registerPlugin ;;; writeTraffic JSON_stringify options testSuiteName) st
    = (Normal tt, st')
    /\ files st' = files st
    /\ console st'
       = console st ++ [Log ("No traffic to write for " ++ testSuiteName)%string]
    /\ arrays st' !! traffic st' = Some [].
Proof.
  pose (r := fresh (dom (arrays st))).
  pose (s1 := set_traffic r (set_arrays (<[r := []]> (arrays st)) st)).
  assert (Hreg : registerPlugin st = (Normal tt, s1)) by reflexivity.
  assert (Hlog : arrays s1 !! traffic s1 = Some []) by apply lookup_insert_eq.
  eexists. split.
  { rewrite (bind_normal _ _ _ _ _ Hreg). unfold writeTraffic, try_catch.
    rewrite (bind_normal _ _ _ _ _ (this_traffic_run _ _ [] Hlog eq_refl)).
    reflexivity. }
  cbn. split; [reflexivity|]. split; [reflexivity|].
  apply lookup_insert_eq.
Qed.

End HeapFrame.

Section StorageFacts.

Import Auditor Frame Text.

Variable JSON_stringify : list Partial -> string.
Variable JSON_parse_traffic : string -> option (list TrafficRecord).
Variable JSON_parse_schema : string -> option SchemaDocument.
Variable now : string.
Variables schemaFile trafficFolder reportFile : string.

Lemma set_files_same {W : Type} (st : @State W) : set_files (files st) st = st.
Proof. destruct st; reflexivity. Qed.

Lemma keeps_files_within {A : Type} allowed (m : M A) :
  keeps_files m -> writes_within allowed m.
Proof. intros H st r st' E path _. rewrite (H _ _ _ E). reflexivity. Qed.

Lemma within_bind {A B : Type} allowed (m : M A) (f : A -> M B) :
  writes_within allowed m -> (forall a, writes_within allowed (f a)) ->
  writes_within allowed (bind m f).
Proof.
  intros Hm Hf st r st'. unfold bind.
  destruct (m st) as [[a|e|] s1] eqn:E; intros H path Hp.
  - rewrite (Hf a _ _ _ H path Hp). apply (Hm _ _ _ E path Hp).
  - injection H as <- <-. apply (Hm _ _ _ E path Hp).
  - injection H as <- <-. apply (Hm _ _ _ E path Hp).
Qed.

Lemma within_try_catch {A : Type} allowed (body : M A) handler :
  writes_within allowed body -> (forall e, writes_within allowed (handler e)) ->
  writes_within allowed (try_catch body handler).
Proof.
  intros Hb Hh st r st'. unfold try_catch.
  destruct (body st) as [[a|e|] s1] eqn:E; intros H path Hp.
  - injection H as <- <-. apply (Hb _ _ _ E path Hp).
  - rewrite (Hh e _ _ _ H path Hp). apply (Hb _ _ _ E path Hp).
  - injection H as <- <-. apply (Hb _ _ _ E path Hp).
Qed.

Lemma keeps_files_ret {A : Type} (a : A) : keeps_files (ret a).
Proof. intros st r st' [= <- <-]. reflexivity. Qed.

Lemma keeps_files_throw {A : Type} e : keeps_files (A := A) (throw e).
Proof. intros st r st' [= <- <-]. reflexivity. Qed.

Lemma keeps_files_unmodelled {A : Type} : keeps_files (A := A) unmodelled.
Proof. intros st r st' [= <- <-]. reflexivity. Qed.

Lemma keeps_files_console_log msg : keeps_files (console_log msg).
Proof. intros st r st' [= <- <-]. reflexivity. Qed.

Lemma keeps_files_console_error msg e : keeps_files (console_error msg e).
Proof. intros st r st' [= <- <-]. reflexivity. Qed.

Lemma keeps_files_bind {A B : Type} (m : M A) (f : A -> M B) :
  keeps_files m -> (forall a, keeps_files (f a)) -> keeps_files (bind m f).
Proof.
  intros Hm Hf st r st'. unfold bind.
  destruct (m st) as [[a|e|] s1] eqn:E; intros H.
  - rewrite (Hf a _ _ _ H). apply (Hm _ _ _ E).
  - injection H as <- <-. apply (Hm _ _ _ E).
  - injection H as <- <-. apply (Hm _ _ _ E).
Qed.

Lemma keeps_files_read_objects refs : keeps_files (read_objects refs).
Proof.
  induction refs as [|r refs IH]; cbn [read_objects]; [apply keeps_files_ret|].
  apply keeps_files_bind.
  - intros st c st'. unfold read_object.
    destruct (objects st !! r); intros [= <- <-]; reflexivity.
  - intros o. apply keeps_files_bind; [exact IH|intros os; apply keeps_files_ret].
Qed.

Lemma keeps_files_this_traffic : keeps_files this_traffic.
Proof.
  unfold this_traffic. apply keeps_files_bind.
  - intros st r st' [= <- <-]. reflexivity.
  - intros s0. apply keeps_files_bind; [|apply keeps_files_read_objects].
    intros st c st'. unfold read_array.
    destruct (arrays st !! _); intros [= <- <-]; reflexivity.
Qed.

Lemma keeps_files_parse {A : Type} (parse : string -> option A) text :
  keeps_files (parse_or_throw parse text).
Proof.
  unfold parse_or_throw. destruct (parse text);
    [apply keeps_files_ret|apply keeps_files_throw].
Qed.

Lemma keeps_files_readFile path :
  keeps_files (port (readFile (fileOps (MemFs.options_at schemaFile trafficFolder reportFile)) path)).
Proof.
  intros st r st'. unfold port. cbn. unfold MemFs.mem_readFile.
  destruct (files st !! path); intros [= <- <-]; reflexivity.
Qed.

Lemma keeps_files_glob pattern :
  keeps_files (port (glob (fileOps (MemFs.options_at schemaFile trafficFolder reportFile)) pattern)).
Proof. intros st r st' [= <- <-]. reflexivity. Qed.

Lemma keeps_files_mkdir path recursive :
  keeps_files (port (mkdir (fileOps (MemFs.options_at schemaFile trafficFolder reportFile)) path recursive)).
Proof. intros st r st' [= <- <-]. reflexivity. Qed.

Lemma within_writeFile (allowed : string -> Prop) path content :
  allowed path ->
  writes_within allowed (port (writeFile (fileOps (MemFs.options_at schemaFile trafficFolder reportFile)) path content)).
Proof.
  intros Ha st r st' [= <- <-] p Hp. cbn.
  apply lookup_insert_ne. intros ->. exact (Hp Ha).
Qed.

Lemma keeps_files_load_traffic trafficFiles :
  forall acc, keeps_files (load_traffic JSON_parse_traffic (MemFs.options_at schemaFile trafficFolder reportFile) trafficFiles acc).
Proof.
  induction trafficFiles as [|f rest IH]; intros acc; cbn [load_traffic].
  - apply keeps_files_ret.
  - apply keeps_files_bind; [apply keeps_files_readFile|intros content].
    apply keeps_files_bind; [apply keeps_files_parse|intros records]. apply IH.
Qed.

Lemma keeps_files_generateAuditReport :
  keeps_files (generateAuditReport JSON_parse_traffic JSON_parse_schema now (MemFs.options_at schemaFile trafficFolder reportFile)).
Proof.
  unfold generateAuditReport.
  apply keeps_files_bind; [apply keeps_files_readFile|intros content].
  apply keeps_files_bind; [apply keeps_files_parse|intros doc].
  apply keeps_files_bind; [apply keeps_files_glob|intros trafficFiles].
  apply keeps_files_bind; [apply keeps_files_load_traffic|intros allTraffic].
  destruct (length allTraffic =? 0)%nat; [apply keeps_files_ret|].
  unfold generateReport. destruct doc; [apply keeps_files_throw|].
  destruct (Render.generateReport now schema allTraffic);
    [apply keeps_files_ret|apply keeps_files_unmodelled].
Qed.

Lemma within_teardown :
  writes_within
    (fun p => p = teardown_snapshot trafficFolder \/ p = reportFile)
    (teardown JSON_stringify JSON_parse_traffic JSON_parse_schema now (MemFs.options_at schemaFile trafficFolder reportFile)).
Proof.
  unfold teardown.
  apply within_bind; [apply keeps_files_within, keeps_files_console_log|intros _].
  apply within_bind;
    [|intros _; apply keeps_files_within, keeps_files_console_log].
  apply within_try_catch;
    [|intros e; apply keeps_files_within, keeps_files_console_error].
  unfold teardown_body.
  apply within_bind.
  { unfold teardown_traffic.
    apply within_bind; [apply keeps_files_within, keeps_files_this_traffic|intros records].
    apply within_bind; [apply keeps_files_within, keeps_files_console_log|intros _].
    destruct (0 <? length records)%nat;
      [|apply keeps_files_within, keeps_files_ret].
    apply within_bind; [apply keeps_files_within, keeps_files_mkdir|intros _].
    apply within_bind; [apply within_writeFile; left; reflexivity|intros _].
    apply keeps_files_within, keeps_files_console_log. }
  intros _.
  apply within_bind;
    [apply keeps_files_within, keeps_files_generateAuditReport|intros report].
  apply within_bind; [apply keeps_files_within, keeps_files_mkdir|intros _].
  apply within_bind; [apply within_writeFile; right; reflexivity|intros _].
  apply keeps_files_within, keeps_files_console_log.
Qed.

(** X15.  On the in-memory storage, [teardown] changes at most two files,
    the snapshot [integration-tests-traffic.json] of the traffic directory
    and the report: every other file is the same after it as before,
    however the run ends. *)
Theorem teardown_writes_only_its_outputs st path :
  path <> teardown_snapshot trafficFolder ->
  path <> reportFile ->
  files (snd (teardown JSON_stringify JSON_parse_traffic JSON_parse_schema now
                (MemFs.options_at schemaFile trafficFolder reportFile) st)) !! path
  = files st !! path.
Proof.
  intros H1 H2.
  destruct (teardown JSON_stringify JSON_parse_traffic JSON_parse_schema now
              (MemFs.options_at schemaFile trafficFolder reportFile) st) as [r s1] eqn:E.
  apply (within_teardown _ _ _ E). intros [?|?]; auto.
Qed.

End StorageFacts.

Section CleaningFacts.

Import Auditor Frame Text.

Variables schemaFile trafficFolder reportFile : string.

(** *** Cleaning *)

Lemma In_listing pattern (w : gmap string string) p :
  In p (List.filter (MemFs.wild_match pattern) (map fst (map_to_list w)))
  <-> is_Some (w !! p) /\ MemFs.wild_match pattern p = true.
Proof.
  rewrite List.filter_In, List.in_map_iff. split.
  - intros [[[k v] [E Hin]] Hm]. cbn in E. subst k. split; [|exact Hm].
    apply list_elem_of_In, elem_of_map_to_list in Hin. eauto.
  - intros [[v Hv] Hm]. split; [|exact Hm]. exists (p, v). split; [reflexivity|].
    apply list_elem_of_In, elem_of_map_to_list, Hv.
Qed.

Lemma safeGlob_run pattern st :
  safeGlob (MemFs.options_at schemaFile trafficFolder reportFile) pattern st
  = (Normal (List.filter (MemFs.wild_match pattern)
               (map fst (map_to_list (files st)))), st).
Proof.
  unfold safeGlob, try_catch, port. cbn. rewrite set_files_same. reflexivity.
Qed.

Lemma set_files_twice {W : Type} (w1 w2 : W) st :
  set_files w2 (set_files w1 st) = set_files w2 st.
Proof. destruct st; reflexivity. Qed.

Lemma remove_all_run l : forall st,
  for_each l (fun file => port (MemFs.mem_removeFile file)) st
  = (Normal tt, set_files (fold_left (fun w f => delete f w) l (files st)) st).
Proof.
  induction l as [|f l IH]; intros st; cbn [for_each fold_left].
  - unfold ret. rewrite set_files_same. reflexivity.
  - unfold bind at 1. unfold port at 1. cbn [MemFs.mem_removeFile].
    rewrite IH. cbn [files set_files]. rewrite set_files_twice. reflexivity.
Qed.

Lemma lookup_remove_all l : forall (w : gmap string string) p,
  fold_left (fun w f => delete f w) l w !! p
  = if in_dec String.string_dec p l then None else w !! p.
Proof.
  induction l as [|f l IH]; intros w p; cbn [fold_left].
  - destruct (in_dec String.string_dec p []) as [[]|]; reflexivity.
  - rewrite IH. destruct (in_dec String.string_dec p l) as [Hl|Hl].
    + destruct (in_dec String.string_dec p (f :: l)) as [|N]; [reflexivity|].
      exfalso. apply N. right. exact Hl.
    + destruct (in_dec String.string_dec p (f :: l)) as [[E|I]|N].
      * subst f. apply lookup_delete_eq.
      * contradiction.
      * apply lookup_delete_ne. intros E. apply N. left. exact E.
Qed.

Lemma clearGeneratedDirectory_run st :
  exists st',
    clearGeneratedDirectory (MemFs.options_at schemaFile trafficFolder reportFile) st = (Normal tt, st')
    /\ forall path,
         files st' !! path
         = if Setup.cleared (MemFs.options_at schemaFile trafficFolder reportFile) path then None else files st !! path.
Proof.
  pose (all := (List.filter (MemFs.wild_match (getDir schemaFile ++ "/*.json"))
                  (map fst (map_to_list (files st)))
                ++ List.filter (MemFs.wild_match (trafficFolder ++ "/*.json"))
                     (map fst (map_to_list (files st)))
                ++ List.filter (MemFs.wild_match (getDir schemaFile ++ "/*.md"))
                     (map fst (map_to_list (files st))))%list).
  assert (Hall : forall p, In p all
                   <-> is_Some (files st !! p) /\ Setup.cleared (MemFs.options_at schemaFile trafficFolder reportFile) p = true).
  { intros p. unfold all, Setup.cleared. cbn [schemaPath trafficDir MemFs.options_at].
    rewrite !List.in_app_iff, !In_listing, !orb_true_iff. tauto. }
  assert (Hlook : forall p,
             fold_left (fun w f => delete f w) all (files st) !! p
             = if Setup.cleared (MemFs.options_at schemaFile trafficFolder reportFile) p then None else files st !! p).
  { intros p. rewrite lookup_remove_all.
    destruct (in_dec String.string_dec p all) as [I|N].
    - apply Hall in I as [_ ->]. reflexivity.
    - destruct (Setup.cleared (MemFs.options_at schemaFile trafficFolder reportFile) p) eqn:C; [|reflexivity].
      destruct (files st !! p) eqn:L; [|reflexivity].
      exfalso. apply N, Hall. eauto. }
  unfold clearGeneratedDirectory, try_catch.
  cbn [schemaPath trafficDir MemFs.options_at].
  rewrite (bind_normal _ _ _ _ _ (safeGlob_run _ st)).
  rewrite (bind_normal _ _ _ _ _ (safeGlob_run _ st)).
  rewrite (bind_normal _ _ _ _ _ (safeGlob_run _ st)).
  fold all. destruct (0 <? length all)%nat eqn:E.
  - cbn [fileOps MemFs.options_at MemFs.fileOps removeFile].
    unfold bind at 1. unfold console_log at 1.
    rewrite remove_all_run. eexists. split; [reflexivity|].
    cbn [files set_files set_console]. exact Hlook.
  - exists st. split; [reflexivity|]. intros p. rewrite <- Hlook.
    destruct all; [reflexivity|discriminate].
Qed.

(** X16.  On the in-memory storage, [clearGeneratedDirectory] returns
    normally and removes exactly the files that one of its three patterns
    lists, the [.json] and [.md] files of the directory of the schema and
    the [.json] files of the traffic directory; every other file keeps its
    content. *)
Theorem clearGeneratedDirectory_removes_the_listed_files st :
  exists st',
    clearGeneratedDirectory (MemFs.options_at schemaFile trafficFolder reportFile) st = (Normal tt, st')
    /\ forall path,
         files st' !! path
         = if Setup.cleared (MemFs.options_at schemaFile trafficFolder reportFile) path then None else files st !! path.
Proof. apply clearGeneratedDirectory_run. Qed.

End CleaningFacts.

Section LoadingFacts.

Import Auditor Frame Text.

Variable JSON_parse_traffic : string -> option (list TrafficRecord).
Variables schemaFile trafficFolder reportFile : string.

(** *** Loading *)

Lemma readFile_run file content st :
  files st !! file = Some content ->
  port (readFile (fileOps (MemFs.options_at schemaFile trafficFolder reportFile)) file) st = (Normal content, st).
Proof.
  intros H. unfold port. cbn. unfold MemFs.mem_readFile. rewrite H.
  rewrite set_files_same. reflexivity.
Qed.

Lemma readFile_missing file st :
  files st !! file = None ->
  port (readFile (fileOps (MemFs.options_at schemaFile trafficFolder reportFile)) file) st = (Throw "ENOENT", st).
Proof.
  intros H. unfold port. cbn. unfold MemFs.mem_readFile. rewrite H.
  rewrite set_files_same. reflexivity.
Qed.

Lemma load_traffic_run trafficFiles : forall batches acc st,
  Forall2 (holds_records JSON_parse_traffic (files st)) trafficFiles batches ->
  load_traffic JSON_parse_traffic (MemFs.options_at schemaFile trafficFolder reportFile) trafficFiles acc st
  = (Normal (acc ++ concat batches), st).
Proof.
  induction trafficFiles as [|f rest IH]; intros batches acc st H.
  - apply Forall2_nil_inv_l in H. subst batches. cbn. unfold ret.
    rewrite List.app_nil_r. reflexivity.
  - apply Forall2_cons_inv_l in H as (recs & batches' & (content & Hf & Hp) & Hrest & ->).
    cbn [load_traffic].
    rewrite (bind_normal _ _ _ _ _ (readFile_run _ _ _ Hf)).
    unfold parse_or_throw. rewrite Hp.
    rewrite (bind_normal _ _ st recs st eq_refl).
    rewrite (IH _ _ _ Hrest). cbn [concat]. rewrite List.app_assoc. reflexivity.
Qed.

(** X17.  The loading loop of [generateAuditReport]: when every listed
    traffic file exists and parses, the traffic is the concatenation of the
    records of the files, in the order of the listing, and the storage is
    left as it was. *)
Theorem traffic_files_are_concatenated_in_order trafficFiles batches st :
  Forall2 (holds_records JSON_parse_traffic (files st)) trafficFiles batches ->
  load_traffic JSON_parse_traffic (MemFs.options_at schemaFile trafficFolder reportFile) trafficFiles [] st
  = (Normal (concat batches), st).
Proof. intros H. apply (load_traffic_run _ _ [] _ H). Qed.

Lemma load_traffic_app before : forall batches after acc st,
  Forall2 (holds_records JSON_parse_traffic (files st)) before batches ->
  load_traffic JSON_parse_traffic (MemFs.options_at schemaFile trafficFolder reportFile) (before ++ after) acc st
  = load_traffic JSON_parse_traffic (MemFs.options_at schemaFile trafficFolder reportFile) after (acc ++ concat batches) st.
Proof.
  induction before as [|f rest IH]; intros batches after acc st H.
  - apply Forall2_nil_inv_l in H. subst batches. cbn [concat app].
    rewrite List.app_nil_r. reflexivity.
  - apply Forall2_cons_inv_l in H as (recs & batches' & (content & Hf & Hp) & Hrest & ->).
    cbn [load_traffic app].
    rewrite (bind_normal _ _ _ _ _ (readFile_run _ _ _ Hf)).
    unfold parse_or_throw. rewrite Hp.
    rewrite (bind_normal _ _ st recs st eq_refl).
    rewrite (IH _ _ _ _ Hrest). cbn [concat]. rewrite List.app_assoc. reflexivity.
Qed.

(** X18.  One traffic file that is missing or does not parse aborts the
    whole load: whatever the files before it held and whatever comes after
    it, the loop throws (the error of the read or of the parser), so no
    report is made from the remaining files. *)
Theorem one_bad_traffic_file_aborts_the_load before batches file after acc st :
  Forall2 (holds_records JSON_parse_traffic (files st)) before batches ->
  (forall records, ~ holds_records JSON_parse_traffic (files st) file records) ->
  exists e,
    load_traffic JSON_parse_traffic (MemFs.options_at schemaFile trafficFolder reportFile) (before ++ file :: after) acc st
    = (Throw e, st)
    /\ (e = "ENOENT" \/ e = "SyntaxError").
Proof.
  intros Hb Hbad. rewrite (load_traffic_app _ _ _ _ _ Hb). cbn [load_traffic].
  destruct (files st !! file) as [content|] eqn:L.
  - rewrite (bind_normal _ _ _ _ _ (readFile_run _ _ _ L)).
    unfold parse_or_throw.
    destruct (JSON_parse_traffic content) as [recs|] eqn:P.
    + exfalso. apply (Hbad recs). exists content. auto.
    + exists "SyntaxError". split; [reflexivity|]. right; reflexivity.
  - rewrite (bind_throw _ _ _ _ _ (readFile_missing _ _ L)).
    exists "ENOENT". split; [reflexivity|]. left; reflexivity.
Qed.

End LoadingFacts.

Section DirFacts.

Import Auditor Text.

Lemma split_lacks c u : lacks c u = true -> Js.split c u = [u].
Proof.
  induction u as [|a u IH]; [reflexivity|]. cbn [lacks]. intros H.
  apply andb_true_iff in H as [Ha Hu]. apply negb_true_iff in Ha.
  cbn [Js.split]. rewrite Ha, (IH Hu). reflexivity.
Qed.

Lemma split_snoc c dir name :
  lacks c name = true ->
  Js.split c (dir ++ String c name)%string = (Js.split c dir ++ [name])%list.
Proof.
  intros H. induction dir as [|a dir IH].
  - change (EmptyString ++ String c name)%string with (String c name).
    cbn [Js.split]. rewrite Ascii.eqb_refl, (split_lacks _ _ H). reflexivity.
  - rewrite append_cons. cbn [Js.split]. rewrite IH.
    destruct (Ascii.eqb a c); [reflexivity|].
    destruct (split_nonempty c dir) as (h & rest & ->). reflexivity.
Qed.

(** X19.  [getDir] drops the last segment of a path: for a name without a
    separator, the directory of [dir/name] is [dir], whatever [dir] is, and
    the directory of the bare name is the empty text (so the patterns built
    from it start with a separator). *)
Theorem getDir_drops_the_last_segment dir name :
  lacks "/" name = true ->
  getDir (dir ++ "/" ++ name) = dir /\ getDir name = EmptyString.
Proof.
  intros H. unfold getDir, Js.slice_init. split.
  - change ("/" ++ name)%string with (String "/" name).
    rewrite (split_snoc _ _ _ H), removelast_last. apply join_split.
  - rewrite (split_lacks _ _ H). reflexivity.
Qed.

End DirFacts.

Section SetupFacts.

Import Auditor Frame Text Setup.

Variable JSON_stringify_schema : Schema -> string.
Variables schemaFile trafficFolder reportFile : string.

(** X20.  On the in-memory storage, with a server whose steps succeed and
    leave the storage alone, [setup] returns normally and leaves the schema
    file with the text of the schema the server gave, none of the other
    files that the clean-up patterns list, and every other file as it
    was. *)
Theorem setup_leaves_only_the_new_schema createApp app schema st :
  app_step createApp app ->
  app_step (ready app) tt ->
  app_step (swagger app) schema ->
  app_step (close app) tt ->
  exists st',
    setup JSON_stringify_schema (MemFs.options_at schemaFile trafficFolder reportFile) createApp st = (Normal tt, st')
    /\ forall path,
         files st' !! path
         = if String.eqb path schemaFile
           then Some (JSON_stringify_schema schema)
           else if cleared (MemFs.options_at schemaFile trafficFolder reportFile) path then None else files st !! path.
Proof.
  intros Hc Hr Hs Hx. unfold setup.
  destruct (clearGeneratedDirectory_run schemaFile trafficFolder reportFile st)
    as (s1 & E1 & F1).
  rewrite (bind_normal _ _ _ _ _ E1).
  destruct (Hc s1) as (s2 & E2 & F2). rewrite (bind_normal _ _ _ _ _ E2).
  destruct (Hr s2) as (s3 & E3 & F3). rewrite (bind_normal _ _ _ _ _ E3).
  destruct (Hs s3) as (s4 & E4 & F4). rewrite (bind_normal _ _ _ _ _ E4).
  cbn [fileOps MemFs.options_at MemFs.fileOps mkdir writeFile schemaPath].
  rewrite (bind_normal _ _ s4 tt s4);
    [|unfold port; cbn; rewrite set_files_same; reflexivity].
  pose (s5 := set_files (<[schemaFile := JSON_stringify_schema schema]> (files s4)) s4).
  rewrite (bind_normal _ _ s4 tt s5); [|reflexivity].
  destruct (Hx s5) as (s6 & E6 & F6). rewrite (bind_normal _ _ _ _ _ E6).
  eexists. split; [reflexivity|]. intros path. cbn [files set_console].
  rewrite F6. unfold s5. cbn [files set_files]. rewrite F4, F3, F2.
  destruct (String.eqb path schemaFile) eqn:E.
  - apply String.eqb_eq in E. subst path. apply lookup_insert_eq.
  - apply String.eqb_neq in E. rewrite lookup_insert_ne by congruence. apply F1.
Qed.

End SetupFacts.

Section SetupRefused.

Import Auditor Frame Text Setup.

Variable JSON_stringify_schema : Schema -> string.
Variables schemaFile trafficFolder reportFile : string.

Lemma clearGeneratedDirectory_refused st :
  exists st', clearGeneratedDirectory (mkAuditorOptions schemaFile trafficFolder reportFile DeniedFs.fileOps) st = (Normal tt, st').
Proof. eexists. reflexivity. Qed.

(** X21.  [setup] does not catch what the storage throws: on the storage
    that refuses every write, with a server whose steps succeed, the
    clean-up inside it swallows the refusal and [setup] then throws the
    refusal of the schema directory to its caller. *)
Theorem setup_throws_on_refusing_storage createApp app schema st :
  app_step createApp app ->
  app_step (ready app) tt ->
  app_step (swagger app) schema ->
  exists st',
    setup JSON_stringify_schema (mkAuditorOptions schemaFile trafficFolder reportFile DeniedFs.fileOps) createApp st = (Throw "EACCES", st').
Proof.
  intros Hc Hr Hs. unfold setup.
  destruct (clearGeneratedDirectory_refused st) as (s1 & E1).
  rewrite (bind_normal _ _ _ _ _ E1).
  destruct (Hc s1) as (s2 & E2 & F2). rewrite (bind_normal _ _ _ _ _ E2).
  destruct (Hr s2) as (s3 & E3 & F3). rewrite (bind_normal _ _ _ _ _ E3).
  destruct (Hs s3) as (s4 & E4 & F4). rewrite (bind_normal _ _ _ _ _ E4).
  eexists. reflexivity.
Qed.

End SetupRefused.

Section RoundTrip.

Import Auditor Frame Text.

Variable JSON_stringify : list Partial -> string.
Variable JSON_parse_traffic : string -> option (list TrafficRecord).
Variable JSON_parse_schema : string -> option SchemaDocument.
Variable now : string.
Variables schemaFile trafficFolder reportFile : string.

Lemma wild_match_star pattern path :
  MemFs.wild_match (String "*" pattern) path
  = MemFs.wild_match pattern path
    || match path with
       | EmptyString => false
       | String a path' =>
           negb (Ascii.eqb a "/") && MemFs.wild_match (String "*" pattern) path'
       end.
Proof. destruct path; reflexivity. Qed.

Lemma wild_match_literal pattern : forall path,
  lacks "*" pattern = true ->
  MemFs.wild_match pattern path = String.eqb path pattern.
Proof.
  induction pattern as [|c pattern IH]; intros path H.
  - destruct path; reflexivity.
  - cbn [lacks] in H. apply andb_true_iff in H as [Hc Hp].
    apply negb_true_iff in Hc. cbn [MemFs.wild_match]. rewrite Hc.
    destruct path as [|a path]; [reflexivity|].
    rewrite (IH _ Hp). reflexivity.
Qed.

Lemma wild_match_prefix prefix pattern path :
  lacks "*" prefix = true ->
  MemFs.wild_match (prefix ++ pattern) (prefix ++ path)
  = MemFs.wild_match pattern path.
Proof.
  induction prefix as [|c prefix IH]; intros H; [reflexivity|].
  cbn [lacks] in H. apply andb_true_iff in H as [Hc Hp].
  apply negb_true_iff in Hc. rewrite !append_cons. cbn [MemFs.wild_match].
  rewrite Hc, Ascii.eqb_refl. apply IH, Hp.
Qed.

Lemma wild_match_star_name pattern name rest :
  lacks "/" name = true ->
  MemFs.wild_match pattern rest = true ->
  MemFs.wild_match (String "*" pattern) (name ++ rest) = true.
Proof.
  intros Hn Hr. induction name as [|a name IH].
  - change (EmptyString ++ rest)%string with rest.
    rewrite wild_match_star, Hr. reflexivity.
  - cbn [lacks] in Hn. apply andb_true_iff in Hn as [Ha Hn].
    rewrite append_cons, wild_match_star, Ha, (IH Hn). apply orb_true_r.
Qed.

Lemma snapshot_is_listed suite :
  lacks "*" trafficFolder = true ->
  lacks "/" suite = true ->
  MemFs.wild_match (trafficFolder ++ "/*.json")
    (snapshot_path trafficFolder suite) = true.
Proof.
  intros Hd Hs. unfold snapshot_path. rewrite (wild_match_prefix _ _ _ Hd).
  change ("/*.json") with ("/" ++ "*.json")%string.
  rewrite (wild_match_prefix "/" _ _ eq_refl).
  apply (wild_match_star_name _ _ _ Hs). reflexivity.
Qed.

Lemma only_member {A : Type} (a : A) l :
  List.NoDup l -> (forall x, In x l <-> x = a) -> l = [a].
Proof.
  intros Hnd H. destruct l as [|x l].
  - exfalso. apply (proj2 (H a) eq_refl).
  - assert (x = a) by (apply H; left; reflexivity). subst x.
    destruct l as [|y l]; [reflexivity|].
    assert (y = a) by (apply H; right; left; reflexivity). subst y.
    inversion Hnd as [|? ? Hn _]. exfalso. apply Hn. left. reflexivity.
Qed.

Lemma listing_NoDup pattern (w : gmap string string) :
  List.NoDup (List.filter (MemFs.wild_match pattern) (map fst (map_to_list w))).
Proof.
  apply List.NoDup_filter. apply NoDup_ListNoDup.
  exact (NoDup_fst_map_to_list w).
Qed.

(** X22.  [writeTraffic] followed by [generateAuditReport] on the in-memory
    storage: when the log is not empty, the suite name holds no separator,
    the traffic directory holds no star, no other traffic file is present
    and the schema file parses, the result is that of [generateReport] on
    the parsed schema and on what the parser reads back from the snapshot
    just written (the placeholder report when that is empty), and the
    snapshot is the only file that changed. *)
Theorem report_is_made_from_the_written_snapshot suite st refs records schemaText
    doc parsed :
  arrays st !! traffic st = Some refs ->
  refs <> [] ->
  mapM (fun r => objects st !! r) refs = Some records ->
  lacks "*" trafficFolder = true ->
  lacks "/" suite = true ->
  (forall p, is_Some (files st !! p) ->
             MemFs.wild_match (trafficFolder ++ "/*.json") p = true ->
             p = snapshot_path trafficFolder suite) ->
  schemaFile <> snapshot_path trafficFolder suite ->
  files st !! schemaFile = Some schemaText ->
  JSON_parse_schema schemaText = Some doc ->
  JSON_parse_traffic (JSON_stringify records) = Some parsed ->
  exists st',
    (writeTraffic JSON_stringify (MemFs.options_at schemaFile trafficFolder reportFile) suite ;;;
     generateAuditReport JSON_parse_traffic JSON_parse_schema now (MemFs.options_at schemaFile trafficFolder reportFile)) st
    = (if (length parsed =? 0)%nat
       then ret (Render.generateEmptyReport now)
       else generateReport now doc parsed) st'
    /\ files st'
       = <[snapshot_path trafficFolder suite := JSON_stringify records]>
           (files st).
Proof.
  intros Ha Hne Ho Hd Hs Honly Hneq Hschema Hdoc Hparse.
  destruct (writeTraffic_persists JSON_stringify schemaFile trafficFolder
              reportFile suite st refs records Ha Hne Ho)
    as (s1 & E1 & F1 & _).
  exists s1. split; [|exact F1].
  rewrite (bind_normal _ _ _ _ _ E1). unfold generateAuditReport.
  assert (L1 : files s1 !! schemaFile = Some schemaText).
  { rewrite F1, lookup_insert_ne by congruence. exact Hschema. }
  rewrite (bind_normal _ _ _ _ _ (readFile_run _ _ _ _ _ _ L1)).
  unfold parse_or_throw at 1. rewrite Hdoc.
  rewrite (bind_normal _ _ s1 doc s1 eq_refl).
  assert (G : port (glob (fileOps (MemFs.options_at schemaFile trafficFolder reportFile)) (trafficDir (MemFs.options_at schemaFile trafficFolder reportFile) ++ "/*.json")) s1
              = (Normal [snapshot_path trafficFolder suite], s1)).
  { unfold port. cbn. rewrite set_files_same. f_equal. f_equal.
    apply only_member; [apply listing_NoDup|]. intros x.
    rewrite In_listing, F1. split.
    - intros [Hx Hm]. destruct (decide (x = snapshot_path trafficFolder suite)) as [|N];
        [assumption|].
      rewrite lookup_insert_ne in Hx by congruence. apply Honly; assumption.
    - intros ->. split; [rewrite lookup_insert_eq; eauto|].
      apply snapshot_is_listed; assumption. }
  rewrite (bind_normal _ _ _ _ _ G).
  assert (Hload : Forall2 (holds_records JSON_parse_traffic (files s1))
                    [snapshot_path trafficFolder suite] [parsed]).
  { constructor; [|constructor]. exists (JSON_stringify records). split; [|exact Hparse].
    rewrite F1. apply lookup_insert_eq. }
  rewrite (bind_normal _ _ _ _ _
             (load_traffic_run JSON_parse_traffic schemaFile trafficFolder
                reportFile _ _ [] _ Hload)).
  cbn [concat app]. rewrite List.app_nil_r. reflexivity.
Qed.

End RoundTrip.

Section TestPortFacts.

Import Text TestPort.

Variable readdirSync : string -> option (list string).
Variable join : string -> string -> string.

Lemma lastIndexOf_from_lacks c s : forall i found,
  lacks c s = true -> lastIndexOf_from c i found s = found.
Proof.
  induction s as [|a s IH]; intros i found H; [reflexivity|].
  cbn [lacks] in H. apply andb_true_iff in H as [Ha Hs].
  apply negb_true_iff in Ha. cbn [lastIndexOf_from]. rewrite Ha. apply IH, Hs.
Qed.

Lemma lastIndexOf_from_last c dir rest : forall i found,
  lacks c rest = true ->
  lastIndexOf_from c i found (dir ++ String c rest)
  = (i + Z.of_nat (String.length dir))%Z.
Proof.
  induction dir as [|a dir IH]; intros i found H.
  - change (EmptyString ++ String c rest)%string with (String c rest).
    cbn [lastIndexOf_from String.length]. rewrite Ascii.eqb_refl.
    rewrite (lastIndexOf_from_lacks _ _ _ _ H). lia.
  - rewrite append_cons. cbn [lastIndexOf_from String.length].
    rewrite (IH _ _ H). lia.
Qed.

Lemma substring_whole s : String.substring 0 (String.length s) s = s.
Proof. induction s as [|a s IH]; [reflexivity|]. cbn. rewrite IH. reflexivity. Qed.

Lemma substring_head dir rest :
  String.substring 0 (String.length dir) (dir ++ rest) = dir.
Proof.
  induction dir as [|a dir IH].
  - destruct rest; reflexivity.
  - rewrite append_cons. cbn. rewrite IH. reflexivity.
Qed.

Lemma substring_skip dir rest n :
  String.substring (String.length dir) n (dir ++ rest) = String.substring 0 n rest.
Proof.
  induction dir as [|a dir IH]; [reflexivity|].
  rewrite append_cons. cbn [String.length String.substring]. exact IH.
Qed.

Lemma dir_of_pattern dir filePattern :
  lacks "/" filePattern = true ->
  lastIndexOf "/" (dir ++ "/" ++ filePattern) = Z.of_nat (String.length dir)
  /\ substring 0 (Z.of_nat (String.length dir)) (dir ++ "/" ++ filePattern) = dir
  /\ substring_from (Z.of_nat (String.length dir) + 1) (dir ++ "/" ++ filePattern)
     = filePattern.
Proof.
  intros H. change ("/" ++ filePattern)%string with (String "/" filePattern).
  split; [|split].
  - unfold lastIndexOf. rewrite (lastIndexOf_from_last _ _ _ _ _ H). lia.
  - unfold substring. rewrite Z.sub_0_r, Nat2Z.id. apply substring_head.
  - unfold substring_from.
    replace (Z.to_nat (Z.of_nat (String.length dir) + 1)) with (S (String.length dir)) by lia.
    rewrite append_length. cbn [String.length].
    replace (String.length dir + S (String.length filePattern) - S (String.length dir))%nat
      with (String.length filePattern) by lia.
    change (dir ++ String "/" filePattern)%string
      with (dir ++ String "/" filePattern)%string.
    transitivity (String.substring 0 (String.length filePattern) filePattern);
      [|apply substring_whole].
    clear H. induction dir as [|a dir IH]; [reflexivity|].
    rewrite append_cons. cbn [String.length String.substring]. exact IH.
Qed.

(** X23.  The [glob] of the file port of the integration tests, on a
    pattern [dir/filePattern] with a non-empty directory and no separator
    in the file pattern: it lists the entries of [dir] whose name ends with
    the file pattern less its first star, each joined to [dir], and lists
    nothing when the directory cannot be read.  The two special cases
    [*.json] and [*.md] give what the general case gives. *)
Theorem glob_lists_by_suffix dir filePattern :
  dir <> EmptyString ->
  lacks "/" filePattern = true ->
  glob readdirSync join (dir ++ "/" ++ filePattern)
  = match readdirSync dir with
    | Some files =>
        map (join dir) (List.filter (endsWith (drop_first_star filePattern)) files)
    | None => []
    end.
Proof.
  intros Hd H. unfold glob.
  destruct (dir_of_pattern dir filePattern H) as (-> & -> & ->).
  assert (Hpos : (0 <? Z.of_nat (String.length dir))%Z = true).
  { apply Z.ltb_lt. destruct dir; [congruence|cbn [String.length]; lia]. }
  rewrite Hpos.
  destruct (readdirSync dir) as [files|]; [|reflexivity].
  destruct (String.eqb filePattern "*.json") eqn:E1.
  { apply String.eqb_eq in E1. subst. reflexivity. }
  destruct (String.eqb filePattern "*.md") eqn:E2.
  { apply String.eqb_eq in E2. subst. reflexivity. }
  reflexivity.
Qed.

(** X24.  The same [glob] reads a pattern that starts with its only
    separator as a pattern of the current directory: [/name] lists exactly
    what [name] lists, the matching entries of [.]. *)
Theorem glob_takes_rooted_pattern_as_relative name :
  lacks "/" name = true ->
  glob readdirSync join ("/" ++ name) = glob readdirSync join name
  /\ glob readdirSync join name
     = match readdirSync "." with
       | Some files =>
           map (join ".") (List.filter (endsWith (drop_first_star name)) files)
       | None => []
       end.
Proof.
  intros H.
  assert (G : forall pattern,
             lastIndexOf "/" pattern = 0%Z \/ lastIndexOf "/" pattern = (-1)%Z ->
             substring_from (lastIndexOf "/" pattern + 1) pattern = name ->
             glob readdirSync join pattern
             = match readdirSync "." with
               | Some files =>
                   map (join ".")
                     (List.filter (endsWith (drop_first_star name)) files)
               | None => []
               end).
  { intros pattern Hi Hf. unfold glob. rewrite Hf.
    assert (Hneg : (0 <? lastIndexOf "/" pattern)%Z = false)
      by (apply Z.ltb_ge; destruct Hi as [->| ->]; lia).
    rewrite Hneg.
    destruct (readdirSync ".") as [files|]; [|reflexivity].
    destruct (String.eqb name "*.json") eqn:E1.
    { apply String.eqb_eq in E1. rewrite E1. reflexivity. }
    destruct (String.eqb name "*.md") eqn:E2.
    { apply String.eqb_eq in E2. rewrite E2. reflexivity. }
    reflexivity. }
  assert (I0 : lastIndexOf "/" ("/" ++ name) = 0%Z).
  { destruct (dir_of_pattern EmptyString name H) as (E & _). exact E. }
  assert (I1 : lastIndexOf "/" name = (-1)%Z).
  { unfold lastIndexOf. apply lastIndexOf_from_lacks, H. }
  assert (G0 := G ("/" ++ name)%string (or_introl I0)).
  assert (G1 := G name (or_intror I1)).
  rewrite G0, G1.
  - split; reflexivity.
  - rewrite I1. unfold substring_from. cbn [Z.add Z.to_nat].
    rewrite Nat.sub_0_r. apply substring_whole.
  - rewrite I0. destruct (dir_of_pattern EmptyString name H) as (_ & _ & E). exact E.
Qed.

(** X25.  For an entry name without a separator and an extension without a
    star, the suffix test of that [glob] accepts exactly the names that the
    pattern made of a star and the extension denotes, the star standing for
    any run of characters other than the separator. *)
Theorem suffix_filter_is_the_star_pattern ext file :
  lacks "*" ext = true ->
  lacks "/" file = true ->
  endsWith ext file = MemFs.wild_match ("*" ++ ext) file.
Proof.
  intros He Hf. change ("*" ++ ext)%string with (String "*" ext).
  induction file as [|a file IH].
  - rewrite wild_match_star, (wild_match_literal _ _ He). cbn [endsWith].
    reflexivity.
  - cbn [lacks] in Hf. apply andb_true_iff in Hf as [Ha Hfile].
    rewrite wild_match_star, (wild_match_literal _ _ He), Ha.
    cbn [endsWith andb]. rewrite (IH Hfile). reflexivity.
Qed.

End TestPortFacts.

(** ** Instances of the further properties *)

Section FurtherInstances.

Import Auditor Frame Text.

(** X1 on a request for one item. *)
Lemma normalizePathForSchema_ignores_query_witness :
  lacks "?" "/items/42" = true
  /\ PathMatcher.normalizePathForSchema ("/items/42" ++ "?" ++ "verbose=1")
       Examples.items
     = PathMatcher.normalizePathForSchema "/items/42" Examples.items.
Proof.
  split; [reflexivity|].
  apply (normalizePathForSchema_ignores_query "/items/42" "verbose=1"
           Examples.items).
  reflexivity.
Defined.

(** X2 on a template requested literally. *)
Lemma declared_path_matches_itself_witness :
  In "/items/{id}" (keys Examples.items)
  /\ lacks "?" "/items/{id}" = true
  /\ PathMatcher.normalizePathForSchema "/items/{id}" Examples.items
     = PathMatcher.Matched "/items/{id}".
Proof.
  assert (H : In "/items/{id}" (keys Examples.items))
    by (right; left; reflexivity).
  split; [exact H|]. split; [reflexivity|].
  apply (declared_path_matches_itself "/items/{id}" Examples.items H).
  reflexivity.
Defined.

(** X3 on a request for one item, and on a request for [toString]. *)
Lemma matched_template_is_declared_witness :
  PathMatcher.normalizePathForSchema "/items/42" Examples.items
  = PathMatcher.Matched "/items/{id}"
  /\ (In "/items/{id}" (keys Examples.items)
      \/ ("/items/{id}" = Js.first (Js.split "?" "/items/42")
          /\ In "/items/{id}" PathMatcher.inherited_members))
  /\ PathMatcher.normalizePathForSchema "toString?x=1" Examples.items
     = PathMatcher.Matched "toString"
  /\ (In "toString" (keys Examples.items)
      \/ ("toString" = Js.first (Js.split "?" "toString?x=1")
          /\ In "toString" PathMatcher.inherited_members)).
Proof.
  split; [reflexivity|]. split.
  - apply (matched_template_is_declared "/items/42" Examples.items "/items/{id}").
    reflexivity.
  - split; [reflexivity|].
    apply (matched_template_is_declared "toString?x=1" Examples.items "toString").
    reflexivity.
Defined.

(** X4: the version [1x0] is taken for the version [1.0]. *)
Lemma unescaped_dot_matches_any_character_witness :
  PathMatcher.plain "/v1" = true
  /\ PathMatcher.plain "0/items" = true
  /\ PathMatcher.is_ascii_text ("/v1" ++ String "x" "0/items") = true
  /\ PathMatcher.is_line_terminator "x" = false
  /\ Ascii.eqb "x" "?" = false
  /\ obj_get (@nil (string * PathItem)) ("/v1" ++ String "x" "0/items") = None
  /\ PathMatcher.inherited ("/v1" ++ String "x" "0/items") = false
  /\ PathMatcher.normalizePathForSchema ("/v1" ++ String "x" "0/items")
       ((("/v1" ++ "." ++ "0/items")%string, [("get", ["200"])]) :: [])
     = PathMatcher.Matched ("/v1" ++ "." ++ "0/items").
Proof.
  split; [reflexivity|]. split; [reflexivity|]. split; [reflexivity|].
  split; [reflexivity|]. split; [reflexivity|]. split; [reflexivity|].
  split; [reflexivity|].
  apply (unescaped_dot_matches_any_character "/v1" "0/items" "x"
           [("get", ["200"])] []); reflexivity.
Defined.

(** X5 on one record of the two-path schema. *)
Lemma tested_paths_are_declared_witness :
  Report.analyze Examples.items Report.empty_analysis [Examples.get_item]
  = Some (Cases.analysis_of Examples.items [Examples.get_item])
  /\ (forall p,
        In p (Report.testedPaths
                (Cases.analysis_of Examples.items [Examples.get_item])) ->
        p <> EmptyString /\ In p (keys Examples.items))
  /\ List.NoDup (Report.testedPaths
                   (Cases.analysis_of Examples.items [Examples.get_item]))
  /\ (length (Report.testedPaths
                (Cases.analysis_of Examples.items [Examples.get_item]))
      <= Report.totalPaths Examples.items)%nat.
Proof.
  split; [reflexivity|].
  destruct (tested_paths_are_declared Examples.items [Examples.get_item]
              (Cases.analysis_of Examples.items [Examples.get_item]) eq_refl)
    as (Hin & Hnd & Hle).
  split; [|split; [exact Hnd|]].
  - intros p Hp. destruct (Hin p Hp) as [Hne [Hk|(Hi & r & Hr & ->)]];
      [split; assumption|].
    destruct Hr as [<-|[]]. exfalso.
    apply (proj1 (List.Forall_forall (fun name => name <> "/items/42") _)) in Hi;
      [apply Hi; reflexivity|].
    repeat constructor; discriminate.
  - apply Hle. intros r [<-|[]]. reflexivity.
Defined.

(** X8 on one record of the two-path schema. *)
Lemma tested_statuses_are_the_observed_ones_witness :
  Report.analyze Examples.items Report.empty_analysis [Examples.get_item]
  = Some (Cases.analysis_of Examples.items [Examples.get_item])
  /\ forall p m z,
       In z (Report.tested_statuses
               (Cases.analysis_of Examples.items [Examples.get_item]) p m)
       <-> exists record,
             In record [Examples.get_item]
             /\ Coverage.documented_as Examples.items p m z record.
Proof.
  split; [reflexivity|].
  apply (tested_statuses_are_the_observed_ones Examples.items
           [Examples.get_item]).
  reflexivity.
Defined.

(** X9 on a method key written in upper case. *)
Lemma upper_case_method_key_never_covered_witness :
  Report.analyze Examples.items Report.empty_analysis [Examples.get_item]
  = Some (Cases.analysis_of Examples.items [Examples.get_item])
  /\ Js.toLowerCase "GET" <> "GET"
  /\ Report.tested_statuses
       (Cases.analysis_of Examples.items [Examples.get_item]) "/items/{id}" "GET"
     = []
  /\ Report.missing_statuses
       (Cases.analysis_of Examples.items [Examples.get_item]) "/items/{id}"
       [("GET", ["200"])] "GET"
     = Report.expected_statuses [("GET", ["200"])] "GET".
Proof.
  assert (H : Js.toLowerCase "GET" <> "GET") by discriminate.
  split; [reflexivity|]. split; [exact H|].
  apply (upper_case_method_key_never_covered Examples.items [Examples.get_item]
           _ "/items/{id}" "GET" [("GET", ["200"])] eq_refl H).
Defined.

(** X10 on a method that declares a [default] response. *)
Lemma non_numeric_response_key_is_always_missing_witness :
  In ("/items", [("get", ["200"; "default"])]) Cases.with_default
  /\ In "/items" (Report.testedPaths
                    (Cases.analysis_of Cases.with_default [Cases.get_items]))
  /\ In "get" (Report.methods_of [("get", ["200"; "default"])])
  /\ In "default" (Report.status_keys [("get", ["200"; "default"])] "get")
  /\ Js.Number "default" = Js.NaN
  /\ In Js.NaN
       (Report.missing_statuses
          (Cases.analysis_of Cases.with_default [Cases.get_items]) "/items"
          [("get", ["200"; "default"])] "get")
  /\ In "/items"
       (Report.partiallyTestedPaths
          (Cases.analysis_of Cases.with_default [Cases.get_items])
          Cases.with_default).
Proof.
  assert (H1 : In ("/items", [("get", ["200"; "default"])]) Cases.with_default)
    by (left; reflexivity).
  assert (H2 : In "/items"
                 (Report.testedPaths
                    (Cases.analysis_of Cases.with_default [Cases.get_items])))
    by (left; reflexivity).
  assert (H3 : In "get" (Report.methods_of [("get", ["200"; "default"])]))
    by (left; reflexivity).
  assert (H4 : In "default"
                 (Report.status_keys [("get", ["200"; "default"])] "get"))
    by (right; left; reflexivity).
  split; [exact H1|]. split; [exact H2|]. split; [exact H3|].
  split; [exact H4|]. split; [reflexivity|].
  apply (non_numeric_response_key_is_always_missing _ Cases.with_default
           "/items" [("get", ["200"; "default"])] "get" "default"
           H1 H2 H3 H4 eq_refl).
Defined.

(** X13 on the storage that refuses every write. *)
Lemma writeTraffic_keeps_log_when_refused_witness :
  arrays Cases.logged_refused !! traffic Cases.logged_refused
  = Some [0%nat; 1%nat]
  /\ [0%nat; 1%nat] <> []
  /\ mapM (fun r => objects Cases.logged_refused !! r) [0%nat; 1%nat]
     = Some [Examples.first_record; Examples.second_record]
  /\ exists st',
       writeTraffic Examples.count_records (Examples.options DeniedFs.fileOps)
         "users" Cases.logged_refused
       = (Normal tt, st')
       /\ console st'
          = console Cases.logged_refused
            ++ [LogError ("Failed to write traffic for " ++ "users" ++ ":")
                  "EACCES"]
       /\ arrays st' = arrays Cases.logged_refused
       /\ objects st' = objects Cases.logged_refused
       /\ traffic st' = traffic Cases.logged_refused.
Proof.
  assert (H : [0%nat; 1%nat] <> []) by discriminate.
  split; [reflexivity|]. split; [exact H|]. split; [reflexivity|].
  apply (writeTraffic_keeps_log_when_refused Examples.count_records
           (Examples.options DeniedFs.fileOps) "users" Cases.logged_refused
           [0%nat; 1%nat] [Examples.first_record; Examples.second_record]
           "EACCES" Cases.logged_refused eq_refl H eq_refl eq_refl).
Defined.

(** X15 on a file of another directory. *)
Lemma teardown_writes_only_its_outputs_witness :
  "./src/index.ts" <> teardown_snapshot "./generated/traffic"
  /\ "./src/index.ts" <> "./generated/audit-report.md"
  /\ files (snd (teardown Examples.count_records Examples.parse_no_traffic
                   Examples.parse_empty_schema "now"
                   (MemFs.options_at "./generated/openapi-schema.json"
                      "./generated/traffic" "./generated/audit-report.md")
                   Cases.stale)) !! "./src/index.ts"
     = files Cases.stale !! "./src/index.ts".
Proof.
  assert (H1 : "./src/index.ts" <> teardown_snapshot "./generated/traffic")
    by discriminate.
  assert (H2 : "./src/index.ts" <> "./generated/audit-report.md")
    by discriminate.
  split; [exact H1|]. split; [exact H2|].
  apply (teardown_writes_only_its_outputs Examples.count_records
           Examples.parse_no_traffic Examples.parse_empty_schema "now"
           "./generated/openapi-schema.json" "./generated/traffic"
           "./generated/audit-report.md" Cases.stale "./src/index.ts" H1 H2).
Defined.

(** X17 on a storage with one traffic file. *)
Lemma traffic_files_are_concatenated_in_order_witness :
  Forall2 (holds_records Cases.parse_one_record (files Cases.stale))
    ["./generated/traffic/old.json"] [[Cases.get_items]]
  /\ load_traffic Cases.parse_one_record
       (MemFs.options_at "./generated/openapi-schema.json"
          "./generated/traffic" "./generated/audit-report.md")
       ["./generated/traffic/old.json"] [] Cases.stale
     = (Normal (concat [[Cases.get_items]]), Cases.stale).
Proof.
  assert (H : Forall2 (holds_records Cases.parse_one_record (files Cases.stale))
                ["./generated/traffic/old.json"] [[Cases.get_items]]).
  { constructor; [|constructor]. exists "[]". split; reflexivity. }
  split; [exact H|].
  apply (traffic_files_are_concatenated_in_order Cases.parse_one_record
           "./generated/openapi-schema.json" "./generated/traffic"
           "./generated/audit-report.md" _ _ Cases.stale H).
Defined.

(** X18 on a listing whose second file is missing. *)
Lemma one_bad_traffic_file_aborts_the_load_witness :
  Forall2 (holds_records Cases.parse_one_record (files Cases.stale))
    ["./generated/traffic/old.json"] [[Cases.get_items]]
  /\ (forall records,
        ~ holds_records Cases.parse_one_record (files Cases.stale)
            "./generated/traffic/gone.json" records)
  /\ exists e,
       load_traffic Cases.parse_one_record
         (MemFs.options_at "./generated/openapi-schema.json"
            "./generated/traffic" "./generated/audit-report.md")
         (["./generated/traffic/old.json"]
          ++ "./generated/traffic/gone.json" :: ["./generated/traffic/old.json"])
         [] Cases.stale
       = (Throw e, Cases.stale)
       /\ (e = "ENOENT" \/ e = "SyntaxError").
Proof.
  assert (H : Forall2 (holds_records Cases.parse_one_record (files Cases.stale))
                ["./generated/traffic/old.json"] [[Cases.get_items]]).
  { constructor; [|constructor]. exists "[]". split; reflexivity. }
  assert (Hbad : forall records,
             ~ holds_records Cases.parse_one_record (files Cases.stale)
                 "./generated/traffic/gone.json" records).
  { intros records (content & Hc & _). vm_compute in Hc. discriminate Hc. }
  split; [exact H|]. split; [exact Hbad|].
  apply (one_bad_traffic_file_aborts_the_load Cases.parse_one_record
           "./generated/openapi-schema.json" "./generated/traffic"
           "./generated/audit-report.md" _ _ _ _ [] Cases.stale H Hbad).
Defined.

(** X19 on the schema path of the user service. *)
Lemma getDir_drops_the_last_segment_witness :
  lacks "/" "openapi-schema.json" = true
  /\ getDir ("./generated" ++ "/" ++ "openapi-schema.json") = "./generated"
  /\ getDir "openapi-schema.json" = EmptyString.
Proof.
  split; [reflexivity|].
  apply (getDir_drops_the_last_segment "./generated" "openapi-schema.json").
  reflexivity.
Defined.

(** X20 on a storage with stale files. *)
Lemma setup_leaves_only_the_new_schema_witness :
  Setup.app_step (W := gmap string string) (ret (Cases.quiet_app (gmap string string)))
    (Cases.quiet_app (gmap string string))
  /\ Setup.app_step (W := gmap string string) (Setup.ready (Cases.quiet_app (gmap string string))) tt
  /\ Setup.app_step (W := gmap string string) (Setup.swagger (Cases.quiet_app (gmap string string)))
       (mkSchema None)
  /\ Setup.app_step (W := gmap string string) (Setup.close (Cases.quiet_app (gmap string string))) tt
  /\ exists st',
       Setup.setup Cases.stringify_schema
         (MemFs.options_at "./generated/openapi-schema.json"
            "./generated/traffic" "./generated/audit-report.md")
         (ret (Cases.quiet_app (gmap string string))) Cases.stale
       = (Normal tt, st')
       /\ forall path,
            files st' !! path
            = if String.eqb path "./generated/openapi-schema.json"
              then Some (Cases.stringify_schema (mkSchema None))
              else if Setup.cleared
                        (MemFs.options_at "./generated/openapi-schema.json"
                           "./generated/traffic" "./generated/audit-report.md")
                        path
                   then None
                   else files Cases.stale !! path.
Proof.
  assert (H1 : Setup.app_step (W := gmap string string)
                 (ret (Cases.quiet_app (gmap string string))) (Cases.quiet_app (gmap string string)))
    by (intros st; exists st; split; reflexivity).
  assert (H2 : Setup.app_step (W := gmap string string)
                 (Setup.ready (Cases.quiet_app (gmap string string))) tt)
    by (intros st; exists st; split; reflexivity).
  assert (H3 : Setup.app_step (W := gmap string string)
                 (Setup.swagger (Cases.quiet_app (gmap string string))) (mkSchema None))
    by (intros st; exists st; split; reflexivity).
  assert (H4 : Setup.app_step (W := gmap string string)
                 (Setup.close (Cases.quiet_app (gmap string string))) tt)
    by (intros st; exists st; split; reflexivity).
  split; [exact H1|]. split; [exact H2|]. split; [exact H3|].
  split; [exact H4|].
  apply (setup_leaves_only_the_new_schema Cases.stringify_schema
           "./generated/openapi-schema.json" "./generated/traffic"
           "./generated/audit-report.md" (ret (Cases.quiet_app (gmap string string))) (Cases.quiet_app (gmap string string))
           (mkSchema None) Cases.stale H1 H2 H3 H4).
Defined.

(** X21 on the same server over the refusing storage. *)
Lemma setup_throws_on_refusing_storage_witness :
  Setup.app_step (W := unit) (ret (Cases.quiet_app unit)) (Cases.quiet_app unit)
  /\ Setup.app_step (W := unit) (Setup.ready (Cases.quiet_app unit)) tt
  /\ Setup.app_step (W := unit) (Setup.swagger (Cases.quiet_app unit)) (mkSchema None)
  /\ exists st',
       Setup.setup Cases.stringify_schema
         (mkAuditorOptions "./generated/openapi-schema.json"
            "./generated/traffic" "./generated/audit-report.md"
            DeniedFs.fileOps)
         (ret (Cases.quiet_app unit)) Cases.logged_refused
       = (Throw "EACCES", st').
Proof.
  assert (H1 : Setup.app_step (W := unit) (ret (Cases.quiet_app unit)) (Cases.quiet_app unit))
    by (intros st; exists st; split; reflexivity).
  assert (H2 : Setup.app_step (W := unit) (Setup.ready (Cases.quiet_app unit)) tt)
    by (intros st; exists st; split; reflexivity).
  assert (H3 : Setup.app_step (W := unit) (Setup.swagger (Cases.quiet_app unit))
                 (mkSchema None))
    by (intros st; exists st; split; reflexivity).
  split; [exact H1|]. split; [exact H2|]. split; [exact H3|].
  apply (setup_throws_on_refusing_storage Cases.stringify_schema
           "./generated/openapi-schema.json" "./generated/traffic"
           "./generated/audit-report.md" (ret (Cases.quiet_app unit)) (Cases.quiet_app unit)
           (mkSchema None) Cases.logged_refused H1 H2 H3).
Defined.

(** X22 on a log of two records. *)
Lemma report_is_made_from_the_written_snapshot_witness :
  arrays Cases.logged_with_schema !! traffic Cases.logged_with_schema
  = Some [0%nat; 1%nat]
  /\ [0%nat; 1%nat] <> []
  /\ mapM (fun r => objects Cases.logged_with_schema !! r) [0%nat; 1%nat]
     = Some [Examples.first_record; Examples.second_record]
  /\ lacks "*" "./generated/traffic" = true
  /\ lacks "/" "users" = true
  /\ (forall p,
        is_Some (files Cases.logged_with_schema !! p) ->
        MemFs.wild_match ("./generated/traffic" ++ "/*.json") p = true ->
        p = snapshot_path "./generated/traffic" "users")
  /\ "./generated/openapi-schema.json"
     <> snapshot_path "./generated/traffic" "users"
  /\ files Cases.logged_with_schema !! "./generated/openapi-schema.json"
     = Some "{}"
  /\ Examples.parse_empty_schema "{}" = Some (DocSchema (mkSchema None))
  /\ Cases.parse_one_record
       (Examples.count_records [Examples.first_record; Examples.second_record])
     = Some [Cases.get_items]
  /\ exists st',
       (writeTraffic Examples.count_records
          (MemFs.options_at "./generated/openapi-schema.json"
             "./generated/traffic" "./generated/audit-report.md") "users" ;;;
        generateAuditReport Cases.parse_one_record Examples.parse_empty_schema
          "now"
          (MemFs.options_at "./generated/openapi-schema.json"
             "./generated/traffic" "./generated/audit-report.md"))
         Cases.logged_with_schema
       = (if (length [Cases.get_items] =? 0)%nat
          then ret (Render.generateEmptyReport "now")
          else generateReport "now" (DocSchema (mkSchema None))
                 [Cases.get_items]) st'
       /\ files st'
          = <[snapshot_path "./generated/traffic" "users"
              := Examples.count_records
                   [Examples.first_record; Examples.second_record]]>
              (files Cases.logged_with_schema).
Proof.
  assert (H2 : [0%nat; 1%nat] <> []) by discriminate.
  assert (H6 : forall p,
             is_Some (files Cases.logged_with_schema !! p) ->
             MemFs.wild_match ("./generated/traffic" ++ "/*.json") p = true ->
             p = snapshot_path "./generated/traffic" "users").
  { intros p [v Hv] Hm. unfold Cases.logged_with_schema in Hv.
    cbn [files] in Hv. apply lookup_singleton_Some in Hv as [<- _].
    vm_compute in Hm. discriminate Hm. }
  assert (H7 : "./generated/openapi-schema.json"
               <> snapshot_path "./generated/traffic" "users") by discriminate.
  split; [reflexivity|]. split; [exact H2|]. split; [reflexivity|].
  split; [reflexivity|]. split; [reflexivity|]. split; [exact H6|].
  split; [exact H7|]. split; [reflexivity|]. split; [reflexivity|].
  split; [reflexivity|].
  apply (report_is_made_from_the_written_snapshot Examples.count_records
           Cases.parse_one_record Examples.parse_empty_schema "now"
           "./generated/openapi-schema.json" "./generated/traffic"
           "./generated/audit-report.md" "users" Cases.logged_with_schema
           [0%nat; 1%nat] [Examples.first_record; Examples.second_record] "{}"
           (DocSchema (mkSchema None)) [Cases.get_items]
           eq_refl H2 eq_refl eq_refl eq_refl H6 H7 eq_refl eq_refl eq_refl).
Defined.

(** X23 on the traffic directory of the user service. *)
Lemma glob_lists_by_suffix_witness :
  "./generated/traffic" <> EmptyString
  /\ lacks "/" "*.json" = true
  /\ TestPort.glob Cases.listing Cases.join
       ("./generated/traffic" ++ "/" ++ "*.json")
     = match Cases.listing "./generated/traffic" with
       | Some files =>
           map (Cases.join "./generated/traffic")
             (List.filter (endsWith (drop_first_star "*.json")) files)
       | None => []
       end.
Proof.
  assert (H : "./generated/traffic" <> EmptyString) by discriminate.
  split; [exact H|]. split; [reflexivity|].
  apply (glob_lists_by_suffix Cases.listing Cases.join "./generated/traffic"
           "*.json" H eq_refl).
Defined.

(** X24 on the pattern that a schema path without directory gives. *)
Lemma glob_takes_rooted_pattern_as_relative_witness :
  lacks "/" "*.json" = true
  /\ TestPort.glob Cases.listing Cases.join ("/" ++ "*.json")
     = TestPort.glob Cases.listing Cases.join "*.json"
  /\ TestPort.glob Cases.listing Cases.join "*.json"
     = match Cases.listing "." with
       | Some files =>
           map (Cases.join ".")
             (List.filter (endsWith (drop_first_star "*.json")) files)
       | None => []
       end.
Proof.
  split; [reflexivity|].
  apply (glob_takes_rooted_pattern_as_relative Cases.listing Cases.join
           "*.json" eq_refl).
Defined.

(** X25 on a snapshot name. *)
Lemma suffix_filter_is_the_star_pattern_witness :
  lacks "*" ".json" = true
  /\ lacks "/" "users.json" = true
  /\ endsWith ".json" "users.json" = MemFs.wild_match ("*" ++ ".json") "users.json".
Proof.
  split; [reflexivity|]. split; [reflexivity|].
  apply (suffix_filter_is_the_star_pattern ".json" "users.json" eq_refl eq_refl).
Defined.

End FurtherInstances.

